(** * enrich_work_values: SOC normalisation, column resolution, the O*NET
    Work-Values loader and the merge step

    A shallow embedding of [enrich_work_values.py].  Python strings are
    lists of characters with code points below 256; a spreadsheet cell is a
    tagged scalar; a pandas DataFrame is a list of column labels with a list
    of rows; functions that raise return a [result].  What pandas does
    with dates and with the dtype of a column that has to hold a missing
    value enters as parameters: the parser of the dates ([to_datetime])
    and the casts of the pivot ([upcast]) and of the merge ([promote]). *)

From Stdlib Require Import Ascii String Bool Arith ZArith Lia List Permutation Sorted.
From Stdlib Require Import DecimalString.
Import ListNotations.

Local Open Scope list_scope.
Local Open Scope nat_scope.

(** ** Strings *)

Module PyStr.

Definition str := list ascii.

(** A literal. *)
Definition py (s : string) : str := list_ascii_of_string s.

Definition code (c : ascii) : nat := nat_of_ascii c.

(** [c in "0123456789"]: the class kept by [re.sub(r"[^0-9]", "", s)]. *)
Definition is_digit (c : ascii) : bool :=
  (48 <=? code c) && (code c <=? 57).

(** [c in "abcdefghijklmnopqrstuvwxyz"]. *)
Definition is_lower_az (c : ascii) : bool :=
  (97 <=? code c) && (code c <=? 122).

(** [str.isspace] on one character: TAB..CR, FS..US, SPACE, NEL, NBSP. *)
Definition isspace (c : ascii) : bool :=
  ((9 <=? code c) && (code c <=? 13))
  || ((28 <=? code c) && (code c <=? 32))
  || (code c =? 133) || (code c =? 160).

(** [str.lower] on one character: A-Z and the Latin-1 capitals move up by
    32, everything else stays.  (Beyond the code points that the model
    has, [str.lower] sends a few characters to ASCII letters, the Kelvin
    sign to k for one.) *)
Definition lower_char (c : ascii) : ascii :=
  let n := code c in
  if ((65 <=? n) && (n <=? 90))
     || ((192 <=? n) && (n <=? 214))
     || ((216 <=? n) && (n <=? 222))
  then ascii_of_nat (n + 32) else c.

Definition lower (s : str) : str := map lower_char s.

Fixpoint lstrip (s : str) : str :=
  match s with
  | [] => []
  | c :: t => if isspace c then lstrip t else s
  end.

Definition rstrip (s : str) : str := rev (lstrip (rev s)).

(** [s.strip()] *)
Definition strip (s : str) : str := rstrip (lstrip s).

Definition str_eqb (a b : str) : bool :=
  if list_eq_dec ascii_dec a b then true else false.

Fixpoint startswith (p s : str) : bool :=
  match p, s with
  | [], _ => true
  | _ :: _, [] => false
  | a :: p', b :: s' => Ascii.eqb a b && startswith p' s'
  end.

(** [sub in s] *)
Fixpoint contains (sub s : str) : bool :=
  startswith sub s
  || match s with
     | [] => false
     | _ :: t => contains sub t
     end.

(** [x in l] for a list (or set) of strings. *)
Definition mem (x : str) (l : list str) : bool := existsb (str_eqb x) l.

(** [digits[lo:hi]] for [lo <= hi]. *)
Definition slice {A} (lo hi : nat) (l : list A) : list A :=
  firstn (hi - lo) (skipn lo l).

(** Code-point order on strings, as [<] on Python [str]. *)
Fixpoint str_ltb (a b : str) : bool :=
  match a, b with
  | _, [] => false
  | [], _ :: _ => true
  | x :: a', y :: b' =>
      (code x <? code y) || ((code x =? code y) && str_ltb a' b')
  end.

End PyStr.
Export PyStr.

(** ** Cells and results *)

(** A scalar held by a DataFrame cell. *)
Inductive cell : Type :=
| CStr (s : str)       (* a Python str *)
| CNull                (* None, NaN, NaT, pd.NA: [pd.notna] is False *)
| CObj (repr : str).   (* any other scalar (int, float, Timestamp), given by its str() *)

Definition notna (c : cell) : bool :=
  match c with CNull => false | _ => true end.

(** [str(c)]; a null is shown as NaN is. *)
Definition py_str (c : cell) : str :=
  match c with
  | CStr s => s
  | CNull => py "nan"
  | CObj r => r
  end.

Definition cell_eqb (a b : cell) : bool :=
  match a, b with
  | CStr x, CStr y => str_eqb x y
  | CNull, CNull => true
  | CObj x, CObj y => str_eqb x y
  | _, _ => false
  end.

Inductive exn : Type :=
| KeyError
| ValueError
| MergeError
| OtherError.          (* any other exception *)

Inductive result (A : Type) : Type :=
| Ok (a : A)
| Raise (e : exn).
Arguments Ok {A} a.
Arguments Raise {A} e.

Definition bind {A B} (r : result A) (k : A -> result B) : result B :=
  match r with
  | Ok a => k a
  | Raise e => Raise e
  end.

Notation "x <- r ;; k" := (bind r (fun x => k))
  (at level 61, r at next level, right associativity).

(** ** Helpers of the script *)

(** [_canon]: lowercase, then drop everything outside [a-z0-9]. *)
Definition _canon (s : str) : str :=
  filter (fun c => is_lower_az c || is_digit c) (lower s).

(** Lines 46-47 of [norm_soc]: the text the function goes on with. *)
Definition soc_text (s : cell) : str :=
  match s with
  | CStr x => x
  | CNull => []
  | CObj _ => py_str s
  end.

Definition norm_soc (s : cell) : str :=
  let s := strip (soc_text s) in
  match s with
  | [] => []
  | _ :: _ =>
      let digits := filter is_digit s in
      if 7 <=? length digits then
        let left := slice 0 2 digits ++ py "-" ++ slice 2 7 digits in
        let rest := skipn 7 digits in
        left ++ match rest with [] => [] | _ :: _ => py "-" ++ rest end
      else if (length digits =? 5) || (length digits =? 6) then
        firstn 2 digits ++ py "-" ++ skipn 2 digits
      else s
  end.

(** ** DataFrames *)

(** Column labels in order, and the rows with one cell per column. *)
Record DataFrame : Type := mkDF {
  columns : list str;
  rows : list (list cell)
}.

(** Every row is as wide as the header. *)
Definition rectangular (df : DataFrame) : Prop :=
  Forall (fun r => length r = length (columns df)) (rows df).

Fixpoint positions_from (i : nat) (label : str) (cols : list str) : list nat :=
  match cols with
  | [] => []
  | c :: t =>
      (if str_eqb c label then [i] else []) ++ positions_from (S i) label t
  end.

(** The positions of the columns that carry [label]. *)
Definition positions (label : str) (cols : list str) : list nat :=
  positions_from 0 label cols.

Definition cell_at (i : nat) (r : list cell) : cell := nth i r CNull.

(** The position of [label] when [df[label]] is used as a Series.  With no
    such column pandas raises KeyError; with several the expression is a
    DataFrame and the Series code applied to it ([.apply(norm_soc)],
    [.map], [.astype(str).str]) raises. *)
Definition position (cols : list str) (label : str) : result nat :=
  match positions label cols with
  | [] => Raise KeyError
  | [i] => Ok i
  | _ :: _ :: _ => Raise ValueError
  end.

(** [df[label]] as a Series. *)
Definition series (df : DataFrame) (label : str) : result (list cell) :=
  i <- position (columns df) label ;;
  Ok (map (cell_at i) (rows df)).

(** The cell of row [r] under [label] (first such column). *)
Definition get (cols : list str) (r : list cell) (label : str) : cell :=
  match positions label cols with
  | [] => CNull
  | i :: _ => cell_at i r
  end.

Fixpoint set_cells (cols : list str) (label : str) (v : cell) (r : list cell)
  : list cell :=
  match cols, r with
  | c :: cols', x :: r' =>
      (if str_eqb c label then v else x) :: set_cells cols' label v r'
  | _, _ => r
  end.

(** [df[label] = values], with one value per row: overwrite the column in
    place when the label exists, otherwise add the column at the right
    end. *)
Definition set_column (label : str) (values : list cell) (df : DataFrame)
  : DataFrame :=
  if mem label (columns df) then
    mkDF (columns df)
         (map (fun rv => set_cells (columns df) label (snd rv) (fst rv))
              (combine (rows df) values))
  else
    mkDF (columns df ++ [label])
         (map (fun rv => fst rv ++ [snd rv]) (combine (rows df) values)).

(** [df[label] = scalar] *)
Definition set_column_scalar (label : str) (v : cell) (df : DataFrame)
  : DataFrame :=
  set_column label (map (fun _ => v) (rows df)) df.

(** A Python dict with string keys and values, in insertion order. *)
Definition dict := list (str * str).

Fixpoint dict_get (k : str) (d : dict) : option str :=
  match d with
  | [] => None
  | (k', v) :: t => if str_eqb k' k then Some v else dict_get k t
  end.

(** [d[k] = v]: an existing key keeps its place and takes the new value. *)
Fixpoint dict_set (k v : str) (d : dict) : dict :=
  match d with
  | [] => [(k, v)]
  | (k', v') :: t =>
      if str_eqb k' k then (k, v) :: t else (k', v') :: dict_set k v t
  end.

(** [df.rename(columns=ren)] *)
Definition rename (ren : dict) (df : DataFrame) : DataFrame :=
  mkDF (map (fun c => match dict_get c ren with Some n => n | None => c end)
            (columns df))
       (rows df).

(** [df[labels]]: for every label in turn, all columns that carry it. *)
Definition select (labels : list str) (df : DataFrame) : result DataFrame :=
  if forallb (fun l => mem l (columns df)) labels then
    let idx := flat_map (fun l => positions l (columns df)) labels in
    Ok (mkDF (map (fun i => nth i (columns df) []) idx)
             (map (fun r => map (fun i => cell_at i r) idx) (rows df)))
  else Raise KeyError.

(** [df.columns = labels]: the number of labels must fit. *)
Definition assign_columns (labels : list str) (df : DataFrame)
  : result DataFrame :=
  if length labels =? length (columns df)
  then Ok (mkDF labels (rows df))
  else Raise ValueError.

(** Keep the first element for every key. *)
Fixpoint dedup_first {A} (key : A -> cell) (seen : list cell) (l : list A)
  : list A :=
  match l with
  | [] => []
  | x :: t =>
      if existsb (cell_eqb (key x)) seen then dedup_first key seen t
      else x :: dedup_first key (key x :: seen) t
  end.

(** [df.drop_duplicates(subset=[label], keep="first")], for a label that
    names one column. *)
Definition drop_duplicates (label : str) (df : DataFrame) : result DataFrame :=
  match positions label (columns df) with
  | [i] => Ok (mkDF (columns df) (dedup_first (cell_at i) [] (rows df)))
  | _ => Raise KeyError
  end.

(** The labels are pairwise distinct. *)
Fixpoint distinct (l : list str) : bool :=
  match l with
  | [] => true
  | x :: t => negb (mem x t) && distinct t
  end.

(** ** Column resolution *)

Definition VALUE_COLS_CANON : list str :=
  map py ["Achievement"; "Independence"; "Recognition"; "Relationships";
          "Support"; "Working Conditions"]%string.

Definition VALUE_ALIASES : list (str * list str) :=
  [ (py "Achievement", [py "achievement"]);
    (py "Independence", [py "independence"]);
    (py "Recognition", [py "recognition"]);
    (py "Relationships", [py "relationship"; py "relationships"]);
    (py "Support", [py "support"]);
    (py "Working Conditions",
      [py "workingconditions"; py "workconditions";
       py "workingcondition"; py "workcondition"]) ].

(** [_col_like]: the first column whose canonical form is wanted. *)
Definition _col_like (cols : list str) (options : list str) : option str :=
  let want := map _canon options in
  find (fun c => mem (_canon c) want) cols.

(** [find_col]: the same search, raising KeyError on absence. *)
Definition find_col (cols : list str) (options : list str) : result str :=
  match _col_like cols options with
  | Some c => Ok c
  | None => Raise KeyError
  end.

(** The first [Some] that [f] gives along [l]: a [for] loop with an early
    [return]. *)
Fixpoint first_hit {A B} (f : A -> option B) (l : list A) : option B :=
  match l with
  | [] => None
  | x :: t => match f x with Some y => Some y | None => first_hit f t end
  end.

(** [{_canon(c): c for c in onet_df.columns}] *)
Definition canon_headers (cols : list str) : dict :=
  fold_left (fun d c => dict_set (_canon c) c d) cols [].

Definition _find_value_col (headers : dict) (aliases : list str) : option str :=
  match first_hit (fun a => dict_get a headers) aliases with
  | Some orig => Some orig
  | None =>
      first_hit
        (fun a =>
           first_hit
             (fun kv => if contains a (fst kv) then Some (snd kv) else None)
             headers)
        aliases
  end.

Fixpoint assoc_get {V} (k : str) (d : list (str * V)) : option V :=
  match d with
  | [] => None
  | (k', v) :: t => if str_eqb k' k then Some v else assoc_get k t
  end.

(** [[_canon(x) for x in VALUE_ALIASES.get(v, [_canon(v)])]] *)
Definition aliases_of (v : str) : list str :=
  map _canon
      match assoc_get v VALUE_ALIASES with
      | Some l => l
      | None => [_canon v]
      end.

(** The loop that fills [value_cols]; [None] stands for
    [KeyError("wide-missing:...")]. *)
Fixpoint resolve_value_cols (headers : dict) (vs : list str)
  : option (list str) :=
  match vs with
  | [] => Some []
  | v :: t =>
      match _find_value_col headers (aliases_of v) with
      | None => None
      | Some hit =>
          match resolve_value_cols headers t with
          | None => None
          | Some l => Some (hit :: l)
          end
      end
  end.

Definition soc_opts : list str :=
  map py ["SOC Code"; "SOC"; "Code"; "SOC_Code"; "Occupation Code";
          "O*NET-SOC Code"; "O*NET-SOC Codes"; "ONET SOC Code";
          "ONET SOC Codes"]%string.

(** The SOC column of the reference table: alias list, then the
    "soc and code" heuristic. *)
Definition resolve_soc_col (cols : list str) : result str :=
  match _col_like cols soc_opts with
  | Some c => Ok c
  | None =>
      match find (fun c => contains (py "soc") (_canon c)
                           && contains (py "code") (_canon c)) cols with
      | Some c => Ok c
      | None => Raise KeyError
      end
  end.

(** ** The Work-Values loader *)

(** A row of the long-shape working copy, with the columns the loader
    reads: normalised [SOC Code], [_target_value], [Data Value],
    [Scale Name] and [Date] (null where the table has no such column). *)
Record LongRow : Type := mkLong {
  soc_code : str;
  target_value : str;
  data_value : cell;
  scale_name : cell;
  date : cell
}.

(** [alias_to_value], filled in the order of the two nested loops. *)
Definition alias_to_value : dict :=
  fold_left
    (fun d (entry : str * list str) =>
       let d := fold_left (fun d a => dict_set (_canon a) (fst entry) d)
                          (snd entry) d in
       dict_set (_canon (fst entry)) (fst entry) d)
    VALUE_ALIASES [].

(** [if c: ren[c] = new] for an optional, possibly empty, label. *)
Definition ren_if (c : option str) (new : str) (ren : dict) : dict :=
  match c with
  | Some ((_ :: _) as c) => dict_set c new ren
  | _ => ren
  end.

(** [.astype(str).str.lower().str.contains("importance")] on one cell. *)
Definition is_importance (c : cell) : bool :=
  contains (py "importance") (lower (py_str c)).

(** Lines 198-201: prefer the importance scale when any row has it. *)
Definition prefer_importance (df : list LongRow) : list LongRow :=
  let mask_importance := fun r => is_importance (scale_name r) in
  if existsb mask_importance df then filter mask_importance df else df.

(** Lines 197-201. *)
Definition scale_step (labels : list str) (df : list LongRow) : list LongRow :=
  if mem (py "Scale Name") labels then prefer_importance df else df.

Fixpoint with_dates (df : list LongRow) (ds : list (option Z))
  : list (LongRow * option Z) :=
  match df with
  | [] => []
  | r :: t => (r, hd None ds) :: with_dates t (tl ds)
  end.

(** Ascending order on [__date] with NaT last. *)
Definition date_leb (a b : option Z) : bool :=
  match a, b with
  | _, None => true
  | None, Some _ => false
  | Some x, Some y => (x <=? y)%Z
  end.

(** The order of [sort_values(["SOC Code", "_target_value", "__date"])]. *)
Definition row_leb (a b : LongRow * option Z) : bool :=
  let ra := fst a in
  let rb := fst b in
  str_ltb (soc_code ra) (soc_code rb)
  || (str_eqb (soc_code ra) (soc_code rb)
      && (str_ltb (target_value ra) (target_value rb)
          || (str_eqb (target_value ra) (target_value rb)
              && date_leb (snd a) (snd b)))).

Fixpoint insert_sorted {A} (leb : A -> A -> bool) (x : A) (l : list A)
  : list A :=
  match l with
  | [] => [x]
  | y :: t => if leb x y then x :: l else y :: insert_sorted leb x t
  end.

(** A stable sort: equal keys keep their order, as in the sort pandas uses
    for several columns. *)
Fixpoint stable_sort {A} (leb : A -> A -> bool) (l : list A) : list A :=
  match l with
  | [] => []
  | x :: t => insert_sorted leb x (stable_sort leb t)
  end.

Definition same_group (a b : LongRow) : bool :=
  str_eqb (soc_code a) (soc_code b)
  && str_eqb (target_value a) (target_value b).

(** [groupby(["SOC Code", "_target_value"]).tail(1)]: the last row of every
    group, in frame order. *)
Fixpoint group_tail (df : list (LongRow * option Z))
  : list (LongRow * option Z) :=
  match df with
  | [] => []
  | r :: t =>
      if existsb (fun r' => same_group (fst r) (fst r')) t
      then group_tail t
      else r :: group_tail t
  end.

(** [GroupBy.last]: the last value that is not null. *)
Fixpoint last_notna (cells : list cell) : cell :=
  match cells with
  | [] => CNull
  | c :: t =>
      match last_notna t with
      | CNull => c
      | v => v
      end
  end.

(** The aggregate of the group of [(s, v)]. *)
Definition group_last (df : list LongRow) (s v : str) : cell :=
  last_notna
    (map data_value
         (filter (fun r => str_eqb (soc_code r) s && str_eqb (target_value r) v)
                 df)).

(** The strings of [l], each once. *)
Fixpoint unique (l : list str) : list str :=
  match l with
  | [] => []
  | x :: t => if mem x t then unique t else x :: unique t
  end.

Definition str_leb (a b : str) : bool := negb (str_ltb b a).

(** The distinct strings of [l] in ascending order. *)
Definition sorted_unique (l : list str) : list str :=
  stable_sort str_leb (unique l).

(** A cell of a column whose values pandas casts with [cast] to make room
    for missing values: a missing value stays missing. *)
Definition cast_cell (cast : cell -> cell) (c : cell) : cell :=
  match c with
  | CNull => CNull
  | _ => cast c
  end.

(** The rows whose group has a value: the groups whose aggregate is null
    are dropped before unstacking ([dropna=True]). *)
Definition pivot_live (df : list LongRow) : list LongRow :=
  filter (fun r => notna (group_last df (soc_code r) (target_value r))) df.

(** The index and the columns of the pivot: the sorted keys of the groups
    that stay. *)
Definition pivot_index (df : list LongRow) : list str :=
  sorted_unique (map soc_code (pivot_live df)).

Definition pivot_columns (df : list LongRow) : list str :=
  sorted_unique (map target_value (pivot_live df)).

(** Every cell of the pivot has a group. *)
Definition pivot_complete (df : list LongRow) : bool :=
  forallb (fun s => forallb (fun v => notna (group_last df s v))
                            (pivot_columns df))
          (pivot_index df).

(** A value as the pivot shows it.  When some cell has no group, the
    unstacked values take the dtype that holds NaN: [upcast] is that cast
    of a Data Value (an int of an int64 column becomes a float; a float or
    a value of an object column stays as it is); with a group for every
    cell the values stay as they are. *)
Definition pivot_cell (upcast : cell -> cell) (df : list LongRow) (c : cell)
  : cell :=
  if pivot_complete df then c else cast_cell upcast c.

(** [df.pivot_table(index="SOC Code", columns="_target_value",
    values="Data Value", aggfunc="last").reset_index()]: a cell without a
    group is null. *)
Definition pivot_table (upcast : cell -> cell) (df : list LongRow)
  : DataFrame :=
  mkDF (py "SOC Code" :: pivot_columns df)
       (map (fun s =>
               CStr s :: map (fun v => pivot_cell upcast df (group_last df s v))
                             (pivot_columns df))
            (pivot_index df)).

(** Lines 220-222. *)
Definition ensure_value_columns (wide : DataFrame) : DataFrame :=
  fold_left
    (fun w v => if mem v (columns w) then w else set_column_scalar v CNull w)
    VALUE_COLS_CANON wide.

(** The number that the digits [ds] write. *)
Definition number (ds : str) : Z :=
  fold_left (fun n c => (10 * n + Z.of_nat (code c - 48))%Z) ds 0%Z.

Definition days_in_month (y m : Z) : Z :=
  if (m =? 2)%Z then
    if ((y mod 4 =? 0) && negb (y mod 100 =? 0) || (y mod 400 =? 0))%Z
    then 29%Z else 28%Z
  else if ((m =? 4) || (m =? 6) || (m =? 9) || (m =? 11))%Z then 30%Z
  else 31%Z.

(** A stand-in for [pd.to_datetime(..., errors="coerce")] used in the
    examples, for a column whose cells are texts [YYYY-MM-DD] or texts
    that are no date at all: a calendar day of the years 1678 to 2261
    gives the number yyyymmdd, which orders as the dates do; any other
    cell is NaT.  The date formats that pandas reads besides this one are
    not covered. *)
Definition iso_day (c : cell) : option Z :=
  match c with
  | CStr [y1; y2; y3; y4; h1; m1; m2; h2; d1; d2] =>
      let y := number [y1; y2; y3; y4] in
      let m := number [m1; m2] in
      let d := number [d1; d2] in
      if forallb is_digit [y1; y2; y3; y4; m1; m2; d1; d2]
         && Ascii.eqb h1 "-" && Ascii.eqb h2 "-"
         && (1678 <=? y)%Z && (y <=? 2261)%Z
         && (1 <=? m)%Z && (m <=? 12)%Z
         && (1 <=? d)%Z && (d <=? days_in_month y m)%Z
      then Some (10000 * y + 100 * m + d)%Z
      else None
  | _ => None
  end.

(** [r] is the text of an int of at most fifteen digits. *)
Definition is_int_text (r : str) : bool :=
  let digits := match r with
                | "-"%char :: t => t
                | _ => r
                end in
  match digits with
  | [] => false
  | "0"%char :: _ :: _ => false
  | _ :: _ => forallb is_digit digits && (length digits <=? 15)
  end.

(** A stand-in, used in the examples, for the cast to float64 of a column
    of dtype int64: an int is shown as the float that equals it.  On a
    cell that is no int it does nothing, as the cast of a column of floats
    or of texts does. *)
Definition as_float64 (c : cell) : cell :=
  match c with
  | CObj r => if is_int_text r then CObj (r ++ py ".0") else c
  | _ => c
  end.

(** Lines 144-149: the projection of a WIDE table on the SOC column and
    the six value columns, with the SOC codes normalised and the
    canonical labels. *)
Definition wide_projection (onet_df : DataFrame) (soc_col : str)
           (value_cols : list str) : result DataFrame :=
  let keep := soc_col :: value_cols in
  out <- select keep onet_df ;;
  let out := rename [(soc_col, py "SOC Code")] out in
  soc <- series out (py "SOC Code") ;;
  let out := set_column (py "SOC Code")
                        (map (fun c => CStr (norm_soc c)) soc) out in
  assign_columns (py "SOC Code" :: VALUE_COLS_CANON) out.

(** Lines 144-151: the table is WIDE. *)
Definition load_wide (onet_df : DataFrame) (soc_col : str)
           (value_cols : list str) : result DataFrame :=
  out <- wide_projection onet_df soc_col value_cols ;;
  drop_duplicates (py "SOC Code") out.

Section Loader.

(** [pd.to_datetime(series, errors="coerce")]: one parsed instant per
    cell, [None] for NaT. *)
Variable to_datetime : list cell -> list (option Z).

(** The cast of the Data Values when the pivot has to hold a missing
    value, see [pivot_table]. *)
Variable upcast : cell -> cell.

(** Lines 204-210. *)
Definition keep_latest (df : list LongRow) : list LongRow :=
  let dated := with_dates df (to_datetime (map date df)) in
  map fst (group_tail (stable_sort row_leb dated)).

(** The working copy after lines 159-195: its labels after renaming, and
    its rows (normalised SOC code, only the rows whose element name maps
    to one of the six values). *)
Definition long_rows (onet_df : DataFrame) (soc_col : str)
  : result (list str * list LongRow) :=
  let cols := columns onet_df in
  match _col_like cols [py "Element Name"], _col_like cols [py "Data Value"] with
  | Some c_elem, Some c_val =>
      let ren := dict_set c_elem (py "Element Name") [] in
      let ren := dict_set c_val (py "Data Value") ren in
      let c_scale := _col_like cols [py "Scale Name"; py "Scale"] in
      let ren := ren_if c_scale (py "Scale Name") ren in
      let c_date := _col_like cols [py "Date"] in
      let ren := ren_if c_date (py "Date") ren in
      let ren := if str_eqb soc_col (py "SOC Code") then ren
                 else dict_set soc_col (py "SOC Code") ren in
      let df := rename ren onet_df in
      i_soc <- position (columns df) (py "SOC Code") ;;
      i_elem <- position (columns df) (py "Element Name") ;;
      let mapped :=
        flat_map
          (fun r =>
             match dict_get (_canon (py_str (cell_at i_elem r))) alias_to_value with
             | Some v => [(r, v)]
             | None => []
             end)
          (rows df) in
      match mapped with
      | [] => Raise KeyError
      | _ :: _ =>
          scale_at <- (if mem (py "Scale Name") (columns df)
                       then i <- position (columns df) (py "Scale Name") ;;
                            Ok (cell_at i)
                       else Ok (fun _ => CNull)) ;;
          date_at <- (if mem (py "Date") (columns df)
                      then i <- position (columns df) (py "Date") ;;
                           Ok (cell_at i)
                      else Ok (fun _ => CNull)) ;;
          i_val <- position (columns df) (py "Data Value") ;;
          Ok (columns df,
              map (fun rv =>
                     let r := fst rv in
                     mkLong (norm_soc (cell_at i_soc r)) (snd rv)
                            (cell_at i_val r) (scale_at r) (date_at r))
                  mapped)
      end
  | _, _ => Raise KeyError
  end.

(** Lines 203-210. *)
Definition date_step (labels : list str) (df : list LongRow) : list LongRow :=
  if mem (py "Date") labels then keep_latest df else df.

(** Lines 197-224, on the rows of the working copy. *)
Definition long_to_wide (labels : list str) (df : list LongRow)
  : result DataFrame :=
  let df := scale_step labels df in
  let df := date_step labels df in
  let wide := ensure_value_columns (pivot_table upcast df) in
  wide <- select (py "SOC Code" :: VALUE_COLS_CANON) wide ;;
  drop_duplicates (py "SOC Code") wide.

(** Lines 157-225: the table is LONG. *)
Definition load_long (onet_df : DataFrame) (soc_col : str) : result DataFrame :=
  working <- long_rows onet_df soc_col ;;
  long_to_wide (fst working) (snd working).

(** [load_onet_values], from the table that [pd.read_excel] returned. *)
Definition load_onet_values (raw : DataFrame) : result DataFrame :=
  let onet_df := mkDF (map strip (columns raw)) (rows raw) in
  soc_col <- resolve_soc_col (columns onet_df) ;;
  match resolve_value_cols (canon_headers (columns onet_df)) VALUE_COLS_CANON with
  | Some value_cols =>
      match load_wide onet_df soc_col value_cols with
      | Raise KeyError => load_long onet_df soc_col
      | r => r
      end
  | None => load_long onet_df soc_col
  end.

End Loader.

(** ** Orchestration *)

Fixpoint remove_nth {A} (i : nat) (l : list A) : list A :=
  match i, l with
  | _, [] => []
  | O, _ :: t => t
  | S i', x :: t => x :: remove_nth i' t
  end.

(** No value occurs twice. *)
Fixpoint is_unique (l : list cell) : bool :=
  match l with
  | [] => true
  | x :: t => negb (existsb (cell_eqb x) t) && is_unique t
  end.

(** The labels [rlabels] of the columns [rcols] after the suffix: one of
    them occurs earlier among [rlabels] although its column does not occur
    earlier among [rcols]. *)
Fixpoint made_duplicate (seen_cols seen_labels rcols rlabels : list str)
  : bool :=
  match rcols, rlabels with
  | c :: rcols', l :: rlabels' =>
      (mem l seen_labels && negb (mem c seen_cols))
      || made_duplicate (c :: seen_cols) (l :: seen_labels) rcols' rlabels'
  | _, _ => false
  end.

(** The suffix has made a label twice: a label of [rlabels] is a label of
    the left table that the right table has not, or [made_duplicate].
    pandas 2 raises MergeError then. *)
Definition suffix_clash (lcols rcols rlabels : list str) : bool :=
  existsb (fun l => mem l lcols && negb (mem l rcols)) rlabels
  || made_duplicate [] [] rcols rlabels.

(** The cells of a row of the right table, each cast as its column is. *)
Fixpoint promoted (promote : nat -> cell -> cell) (j : nat)
         (cells : list cell) : list cell :=
  match cells with
  | [] => []
  | c :: t => cast_cell (promote j) c :: promoted promote (S j) t
  end.

(** The cells of column [i] are texts.  The SOC codes are, on both sides
    of the merge, since [norm_soc] returns a text; pandas refuses to merge
    on keys of some other mixes of types. *)
Definition texts_at (i : nat) (df : DataFrame) : Prop :=
  forall r, In r (rows df) -> exists s, cell_at i r = CStr s.

(** The row of [right] that a row [l] of [left] is merged with: the one
    with its key. *)
Definition matching_row (il ir : nat) (right : DataFrame) (l : list cell)
  : option (list cell) :=
  find (fun r => cell_eqb (cell_at ir r) (cell_at il l)) (rows right).

(** Every row of [left] has a row of [right] with its key. *)
Definition all_matched (il ir : nat) (left right : DataFrame) : bool :=
  forallb (fun l => match matching_row il ir right l with
                    | Some _ => true
                    | None => false
                    end)
          (rows left).

(** A row of the merged table: the row of [left], then the cells of its
    row of [right] without the key, or nulls.  When some row of [left]
    has no match, the columns of [right] take the dtype that holds a
    missing value: [promote j] is that cast for the [j]-th of them (an
    int of an int64 column becomes a float; a float or a value of an
    object column stays as it is). *)
Definition merged_row (promote : nat -> cell -> cell) (il ir : nat)
           (left right : DataFrame) (l : list cell) : list cell :=
  l ++ match matching_row il ir right l with
       | Some r =>
           if all_matched il ir left right then remove_nth ir r
           else promoted promote 0 (remove_nth ir r)
       | None => map (fun _ => CNull) (remove_nth ir (columns right))
       end.

(** [pd.merge(left, right, on=on, how="left", validate="m:1",
    suffixes=("", rsuffix))].  The key must name one column on each side;
    the keys of [right] must be unique or the merge raises MergeError;
    a label of [right] that [left] has too takes the suffix, and the
    merge raises MergeError when that makes a label twice; every row of
    [left] stays, in order, as its [merged_row]; the key column of
    [right] is not repeated.  For a [left] without rows pandas drops the
    key column of [left] instead of that of [right].  The keys are taken
    to be texts on both sides ([texts_at]), as the script has them. *)
Definition merge_left_m1 (promote : nat -> cell -> cell) (on rsuffix : str)
           (left right : DataFrame) : result DataFrame :=
  il <- position (columns left) on ;;
  ir <- position (columns right) on ;;
  if is_unique (map (cell_at ir) (rows right)) then
    let rcols := remove_nth ir (columns right) in
    let suffixed := fun c => if mem c (columns left) then c ++ rsuffix else c in
    if suffix_clash (columns left) rcols (map suffixed rcols)
    then Raise MergeError
    else
      match rows left with
      | [] =>
          Ok (mkDF (remove_nth il (columns left)
                      ++ map (fun c => if str_eqb c on then c else suffixed c)
                             (columns right))
                   [])
      | _ :: _ =>
          Ok (mkDF (columns left ++ map suffixed rcols)
                   (map (merged_row promote il ir left right) (rows left)))
      end
  else Raise MergeError.

(** What a run of [main] comes to: the table handed to [to_excel], a
    return code, or an exception that nothing catches. *)
Inductive outcome : Type :=
| Saved (merged : DataFrame)
| Exit (status : nat)
| Uncaught (e : exn).

Definition job_opts : list str := map py ["Job Title"; "Job Titles"]%string.

Definition soc_opts_in : list str :=
  map py ["SOC Code"; "SOC"; "Code"; "SOC_Code";
          "O*NET-SOC Codes"; "O*NET-SOC Code";
          "ONET SOC Codes"; "ONET SOC Code";
          "ONET-SOC Codes"; "ONET-SOC Code";
          "ONET Codes"; "ONET Code"]%string.

Definition headcount_opts : list str :=
  map py ["HeadCount"; "Head Count"; "HC"]%string.

Definition occ_title_opts : list str :=
  map py ["Occupational Title"; "Occupation Title"; "ONET Title"; "Title"]%string.

(** [try: c = find_col(...) except KeyError: c = None] *)
Definition find_col_or_none (cols : list str) (options : list str)
  : option str :=
  match find_col cols options with
  | Ok c => Some c
  | Raise _ => None
  end.

(** Lines 242-289, once the SOC column [soc_col_in] is found. *)
Definition standardize (in_df : DataFrame) (soc_col_in : str)
  : result DataFrame :=
  let cols := columns in_df in
  let job_col := find_col_or_none cols job_opts in
  let headcount_col := find_col_or_none cols headcount_opts in
  let occ_title_col := find_col_or_none cols occ_title_opts in
  soc <- series in_df soc_col_in ;;
  let in_df := set_column (py "SOC Code")
                          (map (fun c => CStr (norm_soc c)) soc) in_df in
  let in_df := match headcount_col with
               | None => set_column_scalar (py "HeadCount") (CObj (py "1")) in_df
               | Some h => rename [(h, py "HeadCount")] in_df
               end in
  in_df <- match occ_title_col with
           | Some o => Ok (rename [(o, py "Occupational Title")] in_df)
           | None =>
               match job_col with
               | None => Ok (set_column_scalar (py "Occupational Title")
                                               (CStr []) in_df)
               | Some j =>
                   titles <- series in_df j ;;
                   Ok (set_column (py "Occupational Title") titles in_df)
               end
           end ;;
  Ok match job_col with
     | Some j => if str_eqb j (py "Job Title") then in_df
                 else rename [(j, py "Job Title")] in_df
     | None => in_df
     end.

(** Line 299. *)
Definition merge_step (promote : nat -> cell -> cell)
           (in_df onet_df : DataFrame) : result DataFrame :=
  merge_left_m1 promote (py "SOC Code") (py "_ONET") in_df onet_df.

Definition FRONT : list str :=
  map py ["Job Title"; "HeadCount"; "SOC Code"; "Occupational Title"]%string.

(** Lines 301-304. *)
Definition reorder (merged : DataFrame) : result DataFrame :=
  let front := filter (fun c => mem c (columns merged)) FRONT in
  let vals := filter (fun c => mem c (columns merged)) VALUE_COLS_CANON in
  let others :=
    filter (fun c => negb (mem c (front ++ vals))) (columns merged) in
  select (front ++ vals ++ others) merged.

(** Lines 298-304: from the standardised input and the loaded reference
    table to the table that is written. *)
Definition merge_and_order (promote : nat -> cell -> cell)
           (in_df onet_df : DataFrame) : outcome :=
  match merge_step promote in_df onet_df with
  | Raise e => Uncaught e
  | Ok merged =>
      match reorder merged with
      | Raise e => Uncaught e
      | Ok merged => Saved merged
      end
  end.

(** Lines 242-304 of [main]: from the input sheet that [pd.read_excel]
    returned to the table handed to [to_excel]; [load] is the Work-Values
    loader and [source] what it is called on. *)
Definition main_with {S : Type} (promote : nat -> cell -> cell)
           (load : S -> result DataFrame)
           (in_raw : DataFrame) (source : S) : outcome :=
  let in_df := mkDF (map strip (columns in_raw)) (rows in_raw) in
  match find_col (columns in_df) soc_opts_in with
  | Raise _ => Exit 3
  | Ok soc_col_in =>
      match standardize in_df soc_col_in with
      | Raise e => Uncaught e
      | Ok in_df =>
          match load source with
          | Raise _ => Exit 4
          | Ok onet_df => merge_and_order promote in_df onet_df
          end
      end
  end.

(** Lines 242-304 with the loader of the script, on the two tables that
    [pd.read_excel] returned. *)
Definition main (to_datetime : list cell -> list (option Z))
           (upcast : cell -> cell) (promote : nat -> cell -> cell)
           (in_raw onet_raw : DataFrame) : outcome :=
  main_with promote (load_onet_values to_datetime upcast) in_raw onet_raw.

(** Lines 235-304 of [main]: [in_read] is what [pd.read_excel] gives for
    the input sheet, [None] when it raises. *)
Definition main_read {S : Type} (promote : nat -> cell -> cell)
           (load : S -> result DataFrame)
           (in_read : option DataFrame) (source : S) : outcome :=
  match in_read with
  | None => Exit 2
  | Some in_raw => main_with promote load in_raw source
  end.

(** Lines 90-99 and the rest of [load_onet_values]: [onet_read] is what
    the reading of the source gives, [None] when it raises. *)
Definition load_source (to_datetime : list cell -> list (option Z))
           (upcast : cell -> cell) (onet_read : option DataFrame)
  : result DataFrame :=
  match onet_read with
  | None => Raise OtherError
  | Some raw => load_onet_values to_datetime upcast raw
  end.

(** ** Saving the merged table *)

(** What one call of [merged.to_excel(out_path, index=False)] comes to. *)
Inductive write_outcome : Type :=
| WriteOk
| PermissionError     (* the destination is locked *)
| WriteError.         (* any other exception *)

(** How lines 306-325 end: the table is written at a path and [main]
    returns 0, [main] returns 5, or an exception leaves [main]. *)
Inductive saved : Type :=
| SavedAt (out_path : str)
| GaveUp
| WriteRaised
| OutOfFuel.          (* the model's recursion bound is used up *)

(** [str(attempt)] *)
Definition decimal (n : nat) : str :=
  py (NilZero.string_of_uint (Nat.to_uint n)).

(** [f"{base} ({attempt}){ext}"] *)
Definition numbered (base ext : str) (attempt : nat) : str :=
  base ++ py " (" ++ decimal attempt ++ py ")" ++ ext.

(** The [while True] loop of lines 310-319; [to_excel] tells what writing
    at a path does, [fuel] bounds the number of rounds. *)
Fixpoint save_loop (to_excel : str -> write_outcome) (base ext : str)
         (fuel attempt : nat) (out_path : str) : saved :=
  match fuel with
  | O => OutOfFuel
  | S fuel' =>
      match to_excel out_path with
      | WriteOk => SavedAt out_path
      | WriteError => WriteRaised
      | PermissionError =>
          let attempt := S attempt in
          let out_path := numbered base ext attempt in
          if 10 <? attempt then GaveUp
          else save_loop to_excel base ext fuel' attempt out_path
      end
  end.

(** Lines 306-325, with [(base, ext)] the result of
    [os.path.splitext(out_path)]. *)
Definition save (to_excel : str -> write_outcome) (out_path base ext : str)
  : saved :=
  save_loop to_excel base ext 11 0 out_path.

(** The paths that the loop can try, in order: the requested one, then the
    numbered ones from 1 to 10. *)
Definition candidates (out_path base ext : str) : list str :=
  out_path :: map (numbered base ext) (seq 1 10).

(** The first path of [l] that is not locked decides: written there, or
    the exception of the write; with every path locked the run gives up. *)
Fixpoint first_unlocked (to_excel : str -> write_outcome) (l : list str)
  : saved :=
  match l with
  | [] => GaveUp
  | q :: t =>
      match to_excel q with
      | WriteOk => SavedAt q
      | WriteError => WriteRaised
      | PermissionError => first_unlocked to_excel t
      end
  end.

(** [df'] is [df] changed row by row by [g]: a row as wide as the header
    of [df] becomes one as wide as the header of [df']. *)
Definition row_by_row (df df' : DataFrame) (g : list cell -> list cell)
  : Prop :=
  rows df' = map g (rows df)
  /\ forall r, length r = length (columns df) ->
               length (g r) = length (columns df').

(** ... and the cell under [l] of the changed row is [F] of the row. *)
Definition computes (l : str) (F : list cell -> cell) (df df' : DataFrame)
           (g : list cell -> list cell) : Prop :=
  row_by_row df df' g
  /\ forall r, length r = length (columns df) ->
               get (columns df') (g r) l = F r.

(** ... and the cell under [l] stays what it was. *)
Definition keeps (l : str) (df df' : DataFrame) (g : list cell -> list cell)
  : Prop :=
  row_by_row df df' g
  /\ forall r, length r = length (columns df) ->
               get (columns df') (g r) l = get (columns df) r l.

(** Lines 278-281. *)
Definition headcount_step (headcount_col : option str) (df : DataFrame)
  : DataFrame :=
  match headcount_col with
  | None => set_column_scalar (py "HeadCount") (CObj (py "1")) df
  | Some h => rename [(h, py "HeadCount")] df
  end.

(** Lines 283-286. *)
Definition occ_title_step (occ_title_col job_col : option str)
           (df : DataFrame) : result DataFrame :=
  match occ_title_col with
  | Some o => Ok (rename [(o, py "Occupational Title")] df)
  | None =>
      match job_col with
      | None => Ok (set_column_scalar (py "Occupational Title") (CStr []) df)
      | Some j =>
          titles <- series df j ;;
          Ok (set_column (py "Occupational Title") titles df)
      end
  end.

(** Lines 288-289. *)
Definition job_title_step (job_col : option str) (df : DataFrame)
  : DataFrame :=
  match job_col with
  | Some j => if str_eqb j (py "Job Title") then df
              else rename [(j, py "Job Title")] df
  | None => df
  end.

(** [c] is an ASCII letter or digit. *)
Definition is_ascii_alnum (c : ascii) : bool :=
  ((65 <=? code c) && (code c <=? 90)) || is_lower_az c || is_digit c.

(** [c] is an ASCII character that is neither a letter nor a digit. *)
Definition is_ascii_other (c : ascii) : bool :=
  (code c <? 128) && negb (is_ascii_alnum c).

(** ** Statements of the specification, in its own words, and the notions
    the properties below are stated with *)

(** An input row without a match comes out with each of the six value
    columns null. *)
Definition unmatched_rows_have_null_values : Prop :=
  forall (promote : nat -> cell -> cell)
         (in_df onet_df merged : DataFrame) (il ir : nat),
    position (columns in_df) (py "SOC Code") = Ok il ->
    position (columns onet_df) (py "SOC Code") = Ok ir ->
    merge_step promote in_df onet_df = Ok merged ->
    forall (i : nat) (l : list cell),
      nth_error (rows in_df) i = Some l ->
      (forall r, In r (rows onet_df) -> cell_at ir r <> cell_at il l) ->
      exists m,
        nth_error (rows merged) i = Some m
        /\ forall v, In v VALUE_COLS_CANON -> get (columns merged) m v = CNull.

(** The resolver of the Work-Values columns with the header order
    deciding: the first header that equals a variant, else the first
    header that contains one. *)
Definition resolve_in_header_order (headers aliases : list str) : option str :=
  match find (fun h => mem (_canon h) aliases) headers with
  | Some h => Some h
  | None =>
      find (fun h => existsb (fun a => contains a (_canon h)) aliases) headers
  end.

Definition resolver_follows_header_order : Prop :=
  forall headers aliases : list str,
    _find_value_col (canon_headers headers) aliases
    = resolve_in_header_order headers aliases.

(** The same with the alias order deciding and the header order breaking
    ties: the first alias that is the canonical form of a header gives
    the earliest such header; with no such alias, the first alias that a
    canonical header contains gives the earliest such header. *)
Definition resolve_in_alias_order (headers aliases : list str) : option str :=
  match first_hit (fun a => find (fun h => str_eqb (_canon h) a) headers)
                  aliases with
  | Some h => Some h
  | None =>
      first_hit (fun a => find (fun h => contains a (_canon h)) headers) aliases
  end.

(** The text of the cell contains "importance" in some mix of cases. *)
Definition mentions_importance (c : cell) : Prop :=
  exists pre w post,
    py_str c = pre ++ w ++ post /\ lower w = py "importance".

(** The last element of [l] that satisfies [g]. *)
Fixpoint last_such {A} (g : A -> bool) (l : list A) : option A :=
  match l with
  | [] => None
  | y :: t =>
      match last_such g t with
      | Some z => Some z
      | None => if g y then Some y else None
      end
  end.

(** Among the rows of [l] that satisfy [g], the one that is greatest in
    the order of [__date] (missing dates last), and the last of these in
    the order of [l]. *)
Fixpoint latest_such (g : LongRow * option Z -> bool)
         (l : list (LongRow * option Z)) : option (LongRow * option Z) :=
  match l with
  | [] => None
  | y :: t =>
      if g y then
        match latest_such g t with
        | None => Some y
        | Some b => if date_leb (snd y) (snd b) then Some b else Some y
        end
      else latest_such g t
  end.

(** [c] is what the last row of the group of [(s, v)] with a value holds:
    null when no row of the group has a value. *)
Definition last_value_of_group (df : list LongRow) (s v : str) (c : cell)
  : Prop :=
  let g := filter (fun r => str_eqb (soc_code r) s && str_eqb (target_value r) v)
                  df in
  (c = CNull /\ Forall (fun r => data_value r = CNull) g)
  \/ (exists l1 r l2,
        g = l1 ++ r :: l2 /\ data_value r = c /\ c <> CNull
        /\ Forall (fun x => data_value x = CNull) l2).


(** The written table always starts with the four front labels. *)
Definition output_begins_with_front : Prop :=
  forall (to_datetime : list cell -> list (option Z)) (upcast : cell -> cell)
         (promote : nat -> cell -> cell) (in_raw onet_raw out : DataFrame),
    main to_datetime upcast promote in_raw onet_raw = Saved out ->
    firstn 4 (columns out) = FRONT.

(** ** Sample tables *)

Module Sample.

Definition s (x : string) : cell := CStr (py x).
Definition n (x : string) : cell := CObj (py x).

(** The cast of the merge for a reference table whose value columns hold
    ints only or floats only. *)
Definition promote : nat -> cell -> cell := fun _ => as_float64.

Definition value_header : list str := py "SOC Code" :: VALUE_COLS_CANON.

(** A loaded reference table. *)
Definition reference : DataFrame :=
  mkDF value_header
       [[s "13-1081"; n "1"; n "2"; n "3"; n "4"; n "5"; n "6"]].

(** A reference table with one SOC code on two rows. *)
Definition reference_twice : DataFrame :=
  mkDF value_header
       [[s "13-1081"; n "1"; n "2"; n "3"; n "4"; n "5"; n "6"];
        [s "13-1081"; n "7"; n "8"; n "9"; n "10"; n "11"; n "12"]].

(** A standardised input sheet. *)
Definition jobs : DataFrame :=
  mkDF (map py ["Job Title"; "Dept"; "SOC Code"; "HeadCount";
                "Occupational Title"]%string)
       [[s "Analyst"; s "A"; s "13-1081"; n "3"; s "Logistician"];
        [s "Other"; s "B"; s "99-9999"; n "1"; s "Unknown"]].

(** A standardised input sheet that already has an Achievement column, as
    an earlier output of the script has. *)
Definition jobs_scored : DataFrame :=
  mkDF (map py ["Job Title"; "SOC Code"; "HeadCount"; "Occupational Title";
                "Achievement"]%string)
       [[s "Other"; s "99-9999"; n "1"; s "Unknown"; n "8"]].

(** A raw input sheet without a job-title column. *)
Definition raw_codes : DataFrame :=
  mkDF (map py ["Dept"; "Code"]%string)
       [[s "A"; s "131081"]; [s "B"; n "999999"]].

(** A raw wide reference sheet: two spellings of one SOC code. *)
Definition raw_wide : DataFrame :=
  mkDF value_header
       [[s "13-1081"; n "1"; n "2"; n "3"; n "4"; n "5"; n "6"];
        [s "131081"; n "7"; n "8"; n "9"; n "10"; n "11"; n "12"]].

(** Rows of a long working copy: two importance rows and a level row for
    one cell. *)
Definition newer : LongRow :=
  mkLong (py "15-1251") (py "Achievement") (n "4.5") (s "Importance")
         (s "2023-01-01").
Definition older : LongRow :=
  mkLong (py "15-1251") (py "Achievement") (n "3.0") (s "IMPORTANCE (1-5)")
         (s "2021-06-30").
Definition level : LongRow :=
  mkLong (py "15-1251") (py "Achievement") (n "6.1") (s "Level")
         (s "2024-01-01").
Definition undated : LongRow :=
  mkLong (py "15-1251") (py "Achievement") (n "2.2") (s "Importance")
         (s "pending").

Definition long_labels : list str :=
  map py ["SOC Code"; "Element Name"; "Scale Name"; "Data Value"; "Date"]%string.

(** A raw long reference sheet; the last row has a date that does not
    parse. *)
Definition raw_long : DataFrame :=
  mkDF (map py ["O*NET-SOC Code"; "Element Name"; "Scale Name";
                "Data Value"; "Date"]%string)
       [[s "15-1251"; s "Achievement"; s "Importance"; n "3.0"; s "2021-06-30"];
        [s "15-1251"; s "Achievement"; s "Importance"; n "4.5"; s "2023-01-01"];
        [s "15-1251"; s "Achievement"; s "Importance"; n "2.2"; s "pending"]].

End Sample.

(** A string is trimmed when neither end is white space. *)
Definition trimmed (s : str) : Prop :=
  lstrip s = s /\ lstrip (rev s) = rev s.

(** The output of the two reformatting branches, from the digit string. *)
Definition layout7 (ds : str) : str :=
  (slice 0 2 ds ++ py "-" ++ slice 2 7 ds)
  ++ match skipn 7 ds with [] => [] | _ :: _ => py "-" ++ skipn 7 ds end.

Definition layout56 (ds : str) : str := firstn 2 ds ++ py "-" ++ skipn 2 ds.

(** * Properties *)

(** ** Basic facts on strings, cells and labels *)

Lemma str_eqb_eq a b : str_eqb a b = true <-> a = b.
Proof.
  unfold str_eqb. destruct (list_eq_dec ascii_dec a b); split; congruence.
Qed.

Lemma str_eqb_refl a : str_eqb a a = true.
Proof. now apply str_eqb_eq. Qed.

Lemma str_eqb_neq a b : str_eqb a b = false <-> a <> b.
Proof.
  unfold str_eqb. destruct (list_eq_dec ascii_dec a b); split; congruence.
Qed.

Lemma cell_eqb_eq a b : cell_eqb a b = true <-> a = b.
Proof.
  destruct a, b; simpl; try (split; congruence);
    rewrite str_eqb_eq; split; congruence.
Qed.

Lemma cell_eqb_refl a : cell_eqb a a = true.
Proof. now apply cell_eqb_eq. Qed.

Lemma mem_In x l : mem x l = true <-> In x l.
Proof.
  unfold mem. rewrite existsb_exists. split.
  - intros [y [Hy E]]. apply str_eqb_eq in E. now subst.
  - intros H. exists x. split; [assumption|apply str_eqb_refl].
Qed.

Lemma mem_not_In x l : mem x l = false <-> ~ In x l.
Proof.
  rewrite <- mem_In. destruct (mem x l); split; congruence.
Qed.

Lemma positions_from_notin k label cols :
  ~ In label cols -> positions_from k label cols = [].
Proof.
  revert k. induction cols as [|c t IH]; intros k H; simpl; [reflexivity|].
  destruct (str_eqb c label) eqn:E.
  - apply str_eqb_eq in E. subst. exfalso. apply H. now left.
  - simpl. apply IH. intros Hin. apply H. now right.
Qed.

Lemma positions_from_ge k label cols i :
  In i (positions_from k label cols) -> k <= i < k + length cols.
Proof.
  revert k. induction cols as [|c t IH]; intros k H; simpl in *; [tauto|].
  apply in_app_or in H. destruct H as [H|H].
  - destruct (str_eqb c label); simpl in H; [|tauto].
    destruct H as [<-|[]]. lia.
  - apply IH in H. lia.
Qed.

(** A label that occurs once has one position, and the label is there. *)
Lemma positions_from_unique k label cols :
  NoDup cols -> In label cols ->
  exists i, i < length cols /\ nth i cols [] = label
            /\ positions_from k label cols = [k + i].
Proof.
  revert k. induction cols as [|c t IH]; intros k ND Hin; [destruct Hin|].
  inversion ND as [|? ? Hc NDt]; subst. simpl.
  destruct (str_eqb c label) eqn:E.
  - apply str_eqb_eq in E. subst c. exists 0. simpl.
    rewrite (positions_from_notin _ _ _ Hc), Nat.add_0_r.
    repeat split. lia.
  - destruct Hin as [Hin|Hin]; [apply str_eqb_neq in E; congruence|].
    destruct (IH (S k) NDt Hin) as [i [Hi [Hn Hp]]].
    exists (S i). simpl. rewrite Hp.
    split; [lia|]. split; [assumption|]. f_equal. lia.
Qed.

Lemma positions_unique label cols :
  NoDup cols -> In label cols ->
  exists i, i < length cols /\ nth i cols [] = label
            /\ positions label cols = [i].
Proof.
  intros ND Hin.
  destruct (positions_from_unique 0 label cols ND Hin) as [i H].
  exists i. exact H.
Qed.

Lemma position_get cols label i r :
  position cols label = Ok i -> get cols r label = cell_at i r.
Proof.
  unfold position, get.
  destruct (positions label cols) as [|j [|? ?]]; congruence.
Qed.

Lemma position_lt cols label i :
  position cols label = Ok i -> i < length cols.
Proof.
  unfold position. intros H.
  assert (Hin : In i (positions label cols)).
  { destruct (positions label cols) as [|j [|? ?]]; try discriminate.
    injection H as ->. now left. }
  apply positions_from_ge in Hin. lia.
Qed.

Lemma positions_from_nth k label (cols : list str) i :
  In i (positions_from k label cols) -> nth (i - k) cols [] = label.
Proof.
  revert k. induction cols as [|c t IH]; intros k H; simpl in H; [tauto|].
  apply in_app_or in H. destruct H as [H|H].
  - destruct (str_eqb c label) eqn:E; simpl in H; [|tauto].
    destruct H as [<-|[]]. rewrite Nat.sub_diag. now apply str_eqb_eq.
  - pose proof (positions_from_ge _ _ _ _ H) as Hge.
    replace (i - k) with (S (i - S k)) by lia. now apply IH.
Qed.

Lemma positions_nth label (cols : list str) i :
  In i (positions label cols) -> nth i cols [] = label.
Proof.
  intros H. apply positions_from_nth in H. now rewrite Nat.sub_0_r in H.
Qed.

Lemma insert_sorted_perm {A} (leb : A -> A -> bool) x l :
  Permutation (insert_sorted leb x l) (x :: l).
Proof.
  induction l as [|y t IH]; simpl; [reflexivity|].
  destruct (leb x y); [reflexivity|].
  rewrite IH. apply perm_swap.
Qed.

Lemma stable_sort_perm {A} (leb : A -> A -> bool) l :
  Permutation (stable_sort leb l) l.
Proof.
  induction l as [|x t IH]; simpl; [reflexivity|].
  rewrite insert_sorted_perm. now constructor.
Qed.

Lemma distinct_NoDup l : distinct l = true -> NoDup l.
Proof.
  induction l as [|x t IH]; simpl; intros H; constructor;
    apply andb_true_iff in H; destruct H as [Hx Ht].
  - apply mem_not_In. now destruct (mem x t).
  - now apply IH.
Qed.

Lemma find_all_false {A} (f : A -> bool) l :
  (forall x, In x l -> f x = false) -> find f l = None.
Proof.
  induction l as [|x t IH]; intros H; simpl; [reflexivity|].
  rewrite (H x (or_introl eq_refl)). apply IH. intros y Hy. apply H. now right.
Qed.

Lemma positions_from_app k label a b :
  positions_from k label (a ++ b)
  = positions_from k label a ++ positions_from (k + length a) label b.
Proof.
  revert k. induction a as [|c t IH]; intros k; simpl.
  - now rewrite Nat.add_0_r.
  - rewrite IH, <- app_assoc. do 3 f_equal. lia.
Qed.

Lemma nth_all_null i l :
  Forall (fun c => c = CNull) l -> cell_at i l = CNull.
Proof.
  unfold cell_at. intros F. revert i.
  induction F as [|x t Hx _ IH]; intros [|i]; simpl; auto.
Qed.

(** Under a label that the left part does not have, a row that ends in
    nulls holds a null. *)
Lemma get_right_part_null cols rlabels l nulls v :
  length l = length cols ->
  Forall (fun c => c = CNull) nulls ->
  ~ In v cols ->
  get (cols ++ rlabels) (l ++ nulls) v = CNull.
Proof.
  intros Hlen Hnull Hv. unfold get, positions.
  rewrite positions_from_app, (positions_from_notin _ _ _ Hv). simpl.
  destruct (positions_from (length cols) v rlabels) as [|i t] eqn:E;
    [reflexivity|].
  assert (Hi : length cols <= i).
  { apply (positions_from_ge (length cols) v rlabels i). rewrite E. now left. }
  unfold cell_at. rewrite app_nth2 by lia. now apply nth_all_null.
Qed.

(** Selecting labels that each name one column. *)
Lemma select_distinct labels df :
  NoDup (columns df) ->
  (forall l, In l labels -> In l (columns df)) ->
  select labels df
  = Ok (mkDF labels
             (map (fun r => map (get (columns df) r) labels) (rows df))).
Proof.
  intros ND Hin. unfold select.
  replace (forallb (fun l => mem l (columns df)) labels) with true.
  2:{ symmetry. apply forallb_forall. intros l Hl. now apply mem_In, Hin. }
  assert (H : map (fun i => nth i (columns df) [])
                  (flat_map (fun l => positions l (columns df)) labels) = labels
              /\ forall r,
                   map (fun i => cell_at i r)
                       (flat_map (fun l => positions l (columns df)) labels)
                   = map (get (columns df) r) labels).
  { induction labels as [|l t IH]; [split; reflexivity|].
    destruct IH as [IH1 IH2]; [intros x Hx; apply Hin; now right|].
    destruct (positions_unique l (columns df) ND (Hin l (or_introl eq_refl)))
      as [i [_ [Hn Hp]]].
    split.
    - cbn [flat_map]. rewrite Hp. cbn [app map].
      f_equal; [exact Hn|exact IH1].
    - intros r. cbn [flat_map]. rewrite Hp. cbn [app map]. rewrite IH2.
      f_equal. unfold get. now rewrite Hp. }
  destruct H as [H1 H2]. rewrite H1. do 2 f_equal.
  apply map_ext. exact H2.
Qed.

(** ** SOC normalisation *)

Section NormSoc.

Lemma digit_not_space c : is_digit c = true -> isspace c = false.
Proof.
  destruct c as [[|] [|] [|] [|] [|] [|] [|] [|]]; vm_compute; congruence.
Qed.

Lemma hyphen_not_digit : filter is_digit (py "-") = [].
Proof. reflexivity. Qed.

Lemma filter_digit_lstrip s : filter is_digit (lstrip s) = filter is_digit s.
Proof.
  induction s as [|c t IH]; simpl; [reflexivity|].
  destruct (isspace c) eqn:Hs; [|reflexivity].
  destruct (is_digit c) eqn:Hd; [|exact IH].
  apply digit_not_space in Hd. congruence.
Qed.

Lemma filter_digit_strip s : filter is_digit (strip s) = filter is_digit s.
Proof.
  unfold strip, rstrip.
  rewrite filter_rev, filter_digit_lstrip, filter_rev, rev_involutive.
  apply filter_digit_lstrip.
Qed.

Lemma lstrip_idem s : lstrip (lstrip s) = lstrip s.
Proof.
  induction s as [|c t IH]; simpl; [reflexivity|].
  destruct (isspace c) eqn:Hs; [exact IH|]. simpl. now rewrite Hs.
Qed.

Lemma lstrip_snoc s c :
  isspace c = false -> lstrip (s ++ [c]) = lstrip s ++ [c].
Proof.
  intros Hc. induction s as [|d t IH]; simpl.
  - now rewrite Hc.
  - destruct (isspace d); [exact IH|reflexivity].
Qed.

Lemma trimmed_strip s : trimmed s -> strip s = s.
Proof.
  intros [Hl Hr]. unfold strip, rstrip.
  now rewrite Hl, Hr, rev_involutive.
Qed.

Lemma strip_trimmed s : trimmed (strip s).
Proof.
  unfold trimmed, strip, rstrip. split.
  - remember (lstrip s) as t eqn:Et.
    assert (Ht : lstrip t = t) by (subst t; apply lstrip_idem).
    clear Et. destruct t as [|c t']; [reflexivity|].
    simpl in Ht. destruct (isspace c) eqn:Hc.
    + exfalso.
      assert (Hlen : length (lstrip t') <= length t').
      { clear. induction t' as [|d u IH]; simpl; [lia|].
        destruct (isspace d); simpl; lia. }
      rewrite Ht in Hlen. simpl in Hlen. lia.
    + simpl rev. rewrite (lstrip_snoc _ _ Hc), rev_app_distr. simpl.
      now rewrite Hc.
  - rewrite rev_involutive. apply lstrip_idem.
Qed.

Lemma strip_idem s : strip (strip s) = strip s.
Proof. apply trimmed_strip, strip_trimmed. Qed.

Lemma lstrip_digit_head d t : is_digit d = true -> lstrip (d :: t) = d :: t.
Proof. intros Hd. simpl. now rewrite (digit_not_space _ Hd). Qed.

Lemma Forall_digit_filter s : Forall (fun c => is_digit c = true) (filter is_digit s).
Proof.
  induction s as [|c t IH]; simpl; [constructor|].
  destruct (is_digit c) eqn:Hc; [constructor|]; assumption.
Qed.

Lemma filter_digit_all s :
  Forall (fun c => is_digit c = true) s -> filter is_digit s = s.
Proof.
  induction 1 as [|c t Hc _ IH]; simpl; [reflexivity|].
  now rewrite Hc, IH.
Qed.

Lemma norm_soc_ge7 c :
  7 <= length (filter is_digit (soc_text c)) ->
  norm_soc c = layout7 (filter is_digit (soc_text c)).
Proof.
  intros H. unfold norm_soc.
  pose proof (filter_digit_strip (soc_text c)) as E.
  destruct (strip (soc_text c)) as [|x s'] eqn:Es.
  - simpl in E. rewrite <- E in H. simpl in H. lia.
  - cbv zeta. rewrite E.
    destruct (Nat.leb_spec 7 (length (filter is_digit (soc_text c)))); [|lia].
    reflexivity.
Qed.

Lemma norm_soc_56 c :
  length (filter is_digit (soc_text c)) = 5
  \/ length (filter is_digit (soc_text c)) = 6 ->
  norm_soc c = layout56 (filter is_digit (soc_text c)).
Proof.
  intros H. unfold norm_soc.
  pose proof (filter_digit_strip (soc_text c)) as E.
  destruct (strip (soc_text c)) as [|x s'] eqn:Es.
  - simpl in E. rewrite <- E in H. simpl in H. lia.
  - cbv zeta. rewrite E.
    destruct (Nat.leb_spec 7 (length (filter is_digit (soc_text c)))); [lia|].
    destruct H as [H|H]; rewrite H; reflexivity.
Qed.

Lemma norm_soc_other c :
  length (filter is_digit (soc_text c)) < 5 ->
  norm_soc c = strip (soc_text c).
Proof.
  intros H. unfold norm_soc.
  pose proof (filter_digit_strip (soc_text c)) as E.
  destruct (strip (soc_text c)) as [|x s'] eqn:Es; [reflexivity|].
  cbv zeta. rewrite E.
  destruct (Nat.leb_spec 7 (length (filter is_digit (soc_text c)))); [lia|].
  destruct (Nat.eqb_spec (length (filter is_digit (soc_text c))) 5); [lia|].
  destruct (Nat.eqb_spec (length (filter is_digit (soc_text c))) 6); [lia|].
  reflexivity.
Qed.

Lemma Forall_firstn {A} (P : A -> Prop) n l :
  Forall P l -> Forall P (firstn n l).
Proof.
  intros F. revert n. induction F as [|x l Hx _ IH]; intros [|n]; simpl;
    constructor; auto.
Qed.

Lemma Forall_skipn {A} (P : A -> Prop) n l :
  Forall P l -> Forall P (skipn n l).
Proof.
  intros F. revert n. induction F as [|x l Hx F IH]; intros [|n]; simpl;
    try constructor; auto.
Qed.

Lemma all_digits c :
  Forall (fun x => is_digit x = true) (filter is_digit (soc_text c)).
Proof. apply Forall_digit_filter. Qed.

Lemma digits_layout7 ds :
  Forall (fun c => is_digit c = true) ds -> filter is_digit (layout7 ds) = ds.
Proof.
  intros F. unfold layout7, slice.
  assert (Hrest : filter is_digit
            match skipn 7 ds with [] => [] | _ :: _ => py "-" ++ skipn 7 ds end
          = skipn 7 ds).
  { destruct (skipn 7 ds) as [|x r] eqn:E; [reflexivity|].
    rewrite filter_app, hyphen_not_digit, app_nil_l.
    apply filter_digit_all. rewrite <- E. now apply Forall_skipn. }
  rewrite !filter_app, Hrest, hyphen_not_digit.
  rewrite !filter_digit_all
    by (repeat first [apply Forall_firstn | apply Forall_skipn]; exact F).
  rewrite app_nil_l. change (skipn 0 ds) with ds. simpl Nat.sub.
  replace (skipn 7 ds) with (skipn 5 (skipn 2 ds)) by now rewrite skipn_skipn.
  now rewrite <- app_assoc, !firstn_skipn.
Qed.

Lemma digits_layout56 ds :
  Forall (fun c => is_digit c = true) ds -> filter is_digit (layout56 ds) = ds.
Proof.
  intros F. unfold layout56.
  rewrite !filter_app, hyphen_not_digit.
  rewrite !filter_digit_all
    by (first [apply Forall_firstn | apply Forall_skipn]; exact F).
  apply firstn_skipn.
Qed.

(** C1: with at least seven digits in the input, [norm_soc] returns the
    first two digits, a hyphen, the next five digits and, when digits
    remain, a second hyphen and the remaining digits; with exactly five or
    six digits it returns the first two digits, a hyphen and the remaining
    digits. *)
Theorem norm_soc_layout (c : cell) :
  let ds := filter is_digit (soc_text c) in
  (7 <= length ds ->
   exists a b rest,
     ds = a ++ b ++ rest /\ length a = 2 /\ length b = 5 /\
     norm_soc c
     = a ++ py "-" ++ b
         ++ match rest with [] => [] | _ :: _ => py "-" ++ rest end)
  /\ (length ds = 5 \/ length ds = 6 ->
      exists a rest,
        ds = a ++ rest /\ length a = 2 /\ norm_soc c = a ++ py "-" ++ rest).
Proof.
  cbv zeta. split; intros H.
  - exists (firstn 2 (filter is_digit (soc_text c))),
           (firstn 5 (skipn 2 (filter is_digit (soc_text c)))),
           (skipn 7 (filter is_digit (soc_text c))).
    repeat split.
    + replace (skipn 7 (filter is_digit (soc_text c)))
        with (skipn 5 (skipn 2 (filter is_digit (soc_text c))))
        by now rewrite skipn_skipn.
      now rewrite !firstn_skipn.
    + rewrite length_firstn. lia.
    + rewrite length_firstn, length_skipn. lia.
    + rewrite (norm_soc_ge7 _ H). unfold layout7, slice. simpl skipn at 1.
      simpl Nat.sub. now rewrite <- !app_assoc.
  - exists (firstn 2 (filter is_digit (soc_text c))),
           (skipn 2 (filter is_digit (soc_text c))).
    repeat split.
    + now rewrite firstn_skipn.
    + rewrite length_firstn. lia.
    + now rewrite (norm_soc_56 _ H).
Qed.

Lemma norm_soc_layout_witness :
  (exists a b rest,
     filter is_digit (py " 15.1251.00 ") = a ++ b ++ rest /\
     length a = 2 /\ length b = 5 /\
     norm_soc (CStr (py " 15.1251.00 "))
     = a ++ py "-" ++ b
         ++ match rest with [] => [] | _ :: _ => py "-" ++ rest end)
  /\ (exists a rest,
        filter is_digit (py "131081") = a ++ rest /\ length a = 2 /\
        norm_soc (CStr (py "131081")) = a ++ py "-" ++ rest).
Proof.
  split.
  - apply (proj1 (norm_soc_layout (CStr (py " 15.1251.00 ")))).
    vm_compute. lia.
  - apply (proj2 (norm_soc_layout (CStr (py "131081")))).
    right. reflexivity.
Defined.

(** C2: [norm_soc] is idempotent on every input, and a canonical code made
    of 7, 5 or 6 digits with the hyphen after the second digit is returned
    unchanged. *)
Theorem norm_soc_idempotent :
  (forall c : cell, norm_soc (CStr (norm_soc c)) = norm_soc c)
  /\ (forall ds : str,
        Forall (fun x => is_digit x = true) ds ->
        length ds = 7 \/ length ds = 5 \/ length ds = 6 ->
        norm_soc (CStr (firstn 2 ds ++ py "-" ++ skipn 2 ds))
        = firstn 2 ds ++ py "-" ++ skipn 2 ds).
Proof.
  split.
  - intros c. pose proof (all_digits c) as F.
    destruct (le_lt_dec 7 (length (filter is_digit (soc_text c)))) as [H7|H7].
    + rewrite (norm_soc_ge7 c H7).
      rewrite norm_soc_ge7; simpl soc_text; rewrite (digits_layout7 _ F);
        [reflexivity|exact H7].
    + destruct (le_lt_dec 5 (length (filter is_digit (soc_text c)))) as [H5|H5].
      * assert (H : length (filter is_digit (soc_text c)) = 5
                    \/ length (filter is_digit (soc_text c)) = 6) by lia.
        rewrite (norm_soc_56 c H).
        rewrite norm_soc_56; simpl soc_text; rewrite (digits_layout56 _ F);
          [reflexivity|exact H].
      * rewrite (norm_soc_other c H5).
        rewrite norm_soc_other; simpl soc_text.
        -- apply strip_idem.
        -- now rewrite filter_digit_strip.
  - intros ds F H.
    assert (E56 : forall l, Forall (fun x => is_digit x = true) l ->
                  length l = 5 \/ length l = 6 ->
                  norm_soc (CStr (layout56 l)) = layout56 l).
    { intros l Fl Hl. rewrite norm_soc_56; simpl soc_text;
        rewrite (digits_layout56 _ Fl); [reflexivity|exact Hl]. }
    destruct H as [H|H]; [|now apply E56].
    change (firstn 2 ds ++ py "-" ++ skipn 2 ds) with (layout56 ds).
    assert (E : layout56 ds = layout7 ds).
    { unfold layout56, layout7, slice. simpl skipn at 2. simpl Nat.sub.
      rewrite (firstn_all2 (n := 5)) by (rewrite length_skipn; lia).
      rewrite (skipn_all2 (n := 7)) by lia.
      now rewrite app_nil_r. }
    rewrite E. rewrite norm_soc_ge7; simpl soc_text;
      rewrite (digits_layout7 _ F); [reflexivity|lia].
Qed.

Lemma norm_soc_idempotent_witness :
  norm_soc (CStr (py "15-1251")) = py "15-1251".
Proof.
  apply (proj2 norm_soc_idempotent (py "151251")).
  - repeat constructor.
  - right. right. reflexivity.
Defined.

(** C10: with fewer than five digits [norm_soc] returns the trimmed input
    text as it is; a null, empty or blank input gives the empty string.
    [norm_soc] is a total function: no input raises. *)
Theorem norm_soc_passthrough :
  (forall c : cell,
     length (filter is_digit (soc_text c)) < 5 ->
     norm_soc c = strip (soc_text c))
  /\ norm_soc CNull = []
  /\ norm_soc (CStr []) = []
  /\ (forall s : str, strip s = [] -> norm_soc (CStr s) = []).
Proof.
  split; [exact norm_soc_other|].
  repeat split.
  intros s H. unfold norm_soc. simpl soc_text. now rewrite H.
Qed.

Lemma norm_soc_passthrough_witness :
  norm_soc (CStr (py "  N/A 12 ")) = py "N/A 12"
  /\ norm_soc (CStr (py "   ")) = [].
Proof.
  split.
  - apply (proj1 norm_soc_passthrough (CStr (py "  N/A 12 "))).
    vm_compute. lia.
  - apply (proj2 (proj2 (proj2 norm_soc_passthrough)) (py "   ")).
    reflexivity.
Defined.

End NormSoc.

Example norm_soc_docstring : norm_soc (CStr (py "131081")) = py "13-1081".
Proof. reflexivity. Qed.

Example norm_soc_detail :
  norm_soc (CStr (py " 15.1251.00 ")) = py "15-12510-0".
Proof. reflexivity. Qed.

Example norm_soc_int : norm_soc (CObj (py "1234567")) = py "12-34567".
Proof. reflexivity. Qed.

(** ** The tolerant resolver of the Work-Values columns *)

Section ValueColumns.

Lemma dict_get_set_other k k' v d :
  k' <> k -> dict_get k' (dict_set k v d) = dict_get k' d.
Proof.
  intros Hk. induction d as [|[x y] t IH]; simpl.
  - destruct (str_eqb k k') eqn:E; [apply str_eqb_eq in E; congruence|].
    reflexivity.
  - destruct (str_eqb x k) eqn:E; simpl.
    + apply str_eqb_eq in E. subst x.
      destruct (str_eqb k k') eqn:E'; [apply str_eqb_eq in E'; congruence|].
      reflexivity.
    + destruct (str_eqb x k'); [reflexivity|exact IH].
Qed.

Lemma dict_set_fresh k v d :
  ~ In k (map fst d) -> dict_set k v d = d ++ [(k, v)].
Proof.
  induction d as [|[x y] t IH]; simpl; intros H; [reflexivity|].
  destruct (str_eqb x k) eqn:E.
  - apply str_eqb_eq in E. tauto.
  - f_equal. apply IH. tauto.
Qed.

Lemma canon_headers_from acc cols :
  NoDup (map fst acc ++ map _canon cols) ->
  fold_left (fun d c => dict_set (_canon c) c d) cols acc
  = acc ++ map (fun h => (_canon h, h)) cols.
Proof.
  revert acc. induction cols as [|c t IH]; intros acc ND; simpl.
  - now rewrite app_nil_r.
  - simpl in ND. rewrite dict_set_fresh.
    + rewrite IH.
      * now rewrite <- app_assoc.
      * rewrite map_app. simpl. rewrite <- app_assoc. exact ND.
    + apply NoDup_remove_2 in ND. intros Hin. apply ND.
      apply in_or_app. now left.
Qed.

(** With pairwise distinct canonical forms the dict lists the headers in
    column order. *)
Lemma canon_headers_distinct cols :
  NoDup (map _canon cols) ->
  canon_headers cols = map (fun h => (_canon h, h)) cols.
Proof. intros ND. unfold canon_headers. now rewrite canon_headers_from. Qed.

Lemma dict_get_headers a cols :
  dict_get a (map (fun h => (_canon h, h)) cols)
  = find (fun h => str_eqb (_canon h) a) cols.
Proof.
  induction cols as [|c t IH]; simpl; [reflexivity|].
  destruct (str_eqb (_canon c) a); [reflexivity|exact IH].
Qed.

Lemma contains_headers a cols :
  first_hit (fun kv : str * str =>
               if contains a (fst kv) then Some (snd kv) else None)
            (map (fun h => (_canon h, h)) cols)
  = find (fun h => contains a (_canon h)) cols.
Proof.
  induction cols as [|c t IH]; simpl; [reflexivity|].
  destruct (contains a (_canon c)); [reflexivity|exact IH].
Qed.

Lemma first_hit_ext {A B} (f g : A -> option B) l :
  (forall x, f x = g x) -> first_hit f l = first_hit g l.
Proof.
  intros E. induction l as [|x t IH]; simpl; [reflexivity|].
  now rewrite E, IH.
Qed.

Lemma first_hit_some {A B} (f : A -> option B) l x :
  In x l -> f x <> None ->
  exists x' y, In x' l /\ f x' = Some y /\ first_hit f l = Some y.
Proof.
  induction l as [|z t IH]; intros Hin Hx; [destruct Hin|]. simpl.
  destruct (f z) as [y|] eqn:E.
  - exists z, y. repeat split; [now left|assumption].
  - destruct Hin as [->|Hin]; [congruence|].
    destruct (IH Hin Hx) as [x' [y [H1 [H2 H3]]]].
    exists x', y. repeat split; [now right|assumption..].
Qed.

(** C6, as the code has it, for headers whose canonical forms are pairwise
    distinct: the exact stage runs over all aliases before any containment
    match is tried; inside a stage the aliases are tried in their order
    and the first alias that matches decides; for that alias the header
    at the earliest position in column order is returned. *)
Theorem find_value_col_alias_order (headers aliases : list str) :
  NoDup (map _canon headers) ->
  _find_value_col (canon_headers headers) aliases
  = resolve_in_alias_order headers aliases
  /\ (forall h, In h headers -> In (_canon h) aliases ->
      exists h', _find_value_col (canon_headers headers) aliases = Some h'
                 /\ In h' headers /\ In (_canon h') aliases).
Proof.
  intros ND.
  assert (E : _find_value_col (canon_headers headers) aliases
              = resolve_in_alias_order headers aliases).
  { unfold _find_value_col, resolve_in_alias_order.
    rewrite (canon_headers_distinct _ ND).
    rewrite (first_hit_ext _ _ aliases (fun a => dict_get_headers a headers)).
    rewrite (first_hit_ext _ _ aliases (fun a => contains_headers a headers)).
    reflexivity. }
  split; [exact E|].
  intros h Hh Ha. rewrite E. unfold resolve_in_alias_order.
  destruct (first_hit_some
              (fun a => find (fun h => str_eqb (_canon h) a) headers)
              aliases (_canon h) Ha) as [a [h' [Hin [Hf Hhit]]]].
  - destruct (find (fun h0 => str_eqb (_canon h0) (_canon h)) headers) eqn:F;
      [discriminate|].
    apply (find_none _ _ F) in Hh. now rewrite str_eqb_refl in Hh.
  - rewrite Hhit. exists h'. split; [reflexivity|].
    apply find_some in Hf. destruct Hf as [Hh' Heq].
    apply str_eqb_eq in Heq. subst a. now split.
Qed.

Lemma find_value_col_alias_order_witness :
  _find_value_col
    (canon_headers (map py ["Work Condition Score"; "Working Conditions (Score)"]%string))
    (aliases_of (py "Working Conditions"))
  = Some (py "Working Conditions (Score)").
Proof.
  rewrite (proj1 (find_value_col_alias_order
                    (map py ["Work Condition Score"; "Working Conditions (Score)"]%string)
                    (aliases_of (py "Working Conditions"))
                    (distinct_NoDup
                       (map _canon
                            (map py ["Work Condition Score";
                                     "Working Conditions (Score)"]%string))
                       eq_refl))).
  reflexivity.
Defined.

(** C6, as the specification words it, fails: with the headers
    Relationships, Relationship the resolver returns the second header,
    the first alias being "relationship", although the first header
    equals an alias too. *)
Lemma resolver_follows_header_order_counterexample :
  ~ resolver_follows_header_order.
Proof.
  intros H.
  specialize (H (map py ["Relationships"; "Relationship"]%string)
                (aliases_of (py "Relationships"))).
  vm_compute in H. discriminate.
Qed.

Example find_value_col_exact_first :
  _find_value_col
    (canon_headers (map py ["Support (Score)"; "SUPPORT"]%string))
    (aliases_of (py "Support"))
  = Some (py "SUPPORT").
Proof. reflexivity. Qed.

End ValueColumns.

(** ** The scale filter of the long-shape loader *)

Section ScaleFilter.

Lemma startswith_iff p s :
  startswith p s = true <-> exists post, s = p ++ post.
Proof.
  revert s. induction p as [|a p IH]; intros s; simpl.
  - split; [intros _; now exists s|reflexivity].
  - destruct s as [|b s]; [split; [discriminate|intros [? ?]; discriminate]|].
    rewrite andb_true_iff, Ascii.eqb_eq, IH. split.
    + intros [-> [post ->]]. now exists post.
    + intros [post E]. injection E as -> ->. split; [reflexivity|now exists post].
Qed.

Lemma contains_iff sub s :
  contains sub s = true <-> exists pre post, s = pre ++ sub ++ post.
Proof.
  induction s as [|c t IH]; simpl.
  - rewrite orb_false_r, startswith_iff. split.
    + intros [post E]. now exists [], post.
    + intros [pre [post E]]. destruct pre; [now exists post|discriminate].
  - rewrite orb_true_iff, startswith_iff, IH. split.
    + intros [[post E]|[pre [post E]]].
      * now exists [], post.
      * exists (c :: pre), post. simpl. now rewrite E.
    + intros [pre [post E]]. destruct pre as [|x pre]; simpl in E.
      * left. now exists post.
      * right. injection E as -> ->. now exists pre, post.
Qed.

(** The mask of line 199 holds on the cells whose text contains
    "importance" in any mix of cases. *)
Lemma is_importance_iff c : is_importance c = true <-> mentions_importance c.
Proof.
  unfold is_importance, mentions_importance, lower.
  rewrite contains_iff. split.
  - intros [pre' [post' E]].
    apply map_eq_app in E. destruct E as [pre [rest [E1 [_ E2]]]].
    apply map_eq_app in E2. destruct E2 as [w [post [E2 [E3 _]]]].
    exists pre, w, post. subst rest. now split.
  - intros [pre [w [post [E L]]]].
    exists (map lower_char pre), (map lower_char post).
    now rewrite E, !map_app, L.
Qed.

(** C7: with a Scale Name column, when some row's scale name contains
    "importance" in any mix of cases, exactly those rows are kept, in
    their order; when none does, all rows are kept unchanged. *)
Theorem scale_step_prefers_importance (labels : list str) (df : list LongRow) :
  In (py "Scale Name") labels ->
  ((exists r, In r df /\ mentions_importance (scale_name r)) ->
   scale_step labels df = filter (fun r => is_importance (scale_name r)) df
   /\ forall r, In r (scale_step labels df)
                <-> In r df /\ mentions_importance (scale_name r))
  /\ ((forall r, In r df -> ~ mentions_importance (scale_name r)) ->
      scale_step labels df = df).
Proof.
  intros Hl. apply mem_In in Hl. unfold scale_step, prefer_importance.
  rewrite Hl. split.
  - intros [r [Hr Hm]].
    replace (existsb (fun r => is_importance (scale_name r)) df) with true.
    2:{ symmetry. apply existsb_exists. exists r.
        split; [assumption|now apply is_importance_iff]. }
    split; [reflexivity|].
    intros x. now rewrite filter_In, is_importance_iff.
  - intros Hno.
    replace (existsb (fun r => is_importance (scale_name r)) df) with false;
      [reflexivity|].
    symmetry. apply not_true_is_false. intros H.
    apply existsb_exists in H. destruct H as [r [Hr Hm]].
    apply is_importance_iff in Hm. exact (Hno r Hr Hm).
Qed.

Lemma scale_step_prefers_importance_witness :
  scale_step Sample.long_labels [Sample.newer; Sample.level; Sample.older]
  = [Sample.newer; Sample.older].
Proof.
  destruct (scale_step_prefers_importance
              Sample.long_labels [Sample.newer; Sample.level; Sample.older])
    as [H _].
  - apply mem_In. reflexivity.
  - destruct H as [E _].
    + exists Sample.newer. split; [now left|].
      exists [], (py "Importance"), []. split; reflexivity.
    + rewrite E. reflexivity.
Defined.

End ScaleFilter.

(** ** The date step of the long-shape loader *)

(** C5: in a group where one date does not parse, the code keeps the row
    with the unparsed date, not the row with the latest date: NaT sorts
    after every date and the last row of the sorted group is kept.  Here
    the rows dated 2021-06-30 (3.0) and 2023-01-01 (4.5) lose to the row
    dated "pending" (2.2), in the date step and in the loaded table. *)
Theorem keep_latest_unparsed_date_wins (upcast : cell -> cell) :
  keep_latest (map iso_day) [Sample.older; Sample.newer; Sample.undated]
  = [Sample.undated]
  /\ load_onet_values (map iso_day) upcast Sample.raw_long
     = Ok (mkDF (py "SOC Code" :: VALUE_COLS_CANON)
                [[Sample.s "15-1251"; Sample.n "2.2";
                  CNull; CNull; CNull; CNull; CNull]]).
Proof. split; vm_compute; reflexivity. Qed.

Example keep_latest_dated :
  keep_latest (map iso_day) [Sample.newer; Sample.older] = [Sample.newer].
Proof. reflexivity. Qed.

Section DateOrder.

Lemma code_inj x y : code x = code y -> x = y.
Proof.
  unfold code. intros H. apply (f_equal ascii_of_nat) in H.
  now rewrite !ascii_nat_embedding in H.
Qed.

Lemma str_ltb_irrefl a : str_ltb a a = false.
Proof.
  induction a as [|x a IH]; simpl; [reflexivity|].
  now rewrite Nat.ltb_irrefl, Nat.eqb_refl, IH.
Qed.

Lemma str_ltb_trans a b c :
  str_ltb a b = true -> str_ltb b c = true -> str_ltb a c = true.
Proof.
  revert b c. induction a as [|x a IH]; intros [|y b] [|z c]; simpl;
    try discriminate; try reflexivity.
  rewrite !orb_true_iff, !andb_true_iff, !Nat.ltb_lt, !Nat.eqb_eq.
  intros [H1|[H1 H1']] [H2|[H2 H2']].
  - left. lia.
  - left. lia.
  - left. lia.
  - right. split; [lia|]. eapply IH; eassumption.
Qed.

Lemma str_ltb_total a b :
  str_ltb a b = false -> a <> b -> str_ltb b a = true.
Proof.
  revert b. induction a as [|x a IH]; intros [|y b]; simpl;
    try discriminate; try reflexivity; [congruence|].
  intros H Hne.
  apply orb_false_iff in H. destruct H as [Hlt H].
  apply Nat.ltb_ge in Hlt. apply orb_true_iff.
  destruct (Nat.eq_dec (code x) (code y)) as [E|E].
  - right. rewrite E, Nat.eqb_refl in *. simpl in *.
    apply code_inj in E. subst y. apply IH; [assumption|congruence].
  - left. apply Nat.ltb_lt. lia.
Qed.

Lemma date_leb_refl d : date_leb d d = true.
Proof. destruct d; simpl; [apply Z.leb_refl|reflexivity]. Qed.

Lemma date_leb_trans a b c :
  date_leb a b = true -> date_leb b c = true -> date_leb a c = true.
Proof.
  destruct a, b, c; simpl; try discriminate; try reflexivity.
  rewrite !Z.leb_le. lia.
Qed.

Lemma date_leb_total a b : date_leb a b = false -> date_leb b a = true.
Proof.
  destruct a, b; simpl; try discriminate; try reflexivity.
  rewrite Z.leb_gt, Z.leb_le. lia.
Qed.

Lemma row_leb_iff a b :
  row_leb a b = true
  <-> str_ltb (soc_code (fst a)) (soc_code (fst b)) = true
      \/ (soc_code (fst a) = soc_code (fst b)
          /\ (str_ltb (target_value (fst a)) (target_value (fst b)) = true
              \/ (target_value (fst a) = target_value (fst b)
                  /\ date_leb (snd a) (snd b) = true))).
Proof.
  unfold row_leb. cbv zeta.
  repeat first [rewrite orb_true_iff | rewrite andb_true_iff
                | rewrite str_eqb_eq].
  tauto.
Qed.

Lemma row_leb_trans a b c :
  row_leb a b = true -> row_leb b c = true -> row_leb a c = true.
Proof.
  rewrite !row_leb_iff.
  intros [H1|[E1 [H1|[F1 H1]]]] [H2|[E2 [H2|[F2 H2]]]].
  - left. eapply str_ltb_trans; eassumption.
  - left. now rewrite <- E2.
  - left. now rewrite <- E2.
  - left. now rewrite E1.
  - right. split; [congruence|]. left. eapply str_ltb_trans; eassumption.
  - right. split; [congruence|]. left. now rewrite <- F2.
  - left. now rewrite E1.
  - right. split; [congruence|]. left. now rewrite F1.
  - right. split; [congruence|]. right. split; [congruence|].
    eapply date_leb_trans; eassumption.
Qed.

Lemma row_leb_total a b : row_leb a b = false -> row_leb b a = true.
Proof.
  intros H.
  assert (Hn : ~ (row_leb a b = true)) by congruence.
  rewrite row_leb_iff in Hn. apply row_leb_iff.
  destruct (str_ltb (soc_code (fst b)) (soc_code (fst a))) eqn:Es; [now left|].
  right.
  assert (E : soc_code (fst a) = soc_code (fst b)).
  { destruct (list_eq_dec ascii_dec (soc_code (fst a)) (soc_code (fst b)))
      as [E|E]; [assumption|].
    exfalso. apply Hn. left. apply str_ltb_total; [assumption|congruence]. }
  split; [congruence|].
  destruct (str_ltb (target_value (fst b)) (target_value (fst a))) eqn:Et;
    [now left|].
  right.
  assert (F : target_value (fst a) = target_value (fst b)).
  { destruct (list_eq_dec ascii_dec (target_value (fst a))
                          (target_value (fst b))) as [F|F]; [assumption|].
    exfalso. apply Hn. right. split; [assumption|]. left.
    apply str_ltb_total; [assumption|congruence]. }
  split; [congruence|].
  apply date_leb_total.
  destruct (date_leb (snd a) (snd b)) eqn:Ed; [|reflexivity].
  exfalso. apply Hn. right. split; [assumption|]. right. now split.
Qed.

(** Inside a group the order of the sort is the order of the dates. *)
Lemma row_leb_same_group a b :
  same_group (fst a) (fst b) = true ->
  row_leb a b = date_leb (snd a) (snd b).
Proof.
  unfold same_group, row_leb. cbv zeta. intros H.
  apply andb_true_iff in H. destruct H as [Hs Ht].
  pose proof Hs as Es. pose proof Ht as Et.
  apply str_eqb_eq in Es. apply str_eqb_eq in Et.
  rewrite Hs, Ht, Es, Et, !str_ltb_irrefl. reflexivity.
Qed.

Lemma same_group_refl a : same_group a a = true.
Proof. unfold same_group. now rewrite !str_eqb_refl. Qed.

Lemma same_group_trans a b c :
  same_group a b = true -> same_group b c = true -> same_group a c = true.
Proof.
  unfold same_group. rewrite !andb_true_iff, !str_eqb_eq.
  intros [-> ->] [-> ->]. now split.
Qed.

Lemma same_group_sym a b : same_group a b = true -> same_group b a = true.
Proof.
  unfold same_group. rewrite !andb_true_iff, !str_eqb_eq.
  intros [-> ->]. now split.
Qed.

Lemma stable_sort_sorted l :
  StronglySorted (fun a b => row_leb a b = true) (stable_sort row_leb l).
Proof.
  induction l as [|x t IH]; simpl; [constructor|].
  induction IH as [|y s Hs IHs Hy]; simpl; [repeat constructor|].
  destruct (row_leb x y) eqn:E.
  - constructor; [now constructor|]. constructor; [assumption|].
    rewrite Forall_forall in *. intros z Hz.
    eapply row_leb_trans; [exact E|now apply Hy].
  - constructor; [assumption|].
    apply (Permutation_Forall
             (Permutation_sym (insert_sorted_perm row_leb x s))).
    constructor; [now apply row_leb_total|assumption].
Qed.

Lemma last_such_none {A} (g : A -> bool) l :
  last_such g l = None <-> forall z, In z l -> g z = false.
Proof.
  induction l as [|y t IH]; simpl; [tauto|].
  destruct (last_such g t) as [z|] eqn:E.
  - split; [discriminate|]. intros H.
    assert (H' : forall z, In z t -> g z = false) by (intros; apply H; tauto).
    apply IH in H'. discriminate.
  - destruct (g y) eqn:Ey.
    + split; [discriminate|]. intros H.
      rewrite (H y (or_introl eq_refl)) in Ey. discriminate.
    + split; [|reflexivity]. intros _ z [<-|Hz]; [assumption|].
      now apply (proj1 IH eq_refl).
Qed.

Lemma last_such_In {A} (g : A -> bool) l z :
  last_such g l = Some z -> In z l /\ g z = true.
Proof.
  induction l as [|y t IH]; simpl; [discriminate|].
  destruct (last_such g t) as [w|].
  - intros [= <-]. destruct (IH eq_refl). tauto.
  - destruct (g y) eqn:E; [|discriminate]. intros [= <-]. tauto.
Qed.

Lemma last_such_insert_other g x s :
  g x = false ->
  last_such g (insert_sorted row_leb x s) = last_such g s.
Proof.
  intros Hx. induction s as [|y t IH]; simpl; [now rewrite Hx|].
  destruct (row_leb x y); simpl; [|now rewrite IH].
  destruct (last_such g t); [reflexivity|].
  destruct (g y); [reflexivity|now rewrite Hx].
Qed.

(** Inserting a row of the group into the sorted frame: it becomes the
    last of its group unless the group has a row that is not earlier. *)
Lemma last_such_insert_group x0 x s :
  StronglySorted (fun a b => row_leb a b = true) s ->
  same_group x0 (fst x) = true ->
  last_such (fun y => same_group x0 (fst y)) (insert_sorted row_leb x s)
  = match last_such (fun y => same_group x0 (fst y)) s with
    | None => Some x
    | Some b => if date_leb (snd x) (snd b) then Some b else Some x
    end.
Proof.
  intros Hs Hx. induction Hs as [|y t Ht IH Hy]; simpl; [now rewrite Hx|].
  destruct (row_leb x y) eqn:E.
  - cbn [last_such]. rewrite Hx.
    destruct (last_such (fun y => same_group x0 (fst y)) t) as [b|] eqn:Eb.
    + apply last_such_In in Eb. destruct Eb as [Hb Hgb].
      rewrite Forall_forall in Hy.
      assert (Hxb : row_leb x b = true)
        by (eapply row_leb_trans; [exact E|now apply Hy]).
      rewrite row_leb_same_group in Hxb
        by (eapply same_group_trans; [apply same_group_sym|]; eassumption).
      now rewrite Hxb.
    + destruct (same_group x0 (fst y)) eqn:Ey; [|reflexivity].
      rewrite row_leb_same_group in E
        by (eapply same_group_trans; [apply same_group_sym|]; eassumption).
      now rewrite E.
  - cbn [last_such]. rewrite IH.
    destruct (last_such (fun y => same_group x0 (fst y)) t) as [b|] eqn:Eb.
    + now destruct (date_leb (snd x) (snd b)).
    + destruct (same_group x0 (fst y)) eqn:Ey; [|reflexivity].
      rewrite row_leb_same_group in E
        by (eapply same_group_trans; [apply same_group_sym|]; eassumption).
      now rewrite E.
Qed.

(** After the sort the last row of a group is the latest row of the group
    in the frame as it was. *)
Lemma last_such_stable_sort x0 l :
  last_such (fun y => same_group x0 (fst y)) (stable_sort row_leb l)
  = latest_such (fun y => same_group x0 (fst y)) l.
Proof.
  induction l as [|x t IH]; simpl; [reflexivity|].
  destruct (same_group x0 (fst x)) eqn:Ex.
  - rewrite last_such_insert_group by (apply stable_sort_sorted || assumption).
    now rewrite IH.
  - rewrite last_such_insert_other by assumption. exact IH.
Qed.

Lemma group_tail_last l x :
  In x (group_tail l) ->
  last_such (fun y => same_group (fst x) (fst y)) l = Some x.
Proof.
  induction l as [|y t IH]; simpl; [tauto|].
  destruct (existsb (fun r' => same_group (fst y) (fst r')) t) eqn:E.
  - intros Hx. now rewrite (IH Hx).
  - intros [<-|Hx]; [|now rewrite (IH Hx)].
    replace (last_such (fun z => same_group (fst y) (fst z)) t) with
      (@None (LongRow * option Z)).
    + now rewrite same_group_refl.
    + symmetry. apply last_such_none. intros z Hz.
      destruct (same_group (fst y) (fst z)) eqn:Ez; [|reflexivity].
      rewrite <- E. symmetry. apply existsb_exists. now exists z.
Qed.

Lemma latest_such_none g l :
  latest_such g l = None -> forall z, In z l -> g z = false.
Proof.
  induction l as [|y t IH]; simpl; [tauto|].
  destruct (g y) eqn:E.
  - destruct (latest_such g t) as [b|]; [|discriminate].
    destruct (date_leb (snd y) (snd b)); discriminate.
  - intros H z [<-|Hz]; [assumption|now apply IH].
Qed.

Lemma latest_such_greatest g l b :
  latest_such g l = Some b ->
  g b = true
  /\ forall y, In y l -> g y = true -> date_leb (snd y) (snd b) = true.
Proof.
  revert b. induction l as [|x t IH]; intros b; simpl; [discriminate|].
  destruct (g x) eqn:Ex.
  - destruct (latest_such g t) as [b'|] eqn:Eb.
    + destruct (IH b' eq_refl) as [Hg Hmax].
      destruct (date_leb (snd x) (snd b')) eqn:Ed; intros [= <-].
      * split; [assumption|]. intros y [<-|Hy] Hgy; [assumption|].
        now apply Hmax.
      * split; [assumption|]. intros y [<-|Hy] Hgy; [apply date_leb_refl|].
        eapply date_leb_trans; [now apply Hmax|now apply date_leb_total].
    + intros [= <-]. split; [assumption|].
      intros y [<-|Hy] Hgy; [apply date_leb_refl|].
      rewrite (latest_such_none g t Eb y Hy) in Hgy. discriminate.
  - intros H. destruct (IH b H) as [Hg Hmax]. split; [assumption|].
    intros y [<-|Hy] Hgy; [congruence|now apply Hmax].
Qed.

Lemma latest_such_last g l b :
  latest_such g l = Some b ->
  exists l1 l2,
    l = l1 ++ b :: l2
    /\ forall y, In y l2 -> g y = true -> date_leb (snd b) (snd y) = false.
Proof.
  revert b. induction l as [|x t IH]; intros b; simpl; [discriminate|].
  destruct (g x) eqn:Ex.
  - destruct (latest_such g t) as [b'|] eqn:Eb.
    + destruct (date_leb (snd x) (snd b')) eqn:Ed; intros [= <-].
      * destruct (IH b' eq_refl) as [l1 [l2 [-> H]]].
        now exists (x :: l1), l2.
      * exists [], t. split; [reflexivity|]. intros y Hy Hgy.
        destruct (date_leb (snd x) (snd y)) eqn:Exy; [|reflexivity].
        rewrite <- Ed. symmetry.
        eapply date_leb_trans; [exact Exy|].
        now apply (proj2 (latest_such_greatest g t b' Eb)).
    + intros [= <-]. exists [], t. split; [reflexivity|].
      intros y Hy Hgy. rewrite (latest_such_none g t Eb y Hy) in Hgy.
      discriminate.
  - intros H. destruct (IH b H) as [l1 [l2 [-> H']]].
    now exists (x :: l1), l2.
Qed.

(** The row that lines 209-210 keep for a group is greatest in the order
    of the sort (dates ascending, missing dates last) among the rows of
    the group, and it is the last such row of the frame.  In a group
    whose dates all parse this is the row with the latest date, the last
    of them in row order on a tie. *)
Lemma keep_latest_dated_group (dated : list (LongRow * option Z)) x :
  In x (group_tail (stable_sort row_leb dated)) ->
  (forall y, In y dated -> same_group (fst x) (fst y) = true ->
             date_leb (snd y) (snd x) = true)
  /\ exists l1 l2,
       dated = l1 ++ x :: l2
       /\ forall y, In y l2 -> same_group (fst x) (fst y) = true ->
                    date_leb (snd x) (snd y) = false.
Proof.
  intros Hx. apply group_tail_last in Hx.
  rewrite last_such_stable_sort in Hx. split.
  - apply (latest_such_greatest _ _ _ Hx).
  - apply (latest_such_last _ _ _ Hx).
Qed.

(** Every group of the frame keeps one row. *)
Lemma group_tail_covers l y :
  In y l ->
  exists x, In x (group_tail l) /\ same_group (fst y) (fst x) = true.
Proof.
  revert y. induction l as [|z t IH]; intros y; [intros []|]. simpl.
  destruct (existsb (fun r' => same_group (fst z) (fst r')) t) eqn:E.
  - intros [<-|Hy]; [|now apply IH].
    apply existsb_exists in E. destruct E as [w [Hw Hg]].
    destruct (IH w Hw) as [x [Hx Hgx]]. exists x. split; [assumption|].
    eapply same_group_trans; eassumption.
  - intros [<-|Hy].
    + exists z. split; [now left|apply same_group_refl].
    + destruct (IH y Hy) as [x [Hx Hgx]].
      exists x. split; [now right|assumption].
Qed.

End DateOrder.

(** ** One record per SOC code *)

Section OneRecord.

Lemma existsb_cell_In k seen : existsb (cell_eqb k) seen = true <-> In k seen.
Proof.
  rewrite existsb_exists. split.
  - intros [y [Hy E]]. apply cell_eqb_eq in E. now subst.
  - intros H. exists k. split; [assumption|apply cell_eqb_refl].
Qed.

Lemma dedup_first_keys {A} (key : A -> cell) seen l :
  NoDup (map key (dedup_first key seen l))
  /\ forall r, In r (dedup_first key seen l) -> ~ In (key r) seen.
Proof.
  revert seen. induction l as [|x t IH]; intros seen; simpl.
  - split; [constructor|tauto].
  - destruct (existsb (cell_eqb (key x)) seen) eqn:E; [apply IH|].
    destruct (IH (key x :: seen)) as [ND Hout]. split.
    + simpl. constructor; [|exact ND].
      intros Hin. apply in_map_iff in Hin. destruct Hin as [r [Hk Hr]].
      apply (Hout r Hr). left. now symmetry.
    + intros r [<-|Hr].
      * rewrite <- existsb_cell_In. now rewrite E.
      * intros Hin. apply (Hout r Hr). now right.
Qed.



Lemma dedup_first_id {A} (key : A -> cell) seen l :
  NoDup (map key l) -> (forall x, In x l -> ~ In (key x) seen) ->
  dedup_first key seen l = l.
Proof.
  revert seen. induction l as [|x t IH]; intros seen ND Hs; [reflexivity|].
  simpl. inversion ND as [|? ? Hx NDt]; subst.
  destruct (existsb (cell_eqb (key x)) seen) eqn:E.
  - apply existsb_cell_In in E. exfalso. apply (Hs x); [now left|assumption].
  - f_equal. apply IH; [assumption|].
    intros y Hy [Heq|Hin].
    + apply Hx. rewrite Heq. now apply in_map.
    + apply (Hs y); [now right|assumption].
Qed.

Lemma positions_from_shift k label cols :
  positions_from (S k) label cols = map S (positions_from k label cols).
Proof.
  revert k. induction cols as [|c t IH]; intros k; simpl; [reflexivity|].
  rewrite map_app, IH. now destruct (str_eqb c label).
Qed.

Lemma get_cons c cols x r v :
  get (c :: cols) (x :: r) v = if str_eqb c v then x else get cols r v.
Proof.
  unfold get, positions. simpl.
  destruct (str_eqb c v); simpl; [reflexivity|].
  rewrite positions_from_shift.
  now destruct (positions_from 0 v cols).
Qed.

(** A row computed label by label holds under a label what the label
    gives. *)
Lemma get_map_labels (f : str -> cell) cols v :
  In v cols -> get cols (map f cols) v = f v.
Proof.
  induction cols as [|c t IH]; intros Hin; [destruct Hin|].
  simpl map. rewrite get_cons.
  destruct (str_eqb c v) eqn:E.
  - apply str_eqb_eq in E. now subst.
  - destruct Hin as [->|Hin]; [now rewrite str_eqb_refl in E|now apply IH].
Qed.

Lemma get_app_left cols x r y v :
  In v cols -> length r = length cols ->
  get (cols ++ x) (r ++ y) v = get cols r v.
Proof.
  revert r. induction cols as [|c t IH]; intros r Hin Hlen; [destruct Hin|].
  destruct r as [|z r]; [discriminate|]. simpl app. rewrite !get_cons.
  destruct (str_eqb c v) eqn:E; [reflexivity|].
  destruct Hin as [->|Hin]; [now rewrite str_eqb_refl in E|].
  apply IH; [assumption|]. simpl in Hlen. lia.
Qed.

Lemma set_column_scalar_fresh v c W :
  ~ In v (columns W) ->
  set_column_scalar v c W
  = mkDF (columns W ++ [v]) (map (fun r => r ++ [c]) (rows W)).
Proof.
  intros Hv. unfold set_column_scalar, set_column.
  apply mem_not_In in Hv. rewrite Hv. f_equal.
  induction (rows W) as [|r t IH]; simpl; [reflexivity|]. now rewrite IH.
Qed.

(** Lines 220-222 add, at the right end and filled with nulls, the value
    columns that the table lacks. *)
Lemma ensure_columns_fold vs W :
  exists extra,
    columns (fold_left
               (fun w v => if mem v (columns w) then w
                           else set_column_scalar v CNull w) vs W)
    = columns W ++ extra
    /\ rows (fold_left
               (fun w v => if mem v (columns w) then w
                           else set_column_scalar v CNull w) vs W)
       = map (fun r => r ++ repeat CNull (length extra)) (rows W)
    /\ (forall v, In v vs -> In v (columns W ++ extra))
    /\ (forall v, In v extra -> In v vs /\ ~ In v (columns W))
    /\ NoDup extra.
Proof.
  revert W. induction vs as [|v t IH]; intros W.
  - exists []. simpl. rewrite app_nil_r.
    split; [reflexivity|]. split; [|split; [tauto|split; [tauto|constructor]]].
    rewrite <- (map_id (rows W)) at 1. apply map_ext.
    intros r. now rewrite app_nil_r.
  - simpl fold_left. destruct (mem v (columns W)) eqn:E.
    + destruct (IH W) as [extra [Hc [Hr [Hin [Hex ND]]]]].
      exists extra. split; [assumption|]. split; [assumption|].
      split; [|split; [|assumption]].
      * intros x [<-|Hx]; [|now apply Hin].
        apply in_or_app. left. now apply mem_In.
      * intros x Hx. split; [right|]; now apply Hex.
    + apply mem_not_In in E. rewrite (set_column_scalar_fresh v CNull W E).
      destruct (IH (mkDF (columns W ++ [v])
                         (map (fun r => r ++ [CNull]) (rows W))))
        as [extra [Hc [Hr [Hin [Hex ND]]]]].
      cbn [columns rows] in *.
      exists (v :: extra). split; [|split; [|split; [|split]]].
      * now rewrite Hc, <- app_assoc.
      * rewrite Hr, map_map. apply map_ext. intros r.
        now rewrite <- app_assoc.
      * intros x [<-|Hx].
        -- apply in_or_app. right. now left.
        -- specialize (Hin x Hx). rewrite <- app_assoc in Hin. exact Hin.
      * intros x [<-|Hx]; [split; [now left|assumption]|].
        split; [right; now apply Hex|].
        intros Hc'. apply (proj2 (Hex x Hx)). apply in_or_app. now left.
      * constructor; [|assumption].
        intros Hv. apply (proj2 (Hex v Hv)). apply in_or_app. right. now left.
Qed.

Lemma unique_In x l : In x (unique l) <-> In x l.
Proof.
  induction l as [|y t IH]; simpl; [tauto|].
  destruct (mem y t) eqn:E; simpl; rewrite IH; [|tauto].
  apply mem_In in E. split; [tauto|]. intros [<-|H]; assumption.
Qed.

Lemma unique_NoDup l : NoDup (unique l).
Proof.
  induction l as [|y t IH]; simpl; [constructor|].
  destruct (mem y t) eqn:E; [assumption|].
  constructor; [|assumption]. rewrite unique_In. now apply mem_not_In.
Qed.

Lemma sorted_unique_In x l : In x (sorted_unique l) <-> In x l.
Proof.
  unfold sorted_unique. split; intros H.
  - apply unique_In.
    exact (Permutation_in _ (stable_sort_perm str_leb (unique l)) H).
  - apply unique_In in H.
    exact (Permutation_in _ (Permutation_sym (stable_sort_perm str_leb _)) H).
Qed.

Lemma sorted_unique_NoDup l : NoDup (sorted_unique l).
Proof.
  unfold sorted_unique.
  apply (Permutation_NoDup (l := unique l));
    [symmetry; apply stable_sort_perm|apply unique_NoDup].
Qed.

Lemma last_notna_spec l :
  (last_notna l = CNull /\ Forall (fun c => c = CNull) l)
  \/ (exists l1 c l2,
        l = l1 ++ c :: l2 /\ c <> CNull
        /\ Forall (fun x => x = CNull) l2 /\ last_notna l = c).
Proof.
  induction l as [|c t IH]; [left; split; [reflexivity|constructor]|].
  simpl. destruct IH as [[E F]|[l1 [c' [l2 [-> [Hc [F E]]]]]]].
  - rewrite E. destruct c as [x| |x].
    + right. exists [], (CStr x), t. repeat split; [discriminate|assumption].
    + left. split; [reflexivity|now constructor].
    + right. exists [], (CObj x), t. repeat split; [discriminate|assumption].
  - right. exists (c :: l1), c', l2. rewrite E.
    repeat split; [assumption..|].
    destruct c'; [reflexivity|congruence|reflexivity].
Qed.

(** The aggregate of a group is the value of its last row that has one. *)
Lemma group_last_spec df s v : last_value_of_group df s v (group_last df s v).
Proof.
  unfold last_value_of_group, group_last.
  set (g := filter _ df).
  destruct (last_notna_spec (map data_value g))
    as [[E F]|[l1 [c [l2 [Hsplit [Hc [F E]]]]]]].
  - left. split; [assumption|]. now apply Forall_map in F.
  - right. apply map_eq_app in Hsplit.
    destruct Hsplit as [g1 [g2 [Hg [_ H2]]]].
    apply map_eq_cons in H2. destruct H2 as [r [g3 [-> [Hr H3]]]].
    exists g1, r, g3. rewrite E. repeat split; try assumption.
    subst l2. now apply Forall_map in F.
Qed.

(** A value name that is not a column of the pivot has no value under any
    SOC code. *)
Lemma group_last_dead df s v :
  ~ In v (pivot_columns df) -> group_last df s v = CNull.
Proof.
  intros Hv. destruct (group_last_spec df s v)
    as [[E _]|[l1 [r [l2 [Hg [Hr [Hc _]]]]]]]; [assumption|].
  exfalso. apply Hv. apply sorted_unique_In, in_map_iff.
  assert (Hin : In r (filter (fun r => str_eqb (soc_code r) s
                                       && str_eqb (target_value r) v) df)).
  { rewrite Hg. apply in_or_app. right. now left. }
  apply filter_In in Hin. destruct Hin as [Hdf Hk].
  apply andb_true_iff in Hk. destruct Hk as [Hs Ht].
  apply str_eqb_eq in Hs. apply str_eqb_eq in Ht.
  exists r. split; [assumption|]. apply filter_In. split; [assumption|].
  rewrite Hs, Ht. now destruct (group_last df s v).
Qed.

Lemma soc_label_not_a_value : ~ In (py "SOC Code") VALUE_COLS_CANON.
Proof. apply mem_not_In. reflexivity. Qed.

Lemma value_names_distinct : NoDup (py "SOC Code" :: VALUE_COLS_CANON).
Proof. apply distinct_NoDup. reflexivity. Qed.

(** Pivot, lines 220-222 and the selection of line 224, on rows whose
    value names are among the six. *)
Lemma pivot_cell_null upcast df : pivot_cell upcast df CNull = CNull.
Proof. unfold pivot_cell. now destruct (pivot_complete df). Qed.

Lemma pivot_ensure_select upcast df :
  (forall r, In r df -> In (target_value r) VALUE_COLS_CANON) ->
  select (py "SOC Code" :: VALUE_COLS_CANON)
         (ensure_value_columns (pivot_table upcast df))
  = Ok (mkDF (py "SOC Code" :: VALUE_COLS_CANON)
             (map (fun s =>
                     CStr s
                     :: map (fun v => pivot_cell upcast df (group_last df s v))
                            VALUE_COLS_CANON)
                  (pivot_index df))).
Proof.
  intros Htarget. unfold ensure_value_columns, pivot_table.
  set (index := pivot_index df).
  set (cols := pivot_columns df).
  set (u := pivot_cell upcast df).
  set (P := mkDF _ _).
  destruct (ensure_columns_fold VALUE_COLS_CANON P)
    as [extra [Hc [Hr [Hin [Hex ND]]]]].
  set (W := fold_left _ VALUE_COLS_CANON P) in *.
  assert (Hcols : forall v, In v cols -> In v VALUE_COLS_CANON).
  { intros v Hv. apply sorted_unique_In, in_map_iff in Hv.
    destruct Hv as [r [<- Hr']]. apply filter_In in Hr'. now apply Htarget. }
  assert (NDW : NoDup (columns W)).
  { rewrite Hc. subst P. cbn [columns app]. constructor.
    - intros Hs. apply in_app_or in Hs. destruct Hs as [Hs|Hs].
      + exact (soc_label_not_a_value (Hcols _ Hs)).
      + exact (soc_label_not_a_value (proj1 (Hex _ Hs))).
    - apply NoDup_app; [apply sorted_unique_NoDup|exact ND|].
      intros a Ha Hb. apply (proj2 (Hex a Hb)). now right. }
  rewrite select_distinct; [|exact NDW|].
  2:{ intros l [<-|Hl]; [|now rewrite Hc; apply Hin].
      rewrite Hc. now left. }
  do 2 f_equal. rewrite Hr. subst P. cbn [rows]. rewrite !map_map.
  apply map_ext. intros s. rewrite Hc. cbn [columns app map].
  rewrite get_cons, str_eqb_refl. f_equal.
  apply map_ext_in. intros v Hv. rewrite get_cons.
  destruct (str_eqb (py "SOC Code") v) eqn:E.
  { apply str_eqb_eq in E. subst v. now apply soc_label_not_a_value in Hv. }
  destruct (in_dec (list_eq_dec ascii_dec) v cols) as [Hyes|Hno].
  - rewrite get_app_left; [|assumption|apply length_map].
    now rewrite (get_map_labels (fun v => u (group_last df s v))).
  - rewrite (group_last_dead df s v Hno). subst u. rewrite pivot_cell_null.
    apply get_right_part_null; [apply length_map| |assumption].
    apply Forall_forall. intros c Hc'. now apply repeat_spec in Hc'.
Qed.

Lemma NoDup_map_CStr index : NoDup index -> NoDup (map CStr index).
Proof.
  induction 1 as [|x l Hx _ IH]; simpl; constructor; [|assumption].
  intros Hin. apply in_map_iff in Hin. destruct Hin as [y [E Hy]].
  injection E as ->. contradiction.
Qed.

Lemma scale_step_incl labels df r : In r (scale_step labels df) -> In r df.
Proof.
  unfold scale_step, prefer_importance.
  destruct (mem (py "Scale Name") labels); [|tauto].
  destruct (existsb _ df); [|tauto].
  intros H. now apply filter_In in H.
Qed.

Lemma group_tail_incl l x : In x (group_tail l) -> In x l.
Proof.
  induction l as [|y t IH]; simpl; [tauto|].
  destruct (existsb _ t); simpl; tauto.
Qed.

Lemma with_dates_fst df ds x : In x (with_dates df ds) -> In (fst x) df.
Proof.
  revert ds. induction df as [|r t IH]; intros ds; simpl; [tauto|].
  intros [<-|H]; [now left|right; eapply IH; eassumption].
Qed.

Lemma keep_latest_incl to_datetime df r :
  In r (keep_latest to_datetime df) -> In r df.
Proof.
  unfold keep_latest. intros H. apply in_map_iff in H.
  destruct H as [x [<- Hx]]. apply group_tail_incl in Hx.
  apply (Permutation_in _ (stable_sort_perm row_leb _)) in Hx.
  eapply with_dates_fst; eassumption.
Qed.

Lemma date_step_incl to_datetime labels df r :
  In r (date_step to_datetime labels df) -> In r df.
Proof.
  unfold date_step. destruct (mem (py "Date") labels); [|tauto].
  apply keep_latest_incl.
Qed.

Lemma dict_get_In k d v : dict_get k d = Some v -> In v (map snd d).
Proof.
  induction d as [|[x y] t IH]; simpl; [discriminate|].
  destruct (str_eqb x k); [intros [= ->]; now left|].
  intros H. right. now apply IH.
Qed.

(** [alias_to_value] maps to the six value names only. *)
Lemma alias_to_value_target k v :
  dict_get k alias_to_value = Some v -> In v VALUE_COLS_CANON.
Proof.
  intros H. apply dict_get_In in H. apply mem_In.
  assert (F : forallb (fun v => mem v VALUE_COLS_CANON)
                      (map snd alias_to_value) = true) by reflexivity.
  rewrite forallb_forall in F. now apply F.
Qed.

Lemma long_rows_targets onet_df soc_col labels df :
  long_rows onet_df soc_col = Ok (labels, df) ->
  forall r, In r df -> In (target_value r) VALUE_COLS_CANON.
Proof.
  unfold long_rows.
  destruct (_col_like (columns onet_df) [py "Element Name"]); [|discriminate].
  destruct (_col_like (columns onet_df) [py "Data Value"]); [|discriminate].
  cbv zeta. unfold bind.
  destruct (position _ (py "SOC Code")) as [i_soc|]; [|discriminate].
  destruct (position _ (py "Element Name")) as [i_elem|]; [|discriminate].
  match goal with
  | |- match ?m with _ => _ end = _ -> _ =>
      remember m as mapped eqn:Em; destruct mapped as [|x t]; [discriminate|]
  end.
  match goal with
  | |- match (if ?b then _ else _) with _ => _ end = _ -> _ =>
      destruct (if b then _ else _) as [scale_at|]; [|discriminate]
  end.
  match goal with
  | |- match (if ?b then _ else _) with _ => _ end = _ -> _ =>
      destruct (if b then _ else _) as [date_at|]; [|discriminate]
  end.
  destruct (position _ (py "Data Value")) as [i_val|]; [|discriminate].
  assert (Hall : forall rv, In rv (x :: t) -> In (snd rv) VALUE_COLS_CANON).
  { intros rv Hin. rewrite Em in Hin. apply in_flat_map in Hin.
    destruct Hin as [row [_ Hin]].
    destruct (dict_get _ alias_to_value) as [v|] eqn:Ev; [|destruct Hin].
    destruct Hin as [<-|[]]. eapply alias_to_value_target; eassumption. }
  intros [= <- <-] r [<-|Hr].
  - apply (Hall x). now left.
  - apply in_map_iff in Hr. destruct Hr as [rv [<- Hin]].
    apply (Hall rv). now right.
Qed.

Lemma wide_projection_columns onet_df soc_col value_cols proj :
  wide_projection onet_df soc_col value_cols = Ok proj ->
  columns proj = py "SOC Code" :: VALUE_COLS_CANON.
Proof.
  unfold wide_projection, bind.
  destruct (select _ onet_df); [|discriminate].
  destruct (series _ _); [|discriminate].
  unfold assign_columns. destruct (_ =? _); [|discriminate].
  now intros [= <-].
Qed.

Lemma drop_duplicates_canonical rws :
  drop_duplicates (py "SOC Code")
                  (mkDF (py "SOC Code" :: VALUE_COLS_CANON) rws)
  = Ok (mkDF (py "SOC Code" :: VALUE_COLS_CANON)
             (dedup_first (cell_at 0) [] rws)).
Proof. reflexivity. Qed.

Lemma load_wide_spec onet_df soc_col value_cols out :
  load_wide onet_df soc_col value_cols = Ok out ->
  exists proj,
    wide_projection onet_df soc_col value_cols = Ok proj
    /\ columns out = py "SOC Code" :: VALUE_COLS_CANON
    /\ rows out = dedup_first (cell_at 0) [] (rows proj).
Proof.
  unfold load_wide, bind.
  destruct (wide_projection onet_df soc_col value_cols) as [proj|] eqn:E;
    [|discriminate].
  pose proof (wide_projection_columns _ _ _ _ E) as Hc.
  destruct proj as [c rws]. cbn [columns] in Hc. subst c.
  rewrite drop_duplicates_canonical. intros [= <-].
  exists (mkDF (py "SOC Code" :: VALUE_COLS_CANON) rws). repeat split.
Qed.

Section LongShape.

Variable to_datetime : list cell -> list (option Z).
Variable upcast : cell -> cell.

Lemma long_to_wide_spec labels df out :
  (forall r, In r df -> In (target_value r) VALUE_COLS_CANON) ->
  long_to_wide to_datetime upcast labels df = Ok out ->
  let kept := date_step to_datetime labels (scale_step labels df) in
  columns out = py "SOC Code" :: VALUE_COLS_CANON
  /\ rows out
     = map (fun s =>
              CStr s
              :: map (fun v => pivot_cell upcast kept (group_last kept s v))
                     VALUE_COLS_CANON)
           (pivot_index kept).
Proof.
  intros Htarget. unfold long_to_wide. cbv zeta.
  rewrite pivot_ensure_select.
  2:{ intros r Hr. apply Htarget.
      eapply scale_step_incl, date_step_incl; eassumption. }
  unfold bind. rewrite drop_duplicates_canonical.
  intros [= <-]. split; [reflexivity|]. cbn [rows].
  apply dedup_first_id; [|tauto].
  rewrite map_map. cbn [cell_at nth].
  apply NoDup_map_CStr, sorted_unique_NoDup.
Qed.

Lemma load_long_spec onet_df soc_col out :
  load_long to_datetime upcast onet_df soc_col = Ok out ->
  columns out = py "SOC Code" :: VALUE_COLS_CANON
  /\ NoDup (map (cell_at 0) (rows out))
  /\ exists labels df,
       long_rows onet_df soc_col = Ok (labels, df)
       /\ forall r, In r (rows out) ->
            exists s,
              cell_at 0 r = CStr s
              /\ forall v, In v VALUE_COLS_CANON ->
                   exists c,
                     last_value_of_group
                       (date_step to_datetime labels (scale_step labels df))
                       s v c
                     /\ get (columns out) r v
                        = pivot_cell
                            upcast
                            (date_step to_datetime labels (scale_step labels df))
                            c.
Proof.
  unfold load_long, bind.
  destruct (long_rows onet_df soc_col) as [[labels df]|] eqn:E; [|discriminate].
  cbn [fst snd]. intros H.
  destruct (long_to_wide_spec labels df out (long_rows_targets _ _ _ _ E) H)
    as [Hc Hr].
  split; [assumption|]. split.
  - rewrite Hr, map_map. cbn [cell_at nth].
    apply NoDup_map_CStr, sorted_unique_NoDup.
  - exists labels, df. split; [reflexivity|].
    intros r Hin. rewrite Hr in Hin. apply in_map_iff in Hin.
    destruct Hin as [s [<- _]]. exists s. split; [reflexivity|].
    intros v Hv. rewrite Hc, get_cons.
    destruct (str_eqb (py "SOC Code") v) eqn:Ev.
    { apply str_eqb_eq in Ev. subst v. now apply soc_label_not_a_value in Hv. }
    rewrite (get_map_labels
               (fun v => pivot_cell
                           upcast
                           (date_step to_datetime labels (scale_step labels df))
                           (group_last
                              (date_step to_datetime labels
                                         (scale_step labels df))
                              s v))) by assumption.
    eexists. split; [apply group_last_spec|reflexivity].
Qed.

End LongShape.

End OneRecord.

(** ** The merge step *)

Lemma is_unique_false l i j a b :
  i < j -> nth_error l i = Some a -> nth_error l j = Some b -> a = b ->
  is_unique l = false.
Proof.
  revert i j. induction l as [|x t IH]; intros i j Hij Ha Hb E.
  - destruct i; discriminate.
  - destruct j as [|j]; [lia|]. simpl in Hb. destruct i as [|i]; simpl in Ha.
    + injection Ha as ->. subst b. simpl.
      replace (existsb (cell_eqb a) t) with true; [reflexivity|].
      symmetry. apply existsb_exists. exists a. split.
      * eapply nth_error_In; eassumption.
      * apply cell_eqb_refl.
    + simpl. rewrite (IH i j); [apply andb_false_r|lia|assumption..].
Qed.

(** C3: when two rows of the reference table handed to the merge carry the
    same SOC code, the merge raises and nothing catches it: the run ends
    with the exception ([MergeError] when both tables have their SOC
    column), and no merged table is produced. *)
Theorem merge_duplicate_key_is_fatal
        (promote : nat -> cell -> cell)
        (in_df onet_df : DataFrame) (i j : nat) (r1 r2 : list cell) :
  i < j ->
  nth_error (rows onet_df) i = Some r1 ->
  nth_error (rows onet_df) j = Some r2 ->
  get (columns onet_df) r1 (py "SOC Code")
  = get (columns onet_df) r2 (py "SOC Code") ->
  (exists e, merge_step promote in_df onet_df = Raise e
             /\ merge_and_order promote in_df onet_df = Uncaught e)
  /\ (forall il ir,
        position (columns in_df) (py "SOC Code") = Ok il ->
        position (columns onet_df) (py "SOC Code") = Ok ir ->
        merge_step promote in_df onet_df = Raise MergeError).
Proof.
  intros Hij H1 H2 E.
  assert (Hdup : forall ir, position (columns onet_df) (py "SOC Code") = Ok ir ->
                 is_unique (map (cell_at ir) (rows onet_df)) = false).
  { intros ir Hr.
    rewrite !(position_get _ _ _ _ Hr) in E.
    apply (is_unique_false _ i j (cell_at ir r1) (cell_at ir r2) Hij);
      [now apply map_nth_error..|exact E]. }
  split.
  - unfold merge_and_order, merge_step, merge_left_m1.
    destruct (position (columns in_df) (py "SOC Code")) as [il|e];
      [|exists e; split; reflexivity].
    destruct (position (columns onet_df) (py "SOC Code")) as [ir|e] eqn:Hr;
      [|exists e; split; reflexivity].
    unfold bind. rewrite (Hdup ir eq_refl).
    exists MergeError; split; reflexivity.
  - intros il ir Hl Hr. unfold merge_step, merge_left_m1.
    rewrite Hl, Hr. unfold bind. now rewrite (Hdup ir Hr).
Qed.

Lemma merge_duplicate_key_is_fatal_witness :
  merge_step Sample.promote Sample.jobs Sample.reference_twice
  = Raise MergeError.
Proof.
  apply (proj2 (merge_duplicate_key_is_fatal
                  Sample.promote
                  Sample.jobs Sample.reference_twice 0 1
                  (nth 0 (rows Sample.reference_twice) [])
                  (nth 1 (rows Sample.reference_twice) [])
                  ltac:(lia) eq_refl eq_refl eq_refl) 2 0);
    reflexivity.
Defined.

(** The suffix makes none of the six value names twice by itself. *)
Lemma made_duplicate_values (f : str -> bool) :
  made_duplicate [] [] VALUE_COLS_CANON
                 (map (fun c => if f c then c ++ py "_ONET" else c)
                      VALUE_COLS_CANON)
  = false.
Proof.
  unfold VALUE_COLS_CANON. cbn [map].
  repeat match goal with
         | |- context [if f ?x then _ else _] => destruct (f x)
         end; reflexivity.
Qed.

Lemma suffixed_value_not_a_value v :
  In v VALUE_COLS_CANON -> ~ In (v ++ py "_ONET") VALUE_COLS_CANON.
Proof.
  intros Hv. apply mem_not_In.
  assert (F : forallb (fun v => negb (mem (v ++ py "_ONET") VALUE_COLS_CANON))
                      VALUE_COLS_CANON = true) by reflexivity.
  rewrite forallb_forall in F. now apply negb_true_iff, F.
Qed.

(** With the table of the loader on the right, the suffix makes a label
    twice exactly when the left table has a value name together with the
    same name followed by _ONET. *)
Lemma value_clash_iff lcols :
  suffix_clash lcols VALUE_COLS_CANON
               (map (fun c => if mem c lcols then c ++ py "_ONET" else c)
                    VALUE_COLS_CANON)
  = true
  <-> exists v, In v VALUE_COLS_CANON /\ In v lcols
                /\ In (v ++ py "_ONET") lcols.
Proof.
  unfold suffix_clash.
  rewrite (made_duplicate_values (fun c => mem c lcols)), orb_false_r.
  rewrite existsb_exists. split.
  - intros [l [Hl Hc]]. apply in_map_iff in Hl. destruct Hl as [v [<- Hv]].
    apply andb_true_iff in Hc. destruct Hc as [Hc _].
    destruct (mem v lcols) eqn:E.
    + exists v. split; [assumption|]. split; now apply mem_In.
    + congruence.
  - intros [v [Hv [Hin Hs]]]. exists (v ++ py "_ONET"). split.
    + apply in_map_iff. exists v. split; [|assumption].
      apply mem_In in Hin. now rewrite Hin.
    + apply andb_true_iff. split; [now apply mem_In|].
      apply negb_true_iff, mem_not_In. now apply suffixed_value_not_a_value.
Qed.

Lemma value_clash_free lcols :
  (forall v, In v VALUE_COLS_CANON -> In v lcols ->
             ~ In (v ++ py "_ONET") lcols) ->
  suffix_clash lcols VALUE_COLS_CANON
               (map (fun c => if mem c lcols then c ++ py "_ONET" else c)
                    VALUE_COLS_CANON)
  = false.
Proof.
  intros Hfree. destruct (suffix_clash _ _ _) eqn:E; [|reflexivity].
  apply value_clash_iff in E. destruct E as [v [Hv [Hin Hs]]].
  exfalso. exact (Hfree v Hv Hin Hs).
Qed.

(** The merge of line 299 with a table of the loader on the right. *)
Lemma merge_step_values promote in_df onet_df il :
  columns onet_df = py "SOC Code" :: VALUE_COLS_CANON ->
  position (columns in_df) (py "SOC Code") = Ok il ->
  let suffixed :=
    fun c => if mem c (columns in_df) then c ++ py "_ONET" else c in
  merge_step promote in_df onet_df
  = if is_unique (map (cell_at 0) (rows onet_df)) then
      if suffix_clash (columns in_df) VALUE_COLS_CANON
                      (map suffixed VALUE_COLS_CANON)
      then Raise MergeError
      else
        match rows in_df with
        | [] =>
            Ok (mkDF (remove_nth il (columns in_df)
                        ++ py "SOC Code" :: map suffixed VALUE_COLS_CANON)
                     [])
        | _ :: _ =>
            Ok (mkDF (columns in_df ++ map suffixed VALUE_COLS_CANON)
                     (map (merged_row promote il 0 in_df onet_df)
                          (rows in_df)))
        end
    else Raise MergeError.
Proof.
  intros Hc Hl. cbv zeta. unfold merge_step, merge_left_m1.
  rewrite Hl, Hc. reflexivity.
Qed.

Lemma matching_row_none il ir right l :
  (forall r, In r (rows right) -> cell_at ir r <> cell_at il l) ->
  matching_row il ir right l = None.
Proof.
  intros Hno. unfold matching_row. apply find_all_false. intros r Hin.
  destruct (cell_eqb (cell_at ir r) (cell_at il l)) eqn:E; [|reflexivity].
  apply cell_eqb_eq in E. now apply Hno in Hin.
Qed.

Lemma merged_row_left promote il ir left right l :
  length l = length (columns left) ->
  firstn (length (columns left)) (merged_row promote il ir left right l) = l.
Proof.
  intros Hlen. unfold merged_row.
  rewrite <- Hlen, firstn_app, Nat.sub_diag, firstn_all. simpl.
  apply app_nil_r.
Qed.

(** C4, as the code has it, for the standardised input sheet and the
    table of the loader (SOC codes that are texts, the seven labels, no
    SOC code twice): unless the input sheet has a value name together
    with the same name followed by _ONET (the merge raises then), the
    merge succeeds; every input row is in the merged table, at its place
    and with its own cells under its own labels; for a row whose SOC code
    no reference row carries, every cell that comes from the reference
    table is null.  Each of the six value columns is therefore null for
    such a row unless the input sheet has a column of that name: then
    that name keeps the input's cell and the reference column, under the
    suffixed label, is the null one. *)
Theorem merge_keeps_unmatched_rows
        (promote : nat -> cell -> cell) (in_df onet_df : DataFrame) (il : nat) :
  rectangular in_df ->
  position (columns in_df) (py "SOC Code") = Ok il ->
  texts_at il in_df ->
  columns onet_df = py "SOC Code" :: VALUE_COLS_CANON ->
  texts_at 0 onet_df ->
  is_unique (map (cell_at 0) (rows onet_df)) = true ->
  (forall v, In v VALUE_COLS_CANON -> In v (columns in_df) ->
             ~ In (v ++ py "_ONET") (columns in_df)) ->
  exists merged,
    merge_step promote in_df onet_df = Ok merged
    /\ length (rows merged) = length (rows in_df)
    /\ (forall i l, nth_error (rows in_df) i = Some l ->
        exists m, nth_error (rows merged) i = Some m
                  /\ firstn (length (columns in_df)) m = l
                  /\ forall v, In v (columns in_df) ->
                       get (columns merged) m v = get (columns in_df) l v)
    /\ (forall i l,
          nth_error (rows in_df) i = Some l ->
          (forall r, In r (rows onet_df) -> cell_at 0 r <> cell_at il l) ->
          exists m,
            nth_error (rows merged) i = Some m
            /\ firstn (length (columns in_df)) m = l
            /\ Forall (fun c => c = CNull) (skipn (length (columns in_df)) m)
            /\ forall v, In v VALUE_COLS_CANON ->
                 (~ In v (columns in_df) -> get (columns merged) m v = CNull)
                 /\ (In v (columns in_df) ->
                     get (columns merged) m v = get (columns in_df) l v
                     /\ get (columns merged) m (v ++ py "_ONET") = CNull)).
Proof.
  intros Hrect Hl _ Hc _ Hu Hfree.
  rewrite (merge_step_values promote in_df onet_df il Hc Hl). cbv zeta.
  rewrite Hu, (value_clash_free _ Hfree).
  assert (Hwide : forall i l, nth_error (rows in_df) i = Some l ->
                  length l = length (columns in_df)).
  { intros i l Hi. unfold rectangular in Hrect.
    rewrite Forall_forall in Hrect. apply Hrect.
    eapply nth_error_In; eassumption. }
  destruct (rows in_df) as [|l0 t] eqn:Erows.
  - eexists. split; [reflexivity|]. cbn [rows]. split; [reflexivity|].
    split; intros [|i] l Hi; discriminate.
  - rewrite <- Erows in *. eexists. split; [reflexivity|]. cbn [rows columns].
    split; [apply length_map|]. split.
    + intros i l Hi. exists (merged_row promote il 0 in_df onet_df l).
      split; [now apply map_nth_error|].
      split; [apply merged_row_left; eapply Hwide; eassumption|].
      intros v Hv. unfold merged_row.
      apply get_app_left; [assumption|eapply Hwide; eassumption].
    + intros i l Hi Hno. exists (merged_row promote il 0 in_df onet_df l).
      split; [now apply map_nth_error|].
      pose proof (Hwide i l Hi) as Hlen.
      split; [now apply merged_row_left|].
      unfold merged_row. rewrite (matching_row_none _ _ _ _ Hno).
      assert (Hnull : Forall (fun c => c = CNull)
                        (map (fun _ : str => CNull)
                             (remove_nth 0 (columns onet_df)))).
      { apply Forall_forall. intros c Hin. apply in_map_iff in Hin.
        now destruct Hin as [? [<- _]]. }
      split.
      * rewrite <- Hlen, skipn_app, Nat.sub_diag, skipn_all. exact Hnull.
      * intros v Hv. split.
        -- intros Hout. now apply get_right_part_null.
        -- intros Hin. split; [now apply get_app_left|].
           apply get_right_part_null; [assumption..|].
           now apply Hfree.
Qed.

Lemma merge_keeps_unmatched_rows_witness :
  exists merged,
    merge_step Sample.promote Sample.jobs Sample.reference = Ok merged
    /\ nth_error (rows merged) 1
       = Some (nth 1 (rows Sample.jobs) [] ++ repeat CNull 6).
Proof.
  destruct (merge_keeps_unmatched_rows
              Sample.promote Sample.jobs Sample.reference 2)
    as [merged [Hm _]].
  - repeat constructor.
  - reflexivity.
  - intros r [<-|[<-|[]]]; eexists; reflexivity.
  - reflexivity.
  - intros r [<-|[]]; eexists; reflexivity.
  - reflexivity.
  - intros v Hv Hin. apply mem_In in Hin.
    repeat (destruct Hv as [<-|Hv]; [vm_compute in Hin; discriminate|]).
    destruct Hv.
  - exists merged. split; [exact Hm|].
    vm_compute in Hm. injection Hm as <-. reflexivity.
Defined.

(** C4, as the specification words it, fails on an input sheet that has an
    Achievement column of its own: the unmatched row keeps the sheet's
    value under that name. *)
Lemma unmatched_rows_have_null_values_counterexample :
  ~ unmatched_rows_have_null_values.
Proof.
  intros H.
  destruct (H Sample.promote Sample.jobs_scored Sample.reference
              {| columns := columns Sample.jobs_scored
                              ++ py "Achievement_ONET" :: tl VALUE_COLS_CANON;
                 rows := [nth 0 (rows Sample.jobs_scored) [] ++ repeat CNull 6] |}
              1 0 eq_refl eq_refl eq_refl
              0 (nth 0 (rows Sample.jobs_scored) []) eq_refl)
    as [m [Hm Hv]].
  - intros r [<-|[]]. vm_compute. discriminate.
  - vm_compute in Hm. injection Hm as <-.
    specialize (Hv (py "Achievement") (or_introl eq_refl)).
    vm_compute in Hv. discriminate.
Qed.

(** ** Column order of the written table *)

Lemma others_filter cols :
  filter (fun c => negb (mem c (filter (fun c => mem c cols) FRONT
                                ++ filter (fun c => mem c cols) VALUE_COLS_CANON)))
         cols
  = filter (fun c => negb (mem c (FRONT ++ VALUE_COLS_CANON))) cols.
Proof.
  apply filter_ext_in. intros c Hc. f_equal.
  apply eq_true_iff_eq. rewrite !mem_In, !in_app_iff, !filter_In, !mem_In.
  tauto.
Qed.

(** C9, as the code has it: when the labels of the merged table are
    pairwise distinct, the written table has first those of Job Title,
    HeadCount, SOC Code and Occupational Title that the merged table has,
    in this order, then those of the six value names that it has, then
    all its other columns in their original relative order; every cell
    stays under its label. *)
Theorem reorder_column_order (merged : DataFrame) :
  NoDup (columns merged) ->
  exists out,
    reorder merged = Ok out
    /\ columns out
       = filter (fun c => mem c (columns merged)) FRONT
           ++ filter (fun c => mem c (columns merged)) VALUE_COLS_CANON
           ++ filter (fun c => negb (mem c (FRONT ++ VALUE_COLS_CANON)))
                     (columns merged)
    /\ rows out
       = map (fun r => map (get (columns merged) r) (columns out)) (rows merged).
Proof.
  intros ND. unfold reorder. rewrite others_filter.
  rewrite select_distinct; [eexists; repeat split|exact ND|].
  intros l Hl. rewrite !in_app_iff, !filter_In in Hl.
  pose proof (mem_In l (columns merged)). tauto.
Qed.

Lemma reorder_column_order_witness :
  exists out,
    reorder (mkDF (map py ["Dept"; "SOC Code"; "HeadCount"; "Support"]%string)
                  [[Sample.s "A"; Sample.s "13-1081"; Sample.n "2"; CNull]])
    = Ok out
    /\ columns out = map py ["HeadCount"; "SOC Code"; "Support"; "Dept"]%string.
Proof.
  destruct (reorder_column_order
              (mkDF (map py ["Dept"; "SOC Code"; "HeadCount"; "Support"]%string)
                    [[Sample.s "A"; Sample.s "13-1081"; Sample.n "2"; CNull]]))
    as [out [Ho [Hc _]]].
  - apply distinct_NoDup. reflexivity.
  - exists out. split; [exact Ho|]. rewrite Hc. reflexivity.
Defined.

(** C9, as the specification words it, fails on an input sheet without a
    job-title column: the written table starts with HeadCount. *)
Lemma output_begins_with_front_counterexample : ~ output_begins_with_front.
Proof.
  intros H.
  specialize (H (map iso_day) as_float64 Sample.promote
                Sample.raw_codes Sample.raw_wide).
  destruct (main (map iso_day) as_float64 Sample.promote Sample.raw_codes Sample.raw_wide) as [out| |]
    eqn:E; try (vm_compute in E; discriminate).
  specialize (H out eq_refl).
  vm_compute in E. injection E as <-.
  vm_compute in H. discriminate.
Qed.

Example main_without_job_title :
  exists out,
    main (map iso_day) as_float64 Sample.promote Sample.raw_codes Sample.raw_wide = Saved out
    /\ columns out
       = map py ["HeadCount"; "SOC Code"; "Occupational Title"]%string
           ++ VALUE_COLS_CANON ++ map py ["Dept"; "Code"]%string.
Proof. eexists. split; vm_compute; reflexivity. Qed.

(** * Further properties of the script *)

(** ** Canonical header names *)

Section Canon.

Lemma canon_char c :
  is_lower_az (lower_char c) || is_digit (lower_char c) = is_ascii_alnum c.
Proof.
  destruct c as [[|] [|] [|] [|] [|] [|] [|] [|]]; vm_compute; reflexivity.
Qed.

Lemma canon_char_fixed c :
  is_lower_az c || is_digit c = true -> lower_char c = c.
Proof.
  destruct c as [[|] [|] [|] [|] [|] [|] [|] [|]]; vm_compute; congruence.
Qed.

Lemma lower_char_idem c : lower_char (lower_char c) = lower_char c.
Proof.
  destruct c as [[|] [|] [|] [|] [|] [|] [|] [|]]; vm_compute; reflexivity.
Qed.

Lemma space_not_alnum c : isspace c = true -> is_ascii_alnum c = false.
Proof.
  destruct c as [[|] [|] [|] [|] [|] [|] [|] [|]]; vm_compute; congruence.
Qed.

(** [_canon] keeps the lowered letters and digits and nothing else. *)
Lemma canon_filter s : _canon s = map lower_char (filter is_ascii_alnum s).
Proof.
  unfold _canon, lower. induction s as [|c t IH]; simpl; [reflexivity|].
  rewrite canon_char. destruct (is_ascii_alnum c); simpl; now rewrite IH.
Qed.

Lemma canon_app a b : _canon (a ++ b) = _canon a ++ _canon b.
Proof. unfold _canon, lower. now rewrite map_app, filter_app. Qed.

Lemma canon_chars s :
  Forall (fun c => is_lower_az c || is_digit c = true) (_canon s).
Proof.
  unfold _canon. apply Forall_forall. intros c Hc.
  now apply filter_In in Hc.
Qed.

Lemma canon_fixed s :
  Forall (fun c => is_lower_az c || is_digit c = true) s -> _canon s = s.
Proof.
  unfold _canon, lower. induction 1 as [|c t Hc _ IH]; simpl; [reflexivity|].
  rewrite (canon_char_fixed c Hc), Hc. now f_equal.
Qed.

Lemma canon_lstrip s : _canon (lstrip s) = _canon s.
Proof.
  rewrite !canon_filter. f_equal.
  induction s as [|c t IH]; simpl; [reflexivity|].
  destruct (isspace c) eqn:E; [|reflexivity].
  now rewrite (space_not_alnum c E).
Qed.

Lemma canon_rev s : _canon (rev s) = rev (_canon s).
Proof. rewrite !canon_filter. now rewrite filter_rev, map_rev. Qed.

Lemma canon_strip s : _canon (strip s) = _canon s.
Proof.
  unfold strip, rstrip.
  now rewrite canon_rev, canon_lstrip, canon_rev, rev_involutive, canon_lstrip.
Qed.

(** X1: [_canon] gives a normal form: its result has only the characters
    a-z and 0-9, it is left as it is by a second pass, and a string made
    of such characters only is its own canonical form. *)
Theorem canon_normal_form (s : str) :
  Forall (fun c => is_lower_az c || is_digit c = true) (_canon s)
  /\ _canon (_canon s) = _canon s
  /\ (Forall (fun c => is_lower_az c || is_digit c = true) s -> _canon s = s).
Proof.
  split; [apply canon_chars|]. split; [|apply canon_fixed].
  apply canon_fixed, canon_chars.
Qed.

Lemma canon_normal_form_witness : _canon (py "onetsoccode") = py "onetsoccode".
Proof.
  apply (proj2 (proj2 (canon_normal_form (py "onetsoccode")))).
  repeat constructor.
Defined.

Lemma ascii_other_not_alnum c :
  is_ascii_other c = true -> is_ascii_alnum c = false.
Proof.
  unfold is_ascii_other. intros H. apply andb_true_iff in H.
  now apply negb_true_iff.
Qed.

(** X2: [_canon] does not see the case of the letters, nor the ASCII
    characters that are neither letters nor digits (blanks, hyphens,
    underscores, stars and the like), nor white space at the ends, and it
    works piece by piece. *)
Theorem canon_insensitive (s t : str) :
  _canon (lower s) = _canon s
  /\ _canon (filter (fun c => negb (is_ascii_other c)) s) = _canon s
  /\ _canon (strip s) = _canon s
  /\ _canon (s ++ t) = _canon s ++ _canon t.
Proof.
  split; [|split; [|split; [apply canon_strip|apply canon_app]]].
  - unfold _canon, lower. rewrite map_map. f_equal. apply map_ext.
    apply lower_char_idem.
  - rewrite !canon_filter. f_equal.
    induction s as [|c u IH]; simpl; [reflexivity|].
    destruct (is_ascii_other c) eqn:E; simpl.
    + now rewrite (ascii_other_not_alnum c E).
    + now rewrite IH.
Qed.

End Canon.

Example canon_spellings :
  _canon (py "SOC Code") = py "soccode"
  /\ _canon (py "soc_code") = py "soccode"
  /\ _canon (py " SOC-CODE ") = py "soccode"
  /\ _canon (py "O*NET-SOC Code") = py "onetsoccode".
Proof. repeat split. Qed.

(** ** The strict and the tolerant column resolver *)

Section Resolver.

Lemma find_first {A} (f : A -> bool) l x :
  find f l = Some x
  <-> exists pre post,
        l = pre ++ x :: post /\ f x = true
        /\ forall y, In y pre -> f y = false.
Proof.
  induction l as [|z t IH]; simpl.
  - split; [discriminate|]. intros [pre [post [E _]]].
    destruct pre; discriminate.
  - destruct (f z) eqn:Ez.
    + split.
      * intros [= <-]. exists [], t. repeat split; [assumption|intros ? []].
      * intros [pre [post [E [Hx Hpre]]]]. destruct pre as [|p pre].
        -- simpl in E. congruence.
        -- simpl in E. assert (z = p) by congruence. subst p.
           rewrite (Hpre z (or_introl eq_refl)) in Ez. discriminate.
    + rewrite IH. split.
      * intros [pre [post [-> [Hx Hpre]]]]. exists (z :: pre), post.
        repeat split; [assumption|].
        intros y [<-|Hy]; [assumption|now apply Hpre].
      * intros [pre [post [E [Hx Hpre]]]]. destruct pre as [|p pre].
        -- simpl in E. assert (z = x) by congruence. subst x. congruence.
        -- simpl in E. assert (t = pre ++ x :: post) by congruence.
           exists pre, post. repeat split; [assumption..|].
           intros y Hy. apply Hpre. now right.
Qed.

(** X3: [find_col] returns the first column, in column order, whose
    canonical form is the canonical form of one of the options, and raises
    KeyError exactly when no column has such a form; [_col_like] finds the
    same column and gives None where [find_col] raises. *)
Theorem find_col_first_match (cols options : list str) :
  (forall c,
     find_col cols options = Ok c
     <-> exists pre post,
           cols = pre ++ c :: post
           /\ In (_canon c) (map _canon options)
           /\ forall x, In x pre -> ~ In (_canon x) (map _canon options))
  /\ (find_col cols options = Raise KeyError
      <-> forall x, In x cols -> ~ In (_canon x) (map _canon options))
  /\ (forall c, _col_like cols options = Some c <-> find_col cols options = Ok c)
  /\ (_col_like cols options = None <-> find_col cols options = Raise KeyError).
Proof.
  unfold find_col, _col_like. cbv zeta.
  set (f := fun c => mem (_canon c) (map _canon options)).
  split; [|split; [|split]].
  - intros c. destruct (find f cols) as [c'|] eqn:E.
    + split.
      * intros [= <-]. apply find_first in E.
        destruct E as [pre [post [Hc [Hf Hpre]]]]. exists pre, post.
        split; [assumption|]. split; [now apply mem_In|].
        intros x Hx. apply mem_not_In. now apply Hpre.
      * intros [pre [post [Hc [Hf Hpre]]]]. f_equal.
        assert (E' : find f cols = Some c).
        { apply find_first. exists pre, post. split; [assumption|].
          split; [now apply mem_In|]. intros y Hy.
          apply mem_not_In. now apply Hpre. }
        congruence.
    + split; [discriminate|]. intros [pre [post [Hc [Hf Hpre]]]].
      assert (Hin : In c cols) by (rewrite Hc; apply in_or_app; right; now left).
      apply (find_none _ _ E) in Hin. apply mem_In in Hf. unfold f in Hin.
      congruence.
  - destruct (find f cols) as [c'|] eqn:E.
    + split; [discriminate|]. intros H. apply find_some in E.
      destruct E as [Hin Hf]. apply mem_In in Hf. now apply H in Hin.
    + split; [|reflexivity]. intros _ x Hx.
      apply mem_not_In. exact (find_none _ _ E x Hx).
  - intros c. destruct (find f cols); split; congruence.
  - destruct (find f cols); split; congruence.
Qed.

Lemma find_col_first_match_witness :
  find_col (map py ["Dept"; "soc_code"; "SOC Code"]%string) soc_opts_in
  = Ok (py "soc_code").
Proof.
  apply (proj1 (find_col_first_match _ _)).
  exists [py "Dept"], [py "SOC Code"]. split; [reflexivity|].
  split; [apply mem_In; reflexivity|].
  intros x [<-|[]]. apply mem_not_In. reflexivity.
Defined.

(** X4: column resolution sees the headers and the options only through
    their canonical forms: on two header rows that agree column by column
    up to case, white space and punctuation, and with options that agree
    in the same way, [_col_like] finds nothing in both or the column at
    the same position in both. *)
Theorem col_like_canonical (cols cols' options options' : list str) :
  Forall2 (fun c c' => _canon c = _canon c') cols cols' ->
  map _canon options = map _canon options' ->
  (_col_like cols options = None /\ _col_like cols' options' = None)
  \/ exists i c c',
       nth_error cols i = Some c /\ nth_error cols' i = Some c'
       /\ _col_like cols options = Some c
       /\ _col_like cols' options' = Some c'.
Proof.
  intros HF Ho. unfold _col_like. cbv zeta. rewrite <- Ho.
  induction HF as [|c c' t t' Hc _ IH]; simpl; [now left|].
  rewrite <- Hc. destruct (mem (_canon c) (map _canon options)).
  - right. now exists 0, c, c'.
  - destruct IH as [[H1 H2]|[i [x [x' [H1 [H2 [H3 H4]]]]]]]; [now left|].
    right. now exists (S i), x, x'.
Qed.

Lemma col_like_canonical_witness :
  exists i c c',
    nth_error (map py ["Dept"; "soc_code"]%string) i = Some c
    /\ nth_error (map py ["dept."; " SOC-CODE"]%string) i = Some c'
    /\ _col_like (map py ["Dept"; "soc_code"]%string) soc_opts = Some c
    /\ _col_like (map py ["dept."; " SOC-CODE"]%string) soc_opts = Some c'.
Proof.
  destruct (col_like_canonical
              (map py ["Dept"; "soc_code"]%string)
              (map py ["dept."; " SOC-CODE"]%string) soc_opts soc_opts)
    as [[H _]|H].
  - repeat constructor.
  - reflexivity.
  - vm_compute in H. discriminate.
  - exact H.
Defined.

End Resolver.

(** ** SOC codes as join keys *)

Section JoinKey.

Lemma trimmed_digit_ends a m z :
  a <> [] -> z <> [] ->
  Forall (fun c => is_digit c = true) a ->
  Forall (fun c => is_digit c = true) z ->
  trimmed (a ++ m ++ z).
Proof.
  intros Ha Hz Fa Fz. split.
  - destruct a as [|d a']; [congruence|]. inversion Fa; subst.
    now apply lstrip_digit_head.
  - rewrite !rev_app_distr.
    destruct (rev z) as [|d z'] eqn:Ez.
    + apply (f_equal (@rev ascii)) in Ez. rewrite rev_involutive in Ez.
      simpl in Ez. congruence.
    + assert (Hd : is_digit d = true).
      { apply Forall_rev in Fz. rewrite Ez in Fz. now inversion Fz. }
      simpl. now rewrite (digit_not_space _ Hd).
Qed.

Lemma nonempty_of_length {A} (l : list A) : 0 < length l -> l <> [].
Proof. destruct l; simpl; [lia|discriminate]. Qed.

Lemma layout7_trimmed ds :
  Forall (fun c => is_digit c = true) ds -> 7 <= length ds ->
  trimmed (layout7 ds).
Proof.
  intros F H. unfold layout7, slice. change (skipn 0 ds) with ds.
  simpl Nat.sub.
  assert (Ha : firstn 2 ds <> [])
    by (apply nonempty_of_length; rewrite length_firstn; lia).
  destruct (skipn 7 ds) as [|x r] eqn:E.
  - rewrite app_nil_r. apply trimmed_digit_ends; try assumption.
    + apply nonempty_of_length. rewrite length_firstn, length_skipn. lia.
    + now apply Forall_firstn.
    + now apply Forall_firstn, Forall_skipn.
  - rewrite <- !app_assoc.
    replace (firstn 2 ds ++ py "-" ++ firstn 5 (skipn 2 ds) ++ py "-" ++ x :: r)
      with (firstn 2 ds ++ (py "-" ++ firstn 5 (skipn 2 ds) ++ py "-") ++ x :: r)
      by now rewrite <- !app_assoc.
    apply trimmed_digit_ends; try assumption; [discriminate| |].
    + now apply Forall_firstn.
    + rewrite <- E. now apply Forall_skipn.
Qed.

Lemma layout56_trimmed ds :
  Forall (fun c => is_digit c = true) ds -> 5 <= length ds ->
  trimmed (layout56 ds).
Proof.
  intros F H. unfold layout56. apply trimmed_digit_ends.
  - apply nonempty_of_length. rewrite length_firstn. lia.
  - apply nonempty_of_length. rewrite length_skipn. lia.
  - now apply Forall_firstn.
  - now apply Forall_skipn.
Qed.

(** X5: two inputs with the same digits, at least five of them, have the
    same normalised SOC code, however the digits are spaced or
    punctuated: this is what lets the input sheet and the reference
    table meet on the join key. *)
Theorem norm_soc_same_digits (a b : cell) :
  filter is_digit (soc_text a) = filter is_digit (soc_text b) ->
  5 <= length (filter is_digit (soc_text a)) ->
  norm_soc a = norm_soc b.
Proof.
  intros E H.
  destruct (le_lt_dec 7 (length (filter is_digit (soc_text a)))) as [H7|H7].
  - rewrite (norm_soc_ge7 a H7). rewrite norm_soc_ge7; rewrite <- E;
      [reflexivity|assumption].
  - assert (H56 : length (filter is_digit (soc_text a)) = 5
                  \/ length (filter is_digit (soc_text a)) = 6) by lia.
    rewrite (norm_soc_56 a H56). rewrite norm_soc_56; rewrite <- E;
      [reflexivity|assumption].
Qed.

Lemma norm_soc_same_digits_witness :
  norm_soc (CStr (py "13-1081")) = norm_soc (CObj (py "131081")).
Proof.
  apply norm_soc_same_digits; [reflexivity|]. vm_compute. lia.
Defined.

(** X6: [norm_soc] neither loses, adds nor reorders a digit; its result
    has no white space at either end; and the result is empty only for
    an input that is null or blank. *)
Theorem norm_soc_keeps_digits (c : cell) :
  filter is_digit (norm_soc c) = filter is_digit (soc_text c)
  /\ strip (norm_soc c) = norm_soc c
  /\ (norm_soc c = [] <-> strip (soc_text c) = []).
Proof.
  pose proof (all_digits c) as F.
  assert (Hcases :
            (7 <= length (filter is_digit (soc_text c))
             /\ norm_soc c = layout7 (filter is_digit (soc_text c)))
            \/ (5 <= length (filter is_digit (soc_text c))
                /\ norm_soc c = layout56 (filter is_digit (soc_text c)))
            \/ norm_soc c = strip (soc_text c)).
  { destruct (le_lt_dec 7 (length (filter is_digit (soc_text c)))) as [H7|H7];
      [left; split; [assumption|now apply norm_soc_ge7]|].
    destruct (le_lt_dec 5 (length (filter is_digit (soc_text c)))) as [H5|H5].
    - right. left. split; [assumption|]. apply norm_soc_56. lia.
    - right. right. now apply norm_soc_other. }
  split; [|split].
  - destruct Hcases as [[_ ->] | [[_ ->] | ->]].
    + now apply digits_layout7.
    + now apply digits_layout56.
    + apply filter_digit_strip.
  - destruct Hcases as [[H ->] | [[H ->] | ->]].
    + now apply trimmed_strip, layout7_trimmed.
    + now apply trimmed_strip, layout56_trimmed.
    + apply strip_idem.
  - split.
    + destruct Hcases as [[H E]|[[H E]|E]]; rewrite E; [| |tauto].
      * unfold layout7. intros Hnil.
        apply app_eq_nil in Hnil. destruct Hnil as [Hnil _].
        apply app_eq_nil in Hnil. destruct Hnil as [_ Hnil]. discriminate.
      * unfold layout56. intros Hnil.
        apply app_eq_nil in Hnil. destruct Hnil as [_ Hnil]. discriminate.
    + intros H. unfold norm_soc. now rewrite H.
Qed.

End JoinKey.

(** ** The columns of the reference table *)

Section ReferenceColumns.

(** X7: the SOC column that the loader settles on is a column of the
    table; a column whose canonical form is one of the SOC names wins, the
    first of them in column order; without one, a column whose canonical
    form contains both "soc" and "code" is taken; and the loader raises
    KeyError exactly when the table has neither. *)
Theorem resolve_soc_col_spec (cols : list str) :
  (forall c,
     resolve_soc_col cols = Ok c ->
     In c cols
     /\ (In (_canon c) (map _canon soc_opts)
         \/ (contains (py "soc") (_canon c) = true
             /\ contains (py "code") (_canon c) = true)))
  /\ (forall pre c post,
        cols = pre ++ c :: post ->
        In (_canon c) (map _canon soc_opts) ->
        (forall x, In x pre -> ~ In (_canon x) (map _canon soc_opts)) ->
        resolve_soc_col cols = Ok c)
  /\ (resolve_soc_col cols = Raise KeyError
      <-> forall x, In x cols ->
            ~ In (_canon x) (map _canon soc_opts)
            /\ ~ (contains (py "soc") (_canon x) = true
                  /\ contains (py "code") (_canon x) = true))
  /\ (forall e, resolve_soc_col cols = Raise e -> e = KeyError).
Proof.
  unfold resolve_soc_col. split; [|split; [|split]].
  - intros c. destruct (_col_like cols soc_opts) as [c'|] eqn:E.
    + intros [= <-]. unfold _col_like in E. apply find_some in E.
      destruct E as [Hin Hm]. split; [assumption|]. left. now apply mem_In.
    + destruct (find _ cols) as [c'|] eqn:F; [|discriminate].
      intros [= <-]. apply find_some in F. destruct F as [Hin Hm].
      apply andb_true_iff in Hm. split; [assumption|now right].
  - intros pre c post Hc Hm Hpre.
    replace (_col_like cols soc_opts) with (Some c); [reflexivity|].
    symmetry. unfold _col_like. apply find_first. exists pre, post.
    split; [assumption|]. split; [now apply mem_In|].
    intros y Hy. apply mem_not_In. now apply Hpre.
  - destruct (_col_like cols soc_opts) as [c'|] eqn:E.
    + split; [discriminate|]. intros H. unfold _col_like in E.
      apply find_some in E. destruct E as [Hin Hm]. apply mem_In in Hm.
      now destruct (H c' Hin).
    + destruct (find _ cols) as [c'|] eqn:F.
      * split; [discriminate|]. intros H. apply find_some in F.
        destruct F as [Hin Hm]. apply andb_true_iff in Hm.
        now destruct (H c' Hin).
      * split; [|reflexivity]. intros _ x Hx. split.
        -- apply mem_not_In. unfold _col_like in E.
           exact (find_none _ _ E x Hx).
        -- intros [H1 H2]. pose proof (find_none _ _ F x Hx) as Hf.
           cbv beta in Hf. rewrite H1, H2 in Hf. discriminate.
  - intros e. destruct (_col_like cols soc_opts); [discriminate|].
    destruct (find _ cols); [discriminate|]. now intros [= <-].
Qed.

Lemma resolve_soc_col_spec_witness :
  resolve_soc_col (map py ["Title"; "Occupation Code"; "SOC"]%string)
  = Ok (py "Occupation Code")
  /\ resolve_soc_col (map py ["Title"; "Element Name"]%string) = Raise KeyError.
Proof.
  split.
  - apply (proj1 (proj2 (resolve_soc_col_spec _)) [py "Title"]
             (py "Occupation Code") [py "SOC"]); [reflexivity| |].
    + apply mem_In. reflexivity.
    + intros x [<-|[]]. apply mem_not_In. reflexivity.
  - apply (proj1 (proj2 (proj2 (resolve_soc_col_spec _)))).
    intros x [<-|[<-|[]]]; (split; [apply mem_not_In; reflexivity|]);
      intros [H _]; vm_compute in H; discriminate.
Defined.

Lemma first_hit_inv {A B} (f : A -> option B) l y :
  first_hit f l = Some y -> exists x, In x l /\ f x = Some y.
Proof.
  induction l as [|z t IH]; simpl; [discriminate|].
  destruct (f z) as [w|] eqn:E.
  - intros [= <-]. exists z. split; [now left|assumption].
  - intros H. destruct (IH H) as [x [Hx Hf]]. exists x. split; [now right|assumption].
Qed.

Lemma first_hit_none {A B} (f : A -> option B) l :
  first_hit f l = None <-> forall x, In x l -> f x = None.
Proof.
  induction l as [|z t IH]; simpl; [tauto|].
  destruct (f z) as [w|] eqn:E.
  - split; [discriminate|]. intros H. rewrite (H z (or_introl eq_refl)) in E.
    discriminate.
  - rewrite IH. split.
    + intros H x [<-|Hx]; [assumption|now apply H].
    + intros H x Hx. apply H. now right.
Qed.

Lemma dict_get_In_pair k d v : dict_get k d = Some v -> In (k, v) d.
Proof.
  induction d as [|[x y] t IH]; simpl; [discriminate|].
  destruct (str_eqb x k) eqn:E.
  - apply str_eqb_eq in E. subst x. intros [= <-]. now left.
  - intros H. right. now apply IH.
Qed.

Lemma dict_get_key k d : In k (map fst d) -> dict_get k d <> None.
Proof.
  induction d as [|[x y] t IH]; simpl; [tauto|].
  destruct (str_eqb x k) eqn:E; [discriminate|].
  intros [H|H]; [apply str_eqb_neq in E; contradiction|now apply IH].
Qed.

Lemma dict_set_In k v d k' v' :
  In (k', v') (dict_set k v d) -> (k', v') = (k, v) \/ In (k', v') d.
Proof.
  induction d as [|[x y] t IH]; simpl.
  - intros [H|[]]. left. now symmetry.
  - destruct (str_eqb x k); simpl.
    + intros [H|H]; [left; now symmetry|right; now right].
    + intros [H|H]; [right; now left|].
      destruct (IH H) as [H'|H']; [now left|right; now right].
Qed.

Lemma dict_set_keys k v d k' :
  k' = k \/ In k' (map fst d) -> In k' (map fst (dict_set k v d)).
Proof.
  induction d as [|[x y] t IH]; simpl.
  - intros [->|[]]. now left.
  - destruct (str_eqb x k) eqn:E; simpl.
    + apply str_eqb_eq in E. subst x. intros [->|[H|H]]; tauto.
    + intros [->|[H|H]]; [right; apply IH; now left|now left|].
      right. apply IH. now right.
Qed.

Lemma canon_fold_entries cols l acc :
  (forall k v, In (k, v) acc -> k = _canon v /\ In v cols) ->
  (forall c, In c l -> In c cols) ->
  forall k v,
    In (k, v) (fold_left (fun d c => dict_set (_canon c) c d) l acc) ->
    k = _canon v /\ In v cols.
Proof.
  revert acc. induction l as [|x t IH]; intros acc Hacc Hl; simpl;
    [assumption|].
  apply IH.
  - intros k v Hin. apply dict_set_In in Hin.
    destruct Hin as [E|Hin]; [|now apply Hacc].
    injection E as -> ->. split; [reflexivity|]. apply Hl. now left.
  - intros c Hc. apply Hl. now right.
Qed.

Lemma canon_fold_keys l acc c :
  In c l \/ In (_canon c) (map fst acc) ->
  In (_canon c) (map fst (fold_left (fun d c => dict_set (_canon c) c d) l acc)).
Proof.
  revert acc. induction l as [|x t IH]; intros acc H; simpl.
  - destruct H as [[]|H]. exact H.
  - apply IH. destruct H as [[<-|H]|H].
    + right. apply dict_set_keys. now left.
    + now left.
    + right. apply dict_set_keys. now right.
Qed.

(** The dict of the headers: every entry pairs a header of the table with
    its canonical form, and every header has its canonical form as a key. *)
Lemma canon_headers_entries cols :
  (forall k v, In (k, v) (canon_headers cols) -> k = _canon v /\ In v cols)
  /\ (forall c, In c cols -> In (_canon c) (map fst (canon_headers cols))).
Proof.
  unfold canon_headers. split.
  - apply canon_fold_entries; [intros k v []|tauto].
  - intros c Hc. apply canon_fold_keys. now left.
Qed.

Lemma contains_refl a : contains a a = true.
Proof. apply contains_iff. exists [], []. now rewrite app_nil_r. Qed.

(** X8: for any header row, the tolerant resolver of a value column finds
    nothing exactly when no alias is contained in the canonical form of
    any header; what it finds is a header of the table whose canonical
    form contains one of the aliases. *)
Theorem find_value_col_found (cols aliases : list str) :
  (_find_value_col (canon_headers cols) aliases = None
   <-> forall a c, In a aliases -> In c cols -> contains a (_canon c) = false)
  /\ (forall h,
        _find_value_col (canon_headers cols) aliases = Some h ->
        In h cols
        /\ exists a, In a aliases /\ contains a (_canon h) = true).
Proof.
  destruct (canon_headers_entries cols) as [Hent Hkey].
  unfold _find_value_col.
  set (d := canon_headers cols) in *.
  set (exact := first_hit (fun a => dict_get a d) aliases).
  set (loose := first_hit
                  (fun a => first_hit
                              (fun kv : str * str =>
                                 if contains a (fst kv) then Some (snd kv)
                                 else None) d) aliases).
  assert (Hexact : forall h, exact = Some h ->
                   In h cols /\ exists a, In a aliases
                                          /\ contains a (_canon h) = true).
  { intros h H. apply first_hit_inv in H. destruct H as [a [Ha Hg]].
    apply dict_get_In_pair, Hent in Hg. destruct Hg as [-> Hin].
    split; [assumption|]. exists (_canon h). split; [assumption|apply contains_refl]. }
  assert (Hloose : forall h, loose = Some h ->
                   In h cols /\ exists a, In a aliases
                                          /\ contains a (_canon h) = true).
  { intros h H. apply first_hit_inv in H. destruct H as [a [Ha Hg]].
    apply first_hit_inv in Hg. destruct Hg as [[k v] [Hkv Hc]]. simpl in Hc.
    destruct (contains a k) eqn:E; [|discriminate]. injection Hc as ->.
    destruct (Hent _ _ Hkv) as [-> Hin]. split; [assumption|]. now exists a. }
  split.
  - split.
    + intros H a c Ha Hc.
      destruct exact as [h|] eqn:Ee; [discriminate|].
      pose proof (proj1 (first_hit_none _ _) H a Ha) as Hrow.
      destruct (dict_get (_canon c) d) as [v|] eqn:Eg.
      * apply dict_get_In_pair in Eg.
        pose proof (proj1 (first_hit_none _ _) Hrow _ Eg) as Hk. simpl in Hk.
        now destruct (contains a (_canon c)).
      * exfalso. exact (dict_get_key _ _ (Hkey c Hc) Eg).
    + intros H. destruct exact as [h|] eqn:Ee.
      * destruct (Hexact h eq_refl) as [Hin [a [Ha Hc]]].
        rewrite (H a h Ha Hin) in Hc. discriminate.
      * destruct loose as [h|] eqn:El; [|reflexivity].
        destruct (Hloose h eq_refl) as [Hin [a [Ha Hc]]].
        rewrite (H a h Ha Hin) in Hc. discriminate.
  - intros h. destruct exact as [h'|] eqn:Ee.
    + intros [= <-]. now apply Hexact.
    + apply Hloose.
Qed.

Lemma find_value_col_found_witness :
  _find_value_col (canon_headers (map py ["SOC Code"; "Title"]%string))
                  (aliases_of (py "Support")) = None.
Proof.
  apply (proj1 (find_value_col_found _ _)).
  intros a c [<-|[]] [<-|[<-|[]]]; reflexivity.
Defined.

End ReferenceColumns.

(** ** Loading a WIDE table *)

Section WideTable.

Lemma find_value_col_hit cols aliases h :
  _find_value_col (canon_headers cols) aliases = Some h ->
  In h cols /\ exists a, In a aliases /\ contains a (_canon h) = true.
Proof.
  destruct (canon_headers_entries cols) as [Hent _].
  unfold _find_value_col.
  destruct (first_hit (fun a => dict_get a (canon_headers cols)) aliases)
    as [h'|] eqn:E.
  - intros [= <-]. apply first_hit_inv in E. destruct E as [a [Ha Hg]].
    apply dict_get_In_pair, Hent in Hg. destruct Hg as [-> Hin].
    split; [assumption|]. exists (_canon h').
    split; [assumption|apply contains_refl].
  - intros H. apply first_hit_inv in H. destruct H as [a [Ha Hg]].
    apply first_hit_inv in Hg. destruct Hg as [[k v] [Hkv Hc]]. simpl in Hc.
    destruct (contains a k) eqn:Ek; [|discriminate]. injection Hc as ->.
    destruct (Hent _ _ Hkv) as [-> Hin]. split; [assumption|]. now exists a.
Qed.

(** The resolved value columns: one header of the table for each value
    name, in the order of the names, each containing an alias of its
    value. *)
Lemma resolve_value_cols_hits cols vs vc :
  resolve_value_cols (canon_headers cols) vs = Some vc ->
  Forall2 (fun v h =>
             In h cols
             /\ exists a, In a (aliases_of v) /\ contains a (_canon h) = true)
          vs vc.
Proof.
  revert vc. induction vs as [|v t IH]; intros vc; simpl.
  - intros [= <-]. constructor.
  - destruct (_find_value_col (canon_headers cols) (aliases_of v)) as [h|] eqn:E;
      [|discriminate].
    destruct (resolve_value_cols (canon_headers cols) t) as [l|]; [|discriminate].
    intros [= <-]. constructor; [now apply find_value_col_hit|now apply IH].
Qed.

Lemma soc_label_has_no_alias v a :
  In v VALUE_COLS_CANON -> In a (aliases_of v) ->
  contains a (_canon (py "SOC Code")) = false.
Proof.
  intros Hv Ha.
  assert (F : forallb
                (fun v => forallb
                            (fun a => negb (contains a (_canon (py "SOC Code"))))
                            (aliases_of v))
                VALUE_COLS_CANON = true) by reflexivity.
  rewrite forallb_forall in F. specialize (F v Hv).
  rewrite forallb_forall in F. specialize (F a Ha).
  now destruct (contains a (_canon (py "SOC Code"))).
Qed.

Lemma set_cells_notin cols label v r :
  ~ In label cols -> set_cells cols label v r = r.
Proof.
  revert r. induction cols as [|c t IH]; intros r H; [now destruct r|].
  destruct r as [|x r]; [reflexivity|]. simpl.
  destruct (str_eqb c label) eqn:E.
  - apply str_eqb_eq in E. subst c. exfalso. apply H. now left.
  - f_equal. apply IH. intros Hin. apply H. now right.
Qed.

Lemma combine_map_map {A B C} (f : A -> B) (g : A -> C) l :
  combine (map f l) (map g l) = map (fun x => (f x, g x)) l.
Proof. induction l as [|x t IH]; simpl; [reflexivity|now rewrite IH]. Qed.

Lemma Forall2_In_r {A B} (R : A -> B -> Prop) l l' y :
  Forall2 R l l' -> In y l' -> exists x, In x l /\ R x y.
Proof.
  induction 1 as [|a b t t' Hab _ IH]; intros Hin; [destruct Hin|].
  destruct Hin as [<-|Hin].
  - exists a. split; [now left|assumption].
  - destruct (IH Hin) as [x [Hx Hr]]. exists x. split; [now right|assumption].
Qed.

Lemma rename_other old new l :
  ~ In old l ->
  map (fun c => match dict_get c [(old, new)] with Some n => n | None => c end) l
  = l.
Proof.
  intros H. rewrite <- (map_id l) at 2. apply map_ext_in. intros c Hc. simpl.
  destruct (str_eqb old c) eqn:E; [|reflexivity].
  apply str_eqb_eq in E. subst c. contradiction.
Qed.

(** The projection of lines 144-149 on a table with pairwise distinct
    labels, for value columns that are columns of the table and differ
    from the SOC column and from the label SOC Code. *)
Lemma wide_projection_rows df soc_col value_cols :
  NoDup (columns df) ->
  In soc_col (columns df) ->
  (forall h, In h value_cols -> In h (columns df)) ->
  ~ In soc_col value_cols ->
  ~ In (py "SOC Code") value_cols ->
  length value_cols = length VALUE_COLS_CANON ->
  wide_projection df soc_col value_cols
  = Ok (mkDF (py "SOC Code" :: VALUE_COLS_CANON)
             (map (fun r =>
                     CStr (norm_soc (get (columns df) r soc_col))
                     :: map (get (columns df) r) value_cols)
                  (rows df))).
Proof.
  intros ND Hsoc Hvc Hns Hnl Hlen. unfold wide_projection. cbv zeta.
  rewrite select_distinct; [|assumption|].
  2:{ intros l [<-|Hl]; [assumption|now apply Hvc]. }
  unfold bind, rename, series. cbn [columns rows map].
  replace (match dict_get soc_col [(soc_col, py "SOC Code")] with
           | Some n => n | None => soc_col end) with (py "SOC Code")
    by (simpl; now rewrite str_eqb_refl).
  rewrite (rename_other soc_col (py "SOC Code") value_cols Hns).
  assert (Hpos : position (py "SOC Code" :: value_cols) (py "SOC Code") = Ok 0).
  { unfold position, positions. cbn [positions_from].
    rewrite str_eqb_refl, (positions_from_notin _ _ _ Hnl). reflexivity. }
  rewrite Hpos. unfold bind. cbn [columns rows].
  unfold set_column. cbn [columns rows].
  replace (mem (py "SOC Code") (py "SOC Code" :: value_cols)) with true
    by (symmetry; apply mem_In; now left).
  unfold assign_columns. cbn [columns rows length].
  rewrite Hlen, Nat.eqb_refl. do 2 f_equal.
  rewrite !map_map, combine_map_map, map_map. apply map_ext. intros r.
  cbn [fst snd map set_cells cell_at nth]. rewrite str_eqb_refl. f_equal.
  now apply set_cells_notin.
Qed.

Lemma resolve_value_cols_length headers vs vc :
  resolve_value_cols headers vs = Some vc -> length vc = length vs.
Proof.
  revert vc. induction vs as [|v t IH]; intros vc; simpl.
  - now intros [= <-].
  - destruct (_find_value_col headers (aliases_of v)); [|discriminate].
    destruct (resolve_value_cols headers t) as [l|]; [|discriminate].
    intros [= <-]. simpl. f_equal. now apply IH.
Qed.

Lemma resolve_soc_col_In cols c : resolve_soc_col cols = Ok c -> In c cols.
Proof.
  unfold resolve_soc_col.
  destruct (_col_like cols soc_opts) as [c'|] eqn:E.
  - intros [= <-]. unfold _col_like in E. now apply find_some in E.
  - destruct (find _ cols) as [c'|] eqn:F; [|discriminate].
    intros [= <-]. now apply find_some in F.
Qed.

(** X9: a table with pairwise distinct headers in which each of the six
    value names resolves to a column other than the SOC column is loaded
    as WIDE: every row gives its normalised SOC code followed by the
    cells of the six resolved columns, unchanged and in the canonical
    order of the value names, under the canonical labels; of the rows
    with one SOC code the first stays. *)
Theorem load_wide_table
        (to_datetime : list cell -> list (option Z)) (upcast : cell -> cell)
        (raw : DataFrame)
        (soc_col : str) (value_cols : list str) :
  NoDup (map strip (columns raw)) ->
  resolve_soc_col (map strip (columns raw)) = Ok soc_col ->
  resolve_value_cols (canon_headers (map strip (columns raw))) VALUE_COLS_CANON
  = Some value_cols ->
  ~ In soc_col value_cols ->
  load_onet_values to_datetime upcast raw
  = Ok (mkDF (py "SOC Code" :: VALUE_COLS_CANON)
             (dedup_first
                (cell_at 0) []
                (map (fun r =>
                        CStr (norm_soc (get (map strip (columns raw)) r soc_col))
                        :: map (get (map strip (columns raw)) r) value_cols)
                     (rows raw)))).
Proof.
  intros ND Hsoc Hvc Hns. unfold load_onet_values. cbv zeta. cbn [columns].
  rewrite Hsoc. unfold bind. rewrite Hvc. unfold load_wide.
  pose proof (resolve_value_cols_hits _ _ _ Hvc) as Hhits.
  rewrite (wide_projection_rows
             (mkDF (map strip (columns raw)) (rows raw)) soc_col value_cols).
  - unfold bind. now rewrite drop_duplicates_canonical.
  - exact ND.
  - now apply resolve_soc_col_In.
  - intros h Hh. cbn [columns].
    destruct (Forall2_In_r _ _ _ _ Hhits Hh) as [v [_ [Hin _]]]. exact Hin.
  - exact Hns.
  - intros Hin.
    destruct (Forall2_In_r _ _ _ _ Hhits Hin) as [v [Hv [_ [a [Ha Hc]]]]].
    rewrite (soc_label_has_no_alias v a Hv Ha) in Hc. discriminate.
  - now apply resolve_value_cols_length in Hvc.
Qed.

End WideTable.

Lemma load_wide_table_witness :
  load_onet_values (map iso_day) as_float64 Sample.raw_wide
  = Ok (mkDF (py "SOC Code" :: VALUE_COLS_CANON)
             (dedup_first
                (cell_at 0) []
                (map (fun r =>
                        CStr (norm_soc
                                (get (map strip (columns Sample.raw_wide)) r
                                     (py "SOC Code")))
                        :: map (get (map strip (columns Sample.raw_wide)) r)
                               VALUE_COLS_CANON)
                     (rows Sample.raw_wide)))).
Proof.
  apply load_wide_table.
  - apply distinct_NoDup. reflexivity.
  - reflexivity.
  - reflexivity.
  - exact soc_label_not_a_value.
Defined.

(** ** Loading a LONG table *)

Section LongTable.

Variable to_datetime : list cell -> list (option Z).
Variable upcast : cell -> cell.
Variable promote : nat -> cell -> cell.

Lemma flat_map_nil {A B} (f : A -> list B) l :
  (forall x, In x l -> f x = []) -> flat_map f l = [].
Proof.
  induction l as [|x t IH]; intros H; simpl; [reflexivity|].
  rewrite (H x (or_introl eq_refl)). apply IH. intros y Hy. apply H. now right.
Qed.

Lemma cell_at_unmapped i r :
  (forall c, In c r -> dict_get (_canon (py_str c)) alias_to_value = None) ->
  dict_get (_canon (py_str (cell_at i r))) alias_to_value = None.
Proof.
  intros H. unfold cell_at.
  destruct (nth_in_or_default i r CNull) as [Hin | ->];
    [now apply H|reflexivity].
Qed.

Lemma long_rows_unmapped onet_df soc_col :
  (forall r c, In r (rows onet_df) -> In c r ->
               dict_get (_canon (py_str c)) alias_to_value = None) ->
  exists e, long_rows onet_df soc_col = Raise e.
Proof.
  intros H. unfold long_rows.
  destruct (_col_like (columns onet_df) [py "Element Name"]);
    [|now exists KeyError].
  destruct (_col_like (columns onet_df) [py "Data Value"]);
    [|now exists KeyError].
  cbv zeta. unfold bind.
  destruct (position _ (py "SOC Code")) as [i_soc|e]; [|now exists e].
  destruct (position _ (py "Element Name")) as [i_elem|e]; [|now exists e].
  rewrite flat_map_nil; [now exists KeyError|].
  intros r Hr. cbn [rename rows] in Hr.
  now rewrite (cell_at_unmapped i_elem r (fun c => H r c Hr)).
Qed.

(** X10: a reference table that is not WIDE and in which no cell names one
    of the six values is not loaded: the loader raises, whatever its
    columns are, and no run of [main] on it writes a table. *)
Theorem load_fails_without_value_names (raw : DataFrame) :
  resolve_value_cols (canon_headers (map strip (columns raw))) VALUE_COLS_CANON
  = None ->
  (forall r c, In r (rows raw) -> In c r ->
               dict_get (_canon (py_str c)) alias_to_value = None) ->
  (exists e, load_onet_values to_datetime upcast raw = Raise e)
  /\ forall in_raw out, main to_datetime upcast promote in_raw raw <> Saved out.
Proof.
  intros Hvc Hrows.
  assert (Hload : exists e, load_onet_values to_datetime upcast raw = Raise e).
  { unfold load_onet_values. cbv zeta. cbn [columns].
    destruct (resolve_soc_col (map strip (columns raw))) as [soc_col|e];
      [|now exists e].
    unfold bind. rewrite Hvc. unfold load_long.
    destruct (long_rows_unmapped (mkDF (map strip (columns raw)) (rows raw))
                                 soc_col Hrows) as [e He].
    rewrite He. now exists e. }
  split; [assumption|].
  intros in_raw out. unfold main, main_with. cbv zeta.
  destruct (find_col _ soc_opts_in); [|discriminate].
  destruct (standardize _ _); [|discriminate].
  destruct Hload as [e ->]. discriminate.
Qed.

Lemma group_tail_distinct l :
  forall l1 x l2,
    group_tail l = l1 ++ x :: l2 ->
    forall y, In y l2 -> same_group (fst x) (fst y) = false.
Proof.
  induction l as [|r t IH]; intros l1 x l2; simpl.
  - destruct l1; discriminate.
  - destruct (existsb (fun r' => same_group (fst r) (fst r')) t) eqn:E;
      [apply IH|].
    destruct l1 as [|z l1]; simpl; intros H.
    + assert (Hx : r = x) by congruence.
      assert (Hl : group_tail t = l2) by congruence. subst x l2.
      intros y Hy. apply group_tail_incl in Hy.
      destruct (same_group (fst r) (fst y)) eqn:Ey; [|reflexivity].
      rewrite <- E. symmetry. apply existsb_exists. now exists y.
    + apply (IH l1 x l2). congruence.
Qed.

Lemma with_dates_covers df ds r :
  In r df -> exists d, In (r, d) (with_dates df ds).
Proof.
  revert ds. induction df as [|x t IH]; intros ds; [intros []|].
  intros [<-|Hr]; simpl.
  - exists (hd None ds). now left.
  - destruct (IH (tl ds) Hr) as [d Hd]. exists d. now right.
Qed.

(** X11: the date step keeps one row for every group of SOC code and
    value name: the rows it keeps are rows of the frame, every row of the
    frame has a kept row of its group, and no two kept rows are of one
    group. *)
Theorem keep_latest_one_per_group (df : list LongRow) :
  (forall x, In x (keep_latest to_datetime df) -> In x df)
  /\ (forall y, In y df ->
      exists x, In x (keep_latest to_datetime df) /\ same_group y x = true)
  /\ (forall l1 x l2,
        keep_latest to_datetime df = l1 ++ x :: l2 ->
        forall y, In y l2 -> same_group x y = false).
Proof.
  split; [intros x; apply keep_latest_incl|]. split.
  - intros y Hy. unfold keep_latest. cbv zeta.
    destruct (with_dates_covers df (to_datetime (map date df)) y Hy) as [d Hd].
    apply (Permutation_in _ (Permutation_sym (stable_sort_perm row_leb _)))
      in Hd.
    destruct (group_tail_covers _ _ Hd) as [x [Hx Hg]].
    exists (fst x). split; [now apply in_map|exact Hg].
  - unfold keep_latest. cbv zeta. intros l1 x l2 H y Hy.
    apply map_eq_app in H. destruct H as [k1 [k2 [Hk [_ H2]]]].
    apply map_eq_cons in H2. destruct H2 as [x' [k3 [-> [<- <-]]]].
    apply in_map_iff in Hy. destruct Hy as [y' [<- Hy']].
    exact (group_tail_distinct _ _ _ _ Hk y' Hy').
Qed.

(** X12: the row that the date step keeps for a group is, among the rows
    of the group, greatest in the order of the sort, dates ascending with
    the missing dates last; and it is the last such row of the frame: the
    rows of the group after it come strictly before it in that order. *)
Theorem keep_latest_survivor (df : list LongRow) (x : LongRow) :
  In x (keep_latest to_datetime df) ->
  exists d,
    (forall y e,
       In (y, e) (with_dates df (to_datetime (map date df))) ->
       same_group x y = true -> date_leb e d = true)
    /\ exists l1 l2,
         with_dates df (to_datetime (map date df)) = l1 ++ (x, d) :: l2
         /\ forall y e, In (y, e) l2 -> same_group x y = true ->
                        date_leb d e = false.
Proof.
  unfold keep_latest. cbv zeta. intros H. apply in_map_iff in H.
  destruct H as [[x' d] [Hx Hin]]. cbn [fst] in Hx. subst x'.
  destruct (keep_latest_dated_group _ _ Hin) as [Hmax [l1 [l2 [Hsplit Hlast]]]].
  exists d. split.
  - intros y e Hy Hg. exact (Hmax (y, e) Hy Hg).
  - exists l1, l2. split; [assumption|].
    intros y e Hy Hg. exact (Hlast (y, e) Hy Hg).
Qed.

End LongTable.

Lemma load_fails_without_value_names_witness :
  exists e,
    load_onet_values (map iso_day) as_float64
      (mkDF (map py ["SOC Code"; "Element Name"; "Data Value"]%string)
            [[Sample.s "15-1251"; Sample.s "Reading"; Sample.n "3.5"]])
    = Raise e.
Proof.
  apply (load_fails_without_value_names (map iso_day) as_float64
                                        Sample.promote).
  - reflexivity.
  - intros r c [<-|[]] [<-|[<-|[<-|[]]]]; reflexivity.
Defined.

Lemma keep_latest_one_per_group_witness :
  exists x,
    In x (keep_latest (map iso_day) [Sample.older; Sample.newer])
    /\ same_group Sample.older x = true.
Proof.
  apply (proj1 (proj2 (keep_latest_one_per_group (map iso_day)
                         [Sample.older; Sample.newer]))).
  now left.
Defined.

Lemma keep_latest_survivor_witness :
  exists d,
    (forall y e,
       In (y, e) (with_dates [Sample.newer; Sample.older]
                             (map iso_day (map date [Sample.newer; Sample.older]))) ->
       same_group Sample.newer y = true -> date_leb e d = true)
    /\ exists l1 l2,
         with_dates [Sample.newer; Sample.older]
                    (map iso_day (map date [Sample.newer; Sample.older]))
         = l1 ++ (Sample.newer, d) :: l2
         /\ forall y e, In (y, e) l2 -> same_group Sample.newer y = true ->
                        date_leb d e = false.
Proof.
  apply (keep_latest_survivor (map iso_day)). now left.
Defined.

(** ** The rows of a LONG table after the pivot *)

Section PivotRows.

Variable to_datetime : list cell -> list (option Z).
Variable upcast : cell -> cell.

(** The rows that have a value in their group. *)
Lemma live_row df r :
  In r df ->
  (notna (group_last df (soc_code r) (target_value r)) = true
   <-> exists r',
         In r' df /\ same_group r r' = true /\ data_value r' <> CNull).
Proof.
  intros Hr.
  pose proof (group_last_spec df (soc_code r) (target_value r)) as H.
  unfold last_value_of_group in H. cbv zeta in H.
  destruct H as [[E F]|[l1 [r' [l2 [Hg [Hv [Hc _]]]]]]].
  - rewrite E. split; [discriminate|].
    intros [r' [Hin [Hsame Hval]]]. exfalso. apply Hval.
    rewrite Forall_forall in F. apply F. apply filter_In.
    split; [assumption|]. unfold same_group in Hsame.
    apply andb_true_iff in Hsame. destruct Hsame as [H1 H2].
    apply str_eqb_eq in H1. apply str_eqb_eq in H2.
    now rewrite <- H1, <- H2, !str_eqb_refl.
  - split.
    + intros _. exists r'.
      assert (Hin : In r' (filter (fun x => str_eqb (soc_code x) (soc_code r)
                                           && str_eqb (target_value x)
                                                      (target_value r)) df)).
      { rewrite Hg. apply in_or_app. right. now left. }
      apply filter_In in Hin. destruct Hin as [Hin Hk].
      split; [assumption|]. split; [|congruence].
      apply andb_true_iff in Hk. destruct Hk as [H1 H2].
      apply str_eqb_eq in H1. apply str_eqb_eq in H2.
      unfold same_group. now rewrite H1, H2, !str_eqb_refl.
    + intros _.
      destruct (group_last df (soc_code r) (target_value r));
        [reflexivity|congruence|reflexivity].
Qed.

Lemma str_leb_trans a b c :
  str_leb a b = true -> str_leb b c = true -> str_leb a c = true.
Proof.
  unfold str_leb. rewrite !negb_true_iff. intros Hba Hcb.
  destruct (str_ltb c a) eqn:Hca; [|reflexivity].
  destruct (list_eq_dec ascii_dec a b) as [->|Hne]; [congruence|].
  assert (Hab : str_ltb a b = true)
    by (apply str_ltb_total; [assumption|congruence]).
  rewrite (str_ltb_trans _ _ _ Hca Hab) in Hcb. discriminate.
Qed.

Lemma str_leb_total a b : str_leb a b = false -> str_leb b a = true.
Proof.
  unfold str_leb. rewrite negb_false_iff, negb_true_iff. intros Hba.
  destruct (str_ltb a b) eqn:Hab; [|reflexivity].
  pose proof (str_ltb_trans _ _ _ Hab Hba) as H.
  rewrite str_ltb_irrefl in H. discriminate.
Qed.

Lemma sorted_unique_sorted l :
  StronglySorted (fun a b => str_ltb a b = true) (sorted_unique l).
Proof.
  assert (Hs : forall u, StronglySorted (fun a b => str_leb a b = true)
                                        (stable_sort str_leb u)).
  { induction u as [|x t IH]; simpl; [constructor|].
    induction IH as [|y s Hs IHs Hy]; simpl; [repeat constructor|].
    destruct (str_leb x y) eqn:E.
    - constructor; [now constructor|]. constructor; [assumption|].
      rewrite Forall_forall in *. intros z Hz.
      eapply str_leb_trans; [exact E|now apply Hy].
    - constructor; [assumption|].
      apply (Permutation_Forall
               (Permutation_sym (insert_sorted_perm str_leb x s))).
      constructor; [now apply str_leb_total|assumption]. }
  pose proof (sorted_unique_NoDup l) as ND. unfold sorted_unique in *.
  specialize (Hs (unique l)).
  induction Hs as [|x s Hs IH Hx]; [constructor|].
  inversion ND as [|? ? Hnot NDs]; subst.
  constructor; [now apply IH|].
  rewrite Forall_forall in *. intros y Hy. specialize (Hx y Hy).
  unfold str_leb in Hx. apply negb_true_iff in Hx.
  apply str_ltb_total; [assumption|]. intros ->. contradiction.
Qed.

(** X13: the table that the LONG path returns has one row for every SOC
    code that has, among the rows left by the scale and date steps, a row
    with a value, and for no other SOC code: a SOC code whose values are
    all missing is not in the reference table.  The rows come in strictly
    ascending order of the SOC codes. *)
Theorem long_table_soc_codes (labels : list str) (df : list LongRow)
        (out : DataFrame) :
  (forall r, In r df -> In (target_value r) VALUE_COLS_CANON) ->
  long_to_wide to_datetime upcast labels df = Ok out ->
  exists index,
    map (cell_at 0) (rows out) = map CStr index
    /\ StronglySorted (fun a b => str_ltb a b = true) index
    /\ forall s,
         In s index
         <-> exists r,
               In r (date_step to_datetime labels (scale_step labels df))
               /\ soc_code r = s /\ data_value r <> CNull.
Proof.
  intros Htarget. unfold long_to_wide. cbv zeta.
  set (surv := date_step to_datetime labels (scale_step labels df)).
  assert (Hsurv : forall r, In r surv -> In (target_value r) VALUE_COLS_CANON).
  { intros r Hr. apply Htarget.
    eapply scale_step_incl, date_step_incl; eassumption. }
  rewrite (pivot_ensure_select upcast surv Hsurv). unfold bind.
  rewrite drop_duplicates_canonical. intros [= <-]. cbn [rows].
  set (index := pivot_index surv).
  exists index. split; [|split].
  - rewrite dedup_first_id; [|rewrite map_map; cbn [cell_at nth];
                               apply NoDup_map_CStr, sorted_unique_NoDup|tauto].
    now rewrite map_map.
  - apply sorted_unique_sorted.
  - intros s. unfold index, pivot_index, pivot_live.
    rewrite sorted_unique_In, in_map_iff. split.
    + intros [r [<- Hr]]. apply filter_In in Hr. destruct Hr as [Hin Hlive].
      apply (live_row surv r Hin) in Hlive.
      destruct Hlive as [r' [Hin' [Hsame Hval]]]. exists r'.
      split; [assumption|]. split; [|assumption].
      unfold same_group in Hsame. apply andb_true_iff in Hsame.
      destruct Hsame as [H1 _]. apply str_eqb_eq in H1. now symmetry.
    + intros [r [Hin [<- Hval]]]. exists r. split; [reflexivity|].
      apply filter_In. split; [assumption|].
      apply (live_row surv r Hin). exists r.
      split; [assumption|]. split; [apply same_group_refl|assumption].
Qed.

End PivotRows.

Lemma long_table_soc_codes_witness :
  exists index,
    map (cell_at 0)
        [[Sample.s "15-1251"; Sample.n "4.5"; CNull; CNull; CNull; CNull; CNull]]
    = map CStr index
    /\ StronglySorted (fun a b => str_ltb a b = true) index
    /\ forall s,
         In s index
         <-> exists r,
               In r (date_step (map iso_day) Sample.long_labels
                       (scale_step Sample.long_labels
                                   [Sample.newer; Sample.level; Sample.older]))
               /\ soc_code r = s /\ data_value r <> CNull.
Proof.
  apply (long_table_soc_codes
           (map iso_day) as_float64 Sample.long_labels
           [Sample.newer; Sample.level; Sample.older]
           (mkDF (py "SOC Code" :: VALUE_COLS_CANON)
                 [[Sample.s "15-1251"; Sample.n "4.5";
                   CNull; CNull; CNull; CNull; CNull]])).
  - intros r [<-|[<-|[<-|[]]]]; now left.
  - vm_compute. reflexivity.
Defined.

(** ** Matched rows of the merge *)

Section MatchedRows.

Lemma find_unique_key (key : list cell -> cell) rws r :
  is_unique (map key rws) = true -> In r rws ->
  find (fun x => cell_eqb (key x) (key r)) rws = Some r.
Proof.
  induction rws as [|x t IH]; intros Hu Hin; [destruct Hin|].
  simpl in Hu. apply andb_true_iff in Hu. destruct Hu as [Hx Hu].
  apply negb_true_iff in Hx. simpl.
  destruct (cell_eqb (key x) (key r)) eqn:E.
  - destruct Hin as [->|Hin]; [reflexivity|].
    exfalso. apply cell_eqb_eq in E.
    assert (Hex : existsb (cell_eqb (key x)) (map key t) = true).
    { apply existsb_cell_In. rewrite E. now apply in_map. }
    congruence.
  - destruct Hin as [->|Hin]; [now rewrite cell_eqb_refl in E|now apply IH].
Qed.

Lemma positions_from_nil k label cols :
  positions_from k label cols = [] -> ~ In label cols.
Proof.
  revert k. induction cols as [|c t IH]; intros k; simpl; [tauto|].
  destruct (str_eqb c label) eqn:E; [discriminate|].
  simpl. intros H [Hc|Hin].
  - subst c. now rewrite str_eqb_refl in E.
  - exact (IH _ H Hin).
Qed.

(** The only column that carries a label is gone once its position is
    removed. *)
Lemma position_removed cols label i :
  position cols label = Ok i ->
  nth_error cols i = Some label /\ ~ In label (remove_nth i cols).
Proof.
  unfold position, positions.
  assert (G : forall k j,
            positions_from k label cols = [j] ->
            k <= j /\ nth_error cols (j - k) = Some label
            /\ ~ In label (remove_nth (j - k) cols)).
  { induction cols as [|c t IH]; intros k j; simpl; [discriminate|].
    destruct (str_eqb c label) eqn:E; simpl.
    - intros H. injection H as <- Hrest. rewrite Nat.sub_diag. simpl.
      apply str_eqb_eq in E. subst c.
      split; [lia|]. split; [reflexivity|]. now apply positions_from_nil in Hrest.
    - intros H. destruct (IH (S k) j H) as [Hle [Hn Hr]].
      replace (j - k) with (S (j - S k)) by lia. simpl.
      split; [lia|]. split; [assumption|].
      intros [Hc|Hin]; [subst c; now rewrite str_eqb_refl in E|contradiction]. }
  destruct (positions_from 0 label cols) as [|j [|? ?]] eqn:E; try discriminate.
  intros [= <-]. destruct (G 0 j E) as [_ H]. now rewrite Nat.sub_0_r in H.
Qed.

Lemma remove_nth_incl {A} i (l : list A) x : In x (remove_nth i l) -> In x l.
Proof.
  revert i. induction l as [|y t IH]; intros [|i]; simpl; try tauto.
  intros [H|H]; [now left|right; eapply IH; eassumption].
Qed.

Lemma get_app_right cols x r y v :
  ~ In v cols -> length r = length cols ->
  get (cols ++ x) (r ++ y) v = get x y v.
Proof.
  revert r. induction cols as [|c t IH]; intros r Hv Hlen.
  - destruct r; [reflexivity|discriminate].
  - destruct r as [|z r]; [discriminate|]. simpl app. rewrite get_cons.
    destruct (str_eqb c v) eqn:E.
    + apply str_eqb_eq in E. subst c. exfalso. apply Hv. now left.
    + apply IH; [|simpl in Hlen; lia]. intros Hin. apply Hv. now right.
Qed.

Lemma get_remove_nth cols r i k v :
  length r = length cols -> nth_error cols i = Some k -> v <> k ->
  get (remove_nth i cols) (remove_nth i r) v = get cols r v.
Proof.
  revert r i. induction cols as [|c t IH]; intros r i Hlen Hn Hv.
  - destruct i; discriminate.
  - destruct r as [|x r]; [discriminate|]. rewrite get_cons.
    destruct i as [|i]; simpl in Hn |- *.
    + injection Hn as ->.
      destruct (str_eqb k v) eqn:E; [|reflexivity].
      apply str_eqb_eq in E. congruence.
    + rewrite get_cons. destruct (str_eqb c v); [reflexivity|].
      apply IH; [simpl in Hlen; lia|assumption..].
Qed.

Lemma made_duplicate_same seen cols :
  made_duplicate seen seen cols cols = false.
Proof.
  revert seen. induction cols as [|c t IH]; intros seen; [reflexivity|].
  simpl. rewrite IH, orb_false_r. now destruct (mem c seen).
Qed.

(** Without a common label the suffix changes nothing and makes no label
    twice. *)
Lemma suffix_clash_apart lcols rcols :
  (forall c, In c rcols -> ~ In c lcols) ->
  suffix_clash lcols rcols rcols = false.
Proof.
  intros Hout. unfold suffix_clash.
  rewrite made_duplicate_same, orb_false_r.
  destruct (existsb _ rcols) eqn:E; [|reflexivity].
  apply existsb_exists in E. destruct E as [l [Hl Hc]].
  apply andb_true_iff in Hc. destruct Hc as [Hc _].
  apply mem_In in Hc. now apply Hout in Hl.
Qed.

Lemma remove_nth_keeps {A} i (l : list A) x k :
  nth_error l i = Some k -> x <> k -> In x l -> In x (remove_nth i l).
Proof.
  revert i. induction l as [|y t IH]; intros [|i] Hn Hx Hin; simpl in *;
    try tauto.
  - injection Hn as ->. destruct Hin as [->|Hin]; [contradiction|assumption].
  - destruct Hin as [->|Hin]; [now left|right; now apply IH].
Qed.

Lemma cell_at_promoted promote k i cells :
  cell_at i (promoted promote k cells)
  = cast_cell (promote (k + i)) (cell_at i cells).
Proof.
  revert k i. induction cells as [|c t IH]; intros k i.
  - unfold cell_at. now destruct i.
  - destruct i as [|i]; simpl.
    + now rewrite Nat.add_0_r.
    + unfold cell_at in *. simpl. rewrite IH. f_equal. f_equal. lia.
Qed.

(** A label of the table has a first position. *)
Lemma first_position (cols : list str) v :
  In v cols ->
  exists j t, positions v cols = j :: t /\ nth_error cols j = Some v.
Proof.
  intros Hin. destruct (positions v cols) as [|j t] eqn:E.
  - exfalso. unfold positions in E. now apply positions_from_nil in E.
  - exists j, t. split; [reflexivity|].
    assert (Hj : In j (positions v cols)) by (rewrite E; now left).
    pose proof (positions_from_ge _ _ _ _ Hj) as Hlt.
    apply positions_nth in Hj. rewrite <- Hj.
    apply nth_error_nth'. lia.
Qed.

(** X14: when the SOC codes are texts on both sides and no label of the
    reference table but the key is a label of the input table, the merge
    succeeds, and an input row whose SOC code is the code of a reference
    row comes out, at its place, followed by the cells of that reference
    row, each under its own label: as they are when every input row has a
    reference row, and cast as their columns are (an int of an int64
    column shown as a float) when some input row has none. *)
Theorem merge_matched_rows
        (promote : nat -> cell -> cell) (in_df onet_df : DataFrame)
        (il ir : nat) :
  rectangular in_df ->
  rectangular onet_df ->
  position (columns in_df) (py "SOC Code") = Ok il ->
  position (columns onet_df) (py "SOC Code") = Ok ir ->
  texts_at il in_df ->
  texts_at ir onet_df ->
  is_unique (map (cell_at ir) (rows onet_df)) = true ->
  (forall c, In c (columns onet_df) -> In c (columns in_df) ->
             c = py "SOC Code") ->
  exists merged,
    merge_step promote in_df onet_df = Ok merged
    /\ forall i l r,
         nth_error (rows in_df) i = Some l ->
         In r (rows onet_df) ->
         cell_at ir r = cell_at il l ->
         exists taken,
           nth_error (rows merged) i = Some (l ++ taken)
           /\ columns merged = columns in_df ++ remove_nth ir (columns onet_df)
           /\ taken = (if all_matched il ir in_df onet_df
                       then remove_nth ir r
                       else promoted promote 0 (remove_nth ir r))
           /\ forall v,
                v <> py "SOC Code" -> In v (columns onet_df) ->
                exists j,
                  nth_error (remove_nth ir (columns onet_df)) j = Some v
                  /\ get (columns merged) (l ++ taken) v
                     = if all_matched il ir in_df onet_df
                       then get (columns onet_df) r v
                       else cast_cell (promote j) (get (columns onet_df) r v).
Proof.
  intros Hrect Hrect' Hl Hr _ _ Hu Hclash.
  destruct (position_removed _ _ _ Hr) as [Hkey Hgone].
  assert (Hout : forall c, In c (remove_nth ir (columns onet_df)) ->
                           ~ In c (columns in_df)).
  { intros c Hc Hin.
    rewrite (Hclash c (remove_nth_incl _ _ _ Hc) Hin) in Hc. contradiction. }
  assert (Hlabels :
            map (fun c => if mem c (columns in_df) then c ++ py "_ONET" else c)
                (remove_nth ir (columns onet_df))
            = remove_nth ir (columns onet_df)).
  { rewrite <- (map_id (remove_nth ir (columns onet_df))) at 2.
    apply map_ext_in. intros c Hc.
    destruct (mem c (columns in_df)) eqn:E; [|reflexivity].
    apply mem_In in E. now apply Hout in Hc. }
  unfold merge_step, merge_left_m1. rewrite Hl, Hr. unfold bind. rewrite Hu.
  cbv zeta. rewrite Hlabels, (suffix_clash_apart _ _ Hout).
  destruct (rows in_df) as [|l0 t] eqn:Erows.
  { eexists. split; [reflexivity|]. intros [|i] l r Hi; discriminate. }
  rewrite <- Erows in *. eexists. split; [reflexivity|]. cbn [columns rows].
  intros i l r Hi Hin Hk.
  assert (Hfind : matching_row il ir onet_df l = Some r).
  { unfold matching_row. rewrite <- Hk.
    exact (find_unique_key (cell_at ir) _ r Hu Hin). }
  assert (Hlen : length l = length (columns in_df)).
  { unfold rectangular in Hrect. rewrite Forall_forall in Hrect.
    apply Hrect. eapply nth_error_In; eassumption. }
  assert (Hlen' : length r = length (columns onet_df)).
  { unfold rectangular in Hrect'. rewrite Forall_forall in Hrect'.
    now apply Hrect'. }
  eexists. split.
  { erewrite map_nth_error by eassumption. unfold merged_row.
    rewrite Hfind. reflexivity. }
  split; [reflexivity|]. split; [reflexivity|].
  intros v Hv Hvin.
  assert (Hvr : In v (remove_nth ir (columns onet_df))).
  { apply (remove_nth_keeps _ _ _ (py "SOC Code")); assumption. }
  destruct (first_position _ _ Hvr) as [j [t' [Epos Hj]]].
  exists j. split; [exact Hj|].
  assert (Hget : forall cells,
            get (remove_nth ir (columns onet_df)) cells v = cell_at j cells)
    by (intros cells; unfold get; now rewrite Epos).
  rewrite get_app_right; [|now apply Hout|assumption].
  destruct (all_matched il ir in_df onet_df).
  - now apply get_remove_nth with (k := py "SOC Code").
  - rewrite Hget, cell_at_promoted, <- Hget. cbn [Nat.add]. f_equal.
    now apply get_remove_nth with (k := py "SOC Code").
Qed.

Lemma merge_matched_rows_witness :
  exists merged,
    merge_step Sample.promote Sample.jobs Sample.reference = Ok merged
    /\ nth_error (rows merged) 0
       = Some (nth 0 (rows Sample.jobs) []
               ++ [Sample.n "1.0"; Sample.n "2.0"; Sample.n "3.0";
                   Sample.n "4.0"; Sample.n "5.0"; Sample.n "6.0"]).
Proof.
  destruct (merge_matched_rows Sample.promote Sample.jobs Sample.reference 2 0)
    as [merged [Hm Hrows]].
  - repeat constructor.
  - repeat constructor.
  - reflexivity.
  - reflexivity.
  - intros r [<-|[<-|[]]]; eexists; reflexivity.
  - intros r [<-|[]]; eexists; reflexivity.
  - reflexivity.
  - intros c Hc Hin. apply mem_In in Hin.
    destruct Hc as [<-|Hc]; [reflexivity|].
    repeat (destruct Hc as [<-|Hc]; [vm_compute in Hin; discriminate|]).
    destruct Hc.
  - exists merged. split; [exact Hm|].
    destruct (Hrows 0 (nth 0 (rows Sample.jobs) [])
                    (nth 0 (rows Sample.reference) [])
                    eq_refl (or_introl eq_refl) eq_refl)
      as [taken [Hrow [_ [-> _]]]].
    exact Hrow.
Defined.

Lemma NoDup_is_unique l : NoDup l -> is_unique l = true.
Proof.
  induction 1 as [|x t Hx _ IH]; simpl; [reflexivity|].
  rewrite IH, andb_true_r. apply negb_true_iff.
  destruct (existsb (cell_eqb x) t) eqn:E; [|reflexivity].
  apply existsb_cell_In in E. contradiction.
Qed.

(** What every table returned by the loader has: the seven labels, and no
    SOC code twice. *)
Lemma load_onet_values_keys to_datetime upcast raw out :
  load_onet_values to_datetime upcast raw = Ok out ->
  columns out = py "SOC Code" :: VALUE_COLS_CANON
  /\ NoDup (map (cell_at 0) (rows out)).
Proof.
  unfold load_onet_values, bind. cbn [columns].
  destruct (resolve_soc_col (map strip (columns raw))) as [soc_col|];
    [|discriminate].
  assert (Hlong : load_long to_datetime upcast
                            (mkDF (map strip (columns raw)) (rows raw)) soc_col
                  = Ok out ->
                  columns out = py "SOC Code" :: VALUE_COLS_CANON
                  /\ NoDup (map (cell_at 0) (rows out))).
  { intros H. destruct (load_long_spec _ _ _ _ _ H) as [Hc [ND _]]. now split. }
  destruct (resolve_value_cols _ VALUE_COLS_CANON) as [value_cols|];
    [|exact Hlong].
  destruct (load_wide _ soc_col value_cols) as [wide|e] eqn:E.
  - intros [= ->]. destruct (load_wide_spec _ _ _ _ E) as [proj [_ [Hc Hr]]].
    split; [assumption|]. rewrite Hr. apply dedup_first_keys.
  - destruct e; [exact Hlong|discriminate..].
Qed.

(** X15: on a table that the loader returned, and for any input table
    with one SOC Code column that holds texts, the merge fails in one
    case only: the input table has one of the six value names together
    with the same name followed by _ONET, and the merge raises MergeError
    then.  The many-to-one check always passes; without such a pair of
    labels the merged table has one row for each input row. *)
Theorem loaded_table_merges_unless_clash
        (to_datetime : list cell -> list (option Z)) (upcast : cell -> cell)
        (promote : nat -> cell -> cell)
        (raw onet_df in_df : DataFrame) (il : nat) :
  load_onet_values to_datetime upcast raw = Ok onet_df ->
  position (columns in_df) (py "SOC Code") = Ok il ->
  texts_at il in_df ->
  (merge_step promote in_df onet_df = Raise MergeError
   <-> exists v, In v VALUE_COLS_CANON /\ In v (columns in_df)
                 /\ In (v ++ py "_ONET") (columns in_df))
  /\ (forall e, merge_step promote in_df onet_df = Raise e -> e = MergeError)
  /\ ((forall v, In v VALUE_COLS_CANON -> In v (columns in_df) ->
                 ~ In (v ++ py "_ONET") (columns in_df)) ->
      exists merged,
        merge_step promote in_df onet_df = Ok merged
        /\ length (rows merged) = length (rows in_df)).
Proof.
  intros Hload Hl _.
  destruct (load_onet_values_keys _ _ _ _ Hload) as [Hc ND].
  rewrite (merge_step_values promote in_df onet_df il Hc Hl). cbv zeta.
  rewrite (NoDup_is_unique _ ND). split; [|split].
  - rewrite <- value_clash_iff.
    destruct (suffix_clash _ _ _); [tauto|].
    split; [|discriminate]. destruct (rows in_df); discriminate.
  - intros e. destruct (suffix_clash _ _ _); [now intros [= <-]|].
    destruct (rows in_df); discriminate.
  - intros Hfree. rewrite (value_clash_free _ Hfree).
    destruct (rows in_df) as [|l0 t] eqn:Erows.
    + eexists. split; reflexivity.
    + eexists. split; [reflexivity|]. cbn [rows]. apply length_map.
Qed.

Lemma loaded_table_merges_unless_clash_witness :
  merge_step Sample.promote
             (mkDF (map py ["SOC Code"; "Support"; "Support_ONET"]%string)
                   [[Sample.s "13-1081"; Sample.n "4"; Sample.n "5"]])
             (mkDF (py "SOC Code" :: VALUE_COLS_CANON)
                   [[Sample.s "13-1081"; Sample.n "1"; Sample.n "2";
                     Sample.n "3"; Sample.n "4"; Sample.n "5"; Sample.n "6"]])
  = Raise MergeError.
Proof.
  destruct (loaded_table_merges_unless_clash
              (map iso_day) as_float64 Sample.promote Sample.raw_wide
              (mkDF (py "SOC Code" :: VALUE_COLS_CANON)
                    [[Sample.s "13-1081"; Sample.n "1"; Sample.n "2";
                      Sample.n "3"; Sample.n "4"; Sample.n "5"; Sample.n "6"]])
              (mkDF (map py ["SOC Code"; "Support"; "Support_ONET"]%string)
                    [[Sample.s "13-1081"; Sample.n "4"; Sample.n "5"]])
              0)
    as [[_ H] _].
  - vm_compute. reflexivity.
  - reflexivity.
  - intros r [<-|[]]; eexists; reflexivity.
  - apply H. exists (py "Support"). repeat split; apply mem_In; reflexivity.
Defined.

End MatchedRows.

(** ** How a run of main ends *)

Section Runs.

Variable S : Type.
Variable promote : nat -> cell -> cell.
Variable load : S -> result DataFrame.

Lemma merge_and_order_not_exit in_df onet_df n :
  merge_and_order promote in_df onet_df <> Exit n.
Proof.
  unfold merge_and_order.
  destruct (merge_step promote in_df onet_df) as [m|]; [|discriminate].
  destruct (reorder m); discriminate.
Qed.

(** X16: [main] returns 2 exactly when the input sheet cannot be read; it
    returns 3 exactly when the sheet is read and none of its headers has,
    in canonical form, one of the SOC names; it returns 4 only when the
    loader raised, and whenever the loader raises on an input sheet that
    was standardised; 2, 3 and 4 are the only codes it returns before the
    table is written. *)
Theorem main_exit_codes (in_read : option DataFrame) (source : S) :
  (main_read promote load in_read source = Exit 2 <-> in_read = None)
  /\ (main_read promote load in_read source = Exit 3
      <-> exists in_raw,
            in_read = Some in_raw
            /\ forall c, In c (columns in_raw) ->
                         ~ In (_canon c) (map _canon soc_opts_in))
  /\ (main_read promote load in_read source = Exit 4 ->
      exists e, load source = Raise e)
  /\ (forall in_raw soc_col_in in_df e,
        in_read = Some in_raw ->
        find_col (map strip (columns in_raw)) soc_opts_in = Ok soc_col_in ->
        standardize (mkDF (map strip (columns in_raw)) (rows in_raw)) soc_col_in
        = Ok in_df ->
        load source = Raise e ->
        main_read promote load in_read source = Exit 4)
  /\ (forall n, main_read promote load in_read source = Exit n ->
                n = 2 \/ n = 3 \/ n = 4).
Proof.
  destruct in_read as [in_raw|]; cbn [main_read].
  2:{ split; [tauto|]. split; [|split; [|split]].
      - split; [discriminate|]. now intros [x [H _]].
      - discriminate.
      - discriminate.
      - intros n [= <-]. now left. }
  split; [split; [|discriminate]|].
  { unfold main_with. cbv zeta.
    destruct (find_col _ soc_opts_in); [|discriminate].
    destruct (standardize _ _); [|discriminate].
    destruct (load source); [|discriminate].
    intros H. now apply merge_and_order_not_exit in H. }
  unfold main_with. cbv zeta. cbn [columns].
  destruct (find_col (map strip (columns in_raw)) soc_opts_in) as [soc|e] eqn:F.
  - assert (Hfound : exists c, In c (columns in_raw)
                               /\ In (_canon c) (map _canon soc_opts_in)).
    { unfold find_col, _col_like in F.
      destruct (find _ (map strip (columns in_raw))) as [c'|] eqn:E;
        [|discriminate].
      apply find_some in E. destruct E as [Hin Hm].
      apply in_map_iff in Hin. destruct Hin as [c [<- Hc]].
      exists c. split; [assumption|]. rewrite canon_strip in Hm.
      now apply mem_In. }
    split; [|split; [|split]].
    + split.
      * destruct (standardize _ soc); [|discriminate].
        destruct (load source); [|discriminate].
        intros H. now apply merge_and_order_not_exit in H.
      * intros [x [[= <-] H]]. destruct Hfound as [c [Hc Hm]].
        now destruct (H c Hc).
    + destruct (standardize _ soc); [|discriminate].
      destruct (load source) as [onet|e]; [|now exists e].
      intros H. now apply merge_and_order_not_exit in H.
    + intros x soc' in_df e [= <-]. rewrite F. intros [= <-] -> ->.
      reflexivity.
    + intros n. destruct (standardize _ soc); [|discriminate].
      destruct (load source); [|intros [= <-]; now right; right].
      intros H. now apply merge_and_order_not_exit in H.
  - split; [|split; [|split]].
    + split; [|reflexivity]. intros _. exists in_raw.
      split; [reflexivity|]. intros c Hc Hm.
      unfold find_col, _col_like in F.
      destruct (find _ (map strip (columns in_raw))) as [c'|] eqn:E;
        [discriminate|].
      pose proof (find_none _ _ E (strip c) (in_map strip _ _ Hc)) as Hf.
      cbv beta in Hf. rewrite canon_strip in Hf.
      apply mem_In in Hm. congruence.
    + discriminate.
    + intros x soc' in_df e' [= <-]. rewrite F. discriminate.
    + intros n [= <-]. right. now left.
Qed.

End Runs.

Lemma main_exit_codes_witness :
  main_read Sample.promote (load_source (map iso_day) as_float64)
            None (Some Sample.raw_wide)
  = Exit 2
  /\ main_read Sample.promote (load_source (map iso_day) as_float64)
               (Some (mkDF (map py ["Dept"; "Job Title"]%string)
                           [[Sample.s "A"; Sample.s "Analyst"]]))
               (Some Sample.raw_wide)
     = Exit 3.
Proof.
  split.
  - now apply (proj1 (main_exit_codes _ Sample.promote
                        (load_source (map iso_day) as_float64) None _)).
  - apply (proj1 (proj2 (main_exit_codes _ Sample.promote
                           (load_source (map iso_day) as_float64) _ _))).
    eexists. split; [reflexivity|].
    intros c [<-|[<-|[]]]; apply mem_not_In; reflexivity.
Defined.

(** ** Saving under a free name *)

Section Saving.

Variable to_excel : str -> write_outcome.
Variables base ext : str.

Lemma save_loop_scans fuel attempt out_path :
  fuel + attempt = 11 -> 0 < fuel ->
  save_loop to_excel base ext fuel attempt out_path
  = first_unlocked to_excel
      (out_path :: map (numbered base ext) (seq (S attempt) (10 - attempt))).
Proof.
  revert attempt out_path.
  induction fuel as [|fuel IH]; intros attempt out_path Hsum Hpos; [lia|].
  cbn [save_loop first_unlocked].
  destruct (to_excel out_path); try reflexivity.
  cbv zeta. destruct (Nat.ltb_spec 10 (S attempt)) as [Hgt|Hle].
  - replace (10 - attempt) with 0 by lia. reflexivity.
  - rewrite IH by lia.
    replace (10 - attempt) with (S (10 - S attempt)) by lia. reflexivity.
Qed.

(** The loop looks for the first path that is not locked among the eleven
    candidates. *)
Lemma save_scans out_path :
  save to_excel out_path base ext
  = first_unlocked to_excel (candidates out_path base ext).
Proof. unfold save, candidates. now rewrite save_loop_scans by lia. Qed.

Lemma first_unlocked_saved l p :
  first_unlocked to_excel l = SavedAt p
  <-> exists pre post,
        l = pre ++ p :: post
        /\ (forall q, In q pre -> to_excel q = PermissionError)
        /\ to_excel p = WriteOk.
Proof.
  induction l as [|x t IH]; simpl.
  - split; [discriminate|]. intros [pre [post [E _]]]. destruct pre; discriminate.
  - destruct (to_excel x) eqn:Ex.
    + split.
      * intros [= <-]. exists [], t. repeat split; [intros ? []|assumption].
      * intros [pre [post [E [Hpre Hp]]]]. destruct pre as [|y pre].
        -- simpl in E. congruence.
        -- simpl in E. assert (x = y) by congruence. subst y.
           rewrite (Hpre x (or_introl eq_refl)) in Ex. discriminate.
    + rewrite IH. split.
      * intros [pre [post [-> [Hpre Hp]]]]. exists (x :: pre), post.
        repeat split; [|assumption].
        intros q [<-|Hq]; [assumption|now apply Hpre].
      * intros [pre [post [E [Hpre Hp]]]]. destruct pre as [|y pre].
        -- simpl in E. assert (x = p) by congruence. subst p. congruence.
        -- simpl in E. assert (t = pre ++ p :: post) by congruence.
           exists pre, post. repeat split; [assumption| |assumption].
           intros q Hq. apply Hpre. now right.
    + split; [discriminate|].
      intros [pre [post [E [Hpre Hp]]]]. destruct pre as [|y pre].
      * simpl in E. assert (x = p) by congruence. subst p. congruence.
      * simpl in E. assert (x = y) by congruence. subst y.
        rewrite (Hpre x (or_introl eq_refl)) in Ex. discriminate.
Qed.

Lemma first_unlocked_gave_up l :
  first_unlocked to_excel l = GaveUp
  <-> forall q, In q l -> to_excel q = PermissionError.
Proof.
  induction l as [|x t IH]; simpl; [tauto|].
  destruct (to_excel x) eqn:Ex.
  - split; [discriminate|]. intros H.
    rewrite (H x (or_introl eq_refl)) in Ex. discriminate.
  - rewrite IH. split.
    + intros H q [<-|Hq]; [assumption|now apply H].
    + intros H q Hq. apply H. now right.
  - split; [discriminate|]. intros H.
    rewrite (H x (or_introl eq_refl)) in Ex. discriminate.
Qed.

Lemma first_unlocked_fuel l : first_unlocked to_excel l <> OutOfFuel.
Proof.
  induction l as [|x t IH]; simpl; [discriminate|].
  destruct (to_excel x); [discriminate|assumption|discriminate].
Qed.

(** X17: the table is written at the first path that is not locked among
    the requested path and the paths numbered 1 to 10, in this order, and
    nowhere else; a path is tried only after all the paths before it were
    found locked; the loop always ends. *)
Theorem save_first_unlocked_path (out_path p : str) :
  (save to_excel out_path base ext = SavedAt p
   <-> exists pre post,
         candidates out_path base ext = pre ++ p :: post
         /\ (forall q, In q pre -> to_excel q = PermissionError)
         /\ to_excel p = WriteOk)
  /\ (to_excel out_path = WriteOk ->
      save to_excel out_path base ext = SavedAt out_path)
  /\ save to_excel out_path base ext <> OutOfFuel.
Proof.
  rewrite save_scans. split; [apply first_unlocked_saved|].
  split; [|apply first_unlocked_fuel].
  intros H. unfold candidates. simpl. now rewrite H.
Qed.

(** X18: [main] returns 5 exactly when the requested path and the ten
    numbered paths are all locked: after eleven refused writes, and never
    when one of the eleven paths can be written or raises another
    exception. *)
Theorem save_gives_up_after_eleven (out_path : str) :
  (save to_excel out_path base ext = GaveUp
   <-> forall q, In q (candidates out_path base ext) ->
                 to_excel q = PermissionError)
  /\ length (candidates out_path base ext) = 11.
Proof.
  rewrite save_scans. split; [apply first_unlocked_gave_up|reflexivity].
Qed.

End Saving.

Lemma save_first_unlocked_path_witness :
  save (fun q => if str_eqb q (py "out.xlsx") then PermissionError else WriteOk)
       (py "out.xlsx") (py "out") (py ".xlsx")
  = SavedAt (py "out (1).xlsx").
Proof.
  apply (proj1 (save_first_unlocked_path _ _ _ _ _)).
  exists [py "out.xlsx"],
         (map (numbered (py "out") (py ".xlsx")) (seq 2 9)).
  split; [reflexivity|]. split; [|reflexivity].
  intros q [<-|[]]. reflexivity.
Defined.

Lemma save_gives_up_after_eleven_witness :
  save (fun _ => PermissionError) (py "out.xlsx") (py "out") (py ".xlsx")
  = GaveUp.
Proof.
  apply (proj1 (save_gives_up_after_eleven _ _ _ _)). reflexivity.
Defined.

Section CandidatePaths.

Variables base ext : str.

Lemma numbered_injective x y :
  In x (seq 1 10) -> In y (seq 1 10) ->
  numbered base ext x = numbered base ext y -> x = y.
Proof.
  intros Hx Hy E. unfold numbered in E. apply app_inv_head in E.
  simpl in Hx, Hy.
  repeat (destruct Hx as [<-|Hx];
          [repeat (destruct Hy as [<-|Hy];
                   [first [reflexivity | cbv in E; discriminate E]|]);
           destruct Hy|]).
  destruct Hx.
Qed.

(** X19: when [base] and [ext] are the two parts of the requested path,
    the eleven paths that the loop can try are pairwise different: no
    path is tried twice, and a numbered path is never the requested
    one. *)
Theorem candidates_distinct (out_path : str) :
  out_path = base ++ ext ->
  NoDup (candidates out_path base ext).
Proof.
  intros ->. unfold candidates. constructor.
  - intros Hin. apply in_map_iff in Hin. destruct Hin as [k [E _]].
    unfold numbered in E. apply app_inv_head in E.
    apply (f_equal (@length ascii)) in E.
    rewrite !length_app in E. simpl in E. lia.
  - apply Finite.Injective_map_NoDup_in; [|apply seq_NoDup].
    intros x y Hx Hy. now apply numbered_injective.
Qed.

End CandidatePaths.

Lemma candidates_distinct_witness :
  NoDup (candidates (py "out.xlsx") (py "out") (py ".xlsx")).
Proof. apply candidates_distinct. reflexivity. Defined.

(** ** The shape of the written table *)

Section WrittenTable.

Lemma series_length df label v :
  series df label = Ok v -> length v = length (rows df).
Proof.
  unfold series, bind. destruct (position (columns df) label); [|discriminate].
  intros [= <-]. apply length_map.
Qed.

Lemma set_column_rows label values df :
  length values = length (rows df) ->
  length (rows (set_column label values df)) = length (rows df).
Proof.
  intros H. unfold set_column.
  destruct (mem label (columns df)); cbn [rows];
    rewrite length_map, length_combine; lia.
Qed.

Lemma set_column_labels label values df :
  In label (columns (set_column label values df))
  /\ forall l, In l (columns df) -> In l (columns (set_column label values df)).
Proof.
  unfold set_column. destruct (mem label (columns df)) eqn:E; cbn [columns].
  - split; [now apply mem_In|tauto].
  - split; [apply in_or_app; right; now left|].
    intros l Hl. apply in_or_app. now left.
Qed.

Lemma rename_kept old new df l :
  In l (columns df) -> l <> old -> In l (columns (rename [(old, new)] df)).
Proof.
  intros Hl Hne. unfold rename. cbn [columns]. apply in_map_iff.
  exists l. split; [|assumption]. simpl.
  destruct (str_eqb old l) eqn:E; [|reflexivity].
  apply str_eqb_eq in E. congruence.
Qed.

Lemma rename_new old new df :
  In old (columns df) -> In new (columns (rename [(old, new)] df)).
Proof.
  intros H. unfold rename. cbn [columns]. apply in_map_iff.
  exists old. split; [|assumption]. simpl. now rewrite str_eqb_refl.
Qed.

Lemma find_col_or_none_found cols options c :
  find_col_or_none cols options = Some c ->
  In c cols /\ In (_canon c) (map _canon options).
Proof.
  unfold find_col_or_none, find_col, _col_like.
  destruct (find _ cols) as [c'|] eqn:E; [|discriminate].
  intros [= <-]. apply find_some in E. destruct E as [Hin Hm].
  split; [assumption|now apply mem_In].
Qed.

(** A column found for one list of options is not a label whose
    canonical form is outside that list. *)
Lemma found_differs c l options :
  In (_canon c) (map _canon options) ->
  mem (_canon l) (map _canon options) = false -> l <> c.
Proof. intros Hc Hl ->. apply mem_not_In in Hl. contradiction. Qed.

Lemma found_apart c c' options options' :
  In (_canon c) (map _canon options) ->
  In (_canon c') (map _canon options') ->
  forallb (fun a => negb (mem a (map _canon options'))) (map _canon options)
  = true ->
  c' <> c.
Proof.
  intros Hc Hc' F ->. rewrite forallb_forall in F. specialize (F _ Hc).
  apply negb_true_iff, mem_not_In in F. contradiction.
Qed.

Lemma options_apart options options' x :
  forallb (fun a => negb (mem a (map _canon options'))) (map _canon options)
  = true ->
  In x (map _canon options) -> mem x (map _canon options') = false.
Proof.
  intros F Hx. rewrite forallb_forall in F. now apply negb_true_iff, F.
Qed.

(** Lines 278-281: the HeadCount column. *)
Lemma headcount_stage df1 (headcount_col : option str) :
  (forall h, headcount_col = Some h ->
             In h (columns df1) /\ In (_canon h) (map _canon headcount_opts)) ->
  let df2 := match headcount_col with
             | None => set_column_scalar (py "HeadCount") (CObj (py "1")) df1
             | Some h => rename [(h, py "HeadCount")] df1
             end in
  length (rows df2) = length (rows df1)
  /\ In (py "HeadCount") (columns df2)
  /\ forall l, In l (columns df1) ->
               mem (_canon l) (map _canon headcount_opts) = false ->
               In l (columns df2).
Proof.
  intros Hh. destruct headcount_col as [h|]; cbv zeta.
  - destruct (Hh h eq_refl) as [Hin Hc]. split; [reflexivity|].
    split; [now apply rename_new|].
    intros l Hl Hm. apply rename_kept; [assumption|].
    now apply (found_differs h l headcount_opts).
  - unfold set_column_scalar.
    destruct (set_column_labels (py "HeadCount")
                (map (fun _ => CObj (py "1")) (rows df1)) df1) as [C K].
    split; [apply set_column_rows, length_map|]. split; [assumption|].
    intros l Hl _. now apply K.
Qed.

(** Lines 283-286: the Occupational Title column. *)
Lemma occ_title_stage df2 (occ_title_col job_col : option str) df3 :
  (forall o, occ_title_col = Some o ->
             In o (columns df2) /\ In (_canon o) (map _canon occ_title_opts)) ->
  match occ_title_col with
  | Some o => Ok (rename [(o, py "Occupational Title")] df2)
  | None =>
      match job_col with
      | None => Ok (set_column_scalar (py "Occupational Title") (CStr []) df2)
      | Some j =>
          titles <- series df2 j ;;
          Ok (set_column (py "Occupational Title") titles df2)
      end
  end = Ok df3 ->
  length (rows df3) = length (rows df2)
  /\ In (py "Occupational Title") (columns df3)
  /\ forall l, In l (columns df2) ->
               mem (_canon l) (map _canon occ_title_opts) = false ->
               In l (columns df3).
Proof.
  intros Ho. destruct occ_title_col as [o|].
  - destruct (Ho o eq_refl) as [Hin Hc]. intros [= <-]. split; [reflexivity|].
    split; [now apply rename_new|].
    intros l Hl Hm. apply rename_kept; [assumption|].
    now apply (found_differs o l occ_title_opts).
  - destruct job_col as [j|].
    + unfold bind. destruct (series df2 j) as [titles|] eqn:Et; [|discriminate].
      intros [= <-].
      destruct (set_column_labels (py "Occupational Title") titles df2)
        as [C K].
      split; [apply set_column_rows; now apply series_length in Et|].
      split; [assumption|]. intros l Hl _. now apply K.
    + intros [= <-]. unfold set_column_scalar.
      destruct (set_column_labels (py "Occupational Title")
                  (map (fun _ => CStr []) (rows df2)) df2) as [C K].
      split; [apply set_column_rows, length_map|]. split; [assumption|].
      intros l Hl _. now apply K.
Qed.

(** Lines 288-289: the Job Title column. *)
Lemma job_title_stage df3 (job_col : option str) :
  (forall j, job_col = Some j -> In (_canon j) (map _canon job_opts)) ->
  let out := match job_col with
             | Some j => if str_eqb j (py "Job Title") then df3
                         else rename [(j, py "Job Title")] df3
             | None => df3
             end in
  length (rows out) = length (rows df3)
  /\ forall l, In l (columns df3) ->
               mem (_canon l) (map _canon job_opts) = false ->
               In l (columns out).
Proof.
  intros Hj. destruct job_col as [j|]; cbv zeta; [|tauto].
  destruct (str_eqb j (py "Job Title")); [tauto|].
  split; [reflexivity|]. intros l Hl Hm. apply rename_kept; [assumption|].
  now apply (found_differs j l job_opts (Hj j eq_refl)).
Qed.

(** Lines 276-289 keep the rows and leave the table with the three labels
    that the merge and the column order rely on. *)
Lemma standardize_shape in_df soc_col_in out :
  standardize in_df soc_col_in = Ok out ->
  length (rows out) = length (rows in_df)
  /\ In (py "SOC Code") (columns out)
  /\ In (py "HeadCount") (columns out)
  /\ In (py "Occupational Title") (columns out).
Proof.
  unfold standardize. cbv zeta. unfold bind.
  destruct (series in_df soc_col_in) as [soc|] eqn:Es; [|discriminate].
  pose proof (series_length _ _ _ Es) as Hsoc.
  set (df1 := set_column (py "SOC Code") (map (fun c => CStr (norm_soc c)) soc)
                         in_df).
  assert (R1 : length (rows df1) = length (rows in_df))
    by (apply set_column_rows; now rewrite length_map).
  destruct (set_column_labels (py "SOC Code")
              (map (fun c => CStr (norm_soc c)) soc) in_df) as [S1 K1].
  fold df1 in S1, K1.
  set (headcount_col := find_col_or_none (columns in_df) headcount_opts).
  set (occ_title_col := find_col_or_none (columns in_df) occ_title_opts).
  set (job_col := find_col_or_none (columns in_df) job_opts).
  destruct (headcount_stage df1 headcount_col) as [R2 [C2 K2]].
  { intros h Hh. apply find_col_or_none_found in Hh. destruct Hh as [Hin Hc].
    split; [now apply K1|assumption]. }
  set (df2 := match headcount_col with
              | None => set_column_scalar (py "HeadCount") (CObj (py "1")) df1
              | Some h => rename [(h, py "HeadCount")] df1
              end) in *.
  match goal with
  | |- match ?X with _ => _ end = _ -> _ => destruct X as [df3|] eqn:E3
  end; [|discriminate].
  destruct (occ_title_stage df2 occ_title_col job_col df3) as [R3 [O3 K3]];
    [|exact E3|].
  { intros o Ho. apply find_col_or_none_found in Ho. destruct Ho as [Hin Hc].
    split; [|assumption]. apply K2; [now apply K1|].
    now apply (options_apart occ_title_opts headcount_opts). }
  destruct (job_title_stage df3 job_col) as [R4 K4].
  { intros j Hj. now apply find_col_or_none_found in Hj. }
  intros [= <-].
  split; [etransitivity; [exact R4|]; rewrite R3, R2; exact R1|].
  split; [|split].
  - apply K4; [|reflexivity]. apply K3; [|reflexivity].
    apply K2; [assumption|reflexivity].
  - apply K4; [|reflexivity]. apply K3; [assumption|reflexivity].
  - apply K4; [assumption|reflexivity].
Qed.

Lemma positions_from_found k label cols :
  In label cols ->
  exists i, In i (positions_from k label cols)
            /\ nth (i - k) cols [] = label.
Proof.
  revert k. induction cols as [|c t IH]; intros k Hin; [destruct Hin|]. simpl.
  destruct (str_eqb c label) eqn:E.
  - apply str_eqb_eq in E. subst c. exists k. split; [now left|].
    now rewrite Nat.sub_diag.
  - destruct Hin as [->|Hin]; [now rewrite str_eqb_refl in E|].
    destruct (IH (S k) Hin) as [i [Hi Hn]].
    pose proof (positions_from_ge _ _ _ _ Hi) as Hge.
    exists i. split; [assumption|].
    replace (i - k) with (S (i - S k)) by lia. exact Hn.
Qed.

(** [df[labels]] keeps the rows, and every label asked for that the table
    has is a label of the result. *)
Lemma select_shape labels df out :
  select labels df = Ok out ->
  length (rows out) = length (rows df)
  /\ forall l, In l labels -> In l (columns df) -> In l (columns out).
Proof.
  unfold select. destruct (forallb _ labels); [|discriminate].
  intros [= <-]. cbn [rows columns]. split; [apply length_map|].
  intros l Hl Hin.
  destruct (positions_from_found 0 l (columns df) Hin) as [i [Hi Hn]].
  rewrite Nat.sub_0_r in Hn. apply in_map_iff. exists i.
  split; [assumption|]. apply in_flat_map. now exists l.
Qed.

Lemma merge_step_shape promote in_df onet_df merged :
  merge_step promote in_df onet_df = Ok merged ->
  length (rows merged) = length (rows in_df)
  /\ forall l, In l (columns in_df) -> In l (columns merged).
Proof.
  unfold merge_step, merge_left_m1, bind.
  destruct (position (columns in_df) _) as [il|] eqn:Hl; [|discriminate].
  destruct (position (columns onet_df) _) as [ir|] eqn:Hr; [|discriminate].
  destruct (is_unique _); [|discriminate]. cbv zeta.
  destruct (suffix_clash _ _ _); [discriminate|].
  destruct (rows in_df) as [|l0 t] eqn:Erows; intros [= <-];
    cbn [rows columns].
  - split; [reflexivity|]. intros l Hin. apply in_or_app.
    destruct (position_removed _ _ _ Hl) as [Hkl _].
    destruct (position_removed _ _ _ Hr) as [Hkr _].
    destruct (list_eq_dec ascii_dec l (py "SOC Code")) as [->|Hne].
    + right. apply in_map_iff. exists (py "SOC Code").
      split; [now rewrite str_eqb_refl|].
      eapply nth_error_In; eassumption.
    + left. now apply (remove_nth_keeps _ _ _ (py "SOC Code")).
  - split; [simpl; now rewrite length_map|].
    intros l Hin. apply in_or_app. now left.
Qed.

(** X20: a table that [main] writes has one row for each row of the input
    sheet, and it has the columns HeadCount, SOC Code and Occupational
    Title, whatever the input sheet lacks. *)
Theorem main_written_shape
        (promote : nat -> cell -> cell) (load : DataFrame -> result DataFrame)
        (in_raw onet_raw out : DataFrame) :
  main_with promote load in_raw onet_raw = Saved out ->
  length (rows out) = length (rows in_raw)
  /\ In (py "HeadCount") (columns out)
  /\ In (py "SOC Code") (columns out)
  /\ In (py "Occupational Title") (columns out).
Proof.
  unfold main_with. cbv zeta.
  destruct (find_col _ soc_opts_in) as [soc_col_in|]; [|discriminate].
  destruct (standardize _ soc_col_in) as [in_df|] eqn:Est; [|discriminate].
  destruct (load onet_raw) as [onet_df|]; [|discriminate].
  unfold merge_and_order.
  destruct (merge_step promote in_df onet_df) as [merged|] eqn:Em; [|discriminate].
  destruct (reorder merged) as [res|] eqn:Er; [|discriminate].
  intros [= <-].
  destruct (standardize_shape _ _ _ Est) as [R1 [S1 [C1 O1]]].
  destruct (merge_step_shape _ _ _ _ Em) as [R2 K2].
  unfold reorder in Er. cbv zeta in Er.
  destruct (select_shape _ _ _ Er) as [R3 K3]. cbn [rows] in R1.
  split; [congruence|].
  assert (Hfront : forall l, In l FRONT -> In l (columns merged) ->
                             In l (columns res)).
  { intros l Hl Hin. apply K3; [|assumption].
    apply in_or_app. left. apply filter_In.
    split; [assumption|now apply mem_In]. }
  split; [|split]; apply Hfront; try (now apply K2);
    apply mem_In; reflexivity.
Qed.

End WrittenTable.

Lemma main_written_shape_witness :
  exists out,
    main (map iso_day) as_float64 Sample.promote
         Sample.raw_codes Sample.raw_wide
    = Saved out
    /\ length (rows out) = 2
    /\ In (py "HeadCount") (columns out).
Proof.
  destruct (main (map iso_day) as_float64 Sample.promote
                 Sample.raw_codes Sample.raw_wide) as [out| |]
    eqn:E; try (vm_compute in E; discriminate).
  exists out. split; [reflexivity|].
  destruct (main_written_shape Sample.promote
                               (load_onet_values (map iso_day) as_float64)
                               Sample.raw_codes Sample.raw_wide out E)
    as [R [C _]].
  split; assumption.
Defined.

(** ** The cells of the standardised input *)

Section StandardCells.

Lemma set_cells_length cols label v r :
  length (set_cells cols label v r) = length r.
Proof.
  revert r. induction cols as [|c t IH]; intros [|x r]; simpl; try reflexivity.
  now rewrite IH.
Qed.

Lemma get_set_cells_same cols label v r :
  In label cols -> length r = length cols ->
  get cols (set_cells cols label v r) label = v.
Proof.
  revert r. induction cols as [|c t IH]; intros r Hin Hlen; [destruct Hin|].
  destruct r as [|x r]; [discriminate|]. simpl set_cells. rewrite get_cons.
  destruct (str_eqb c label) eqn:E; [reflexivity|].
  destruct Hin as [->|Hin]; [now rewrite str_eqb_refl in E|].
  apply IH; [assumption|simpl in Hlen; lia].
Qed.

Lemma get_set_cells_other cols label v r l :
  l <> label -> get cols (set_cells cols label v r) l = get cols r l.
Proof.
  intros Hne. revert r. induction cols as [|c t IH]; intros r.
  - now destruct r.
  - destruct r as [|x r]; [reflexivity|]. simpl set_cells. rewrite !get_cons.
    destruct (str_eqb c l) eqn:E; [|apply IH].
    apply str_eqb_eq in E. subst c.
    destruct (str_eqb l label) eqn:E'; [|reflexivity].
    apply str_eqb_eq in E'. contradiction.
Qed.

Lemma combine_map_map_id {A B C} (f : A -> B) (h : A * B -> C) l :
  map h (combine l (map f l)) = map (fun x => h (x, f x)) l.
Proof. induction l as [|x t IH]; simpl; [reflexivity|now rewrite IH]. Qed.

Lemma get_nil_row cols l : get cols [] l = CNull.
Proof.
  unfold get. destruct (positions l cols) as [|i t]; [reflexivity|].
  unfold cell_at. now destruct i.
Qed.

Lemma get_single label v l :
  get [label] [v] l = if str_eqb label l then v else CNull.
Proof.
  rewrite get_cons. destruct (str_eqb label l); [reflexivity|].
  apply get_nil_row.
Qed.

Lemma get_notin cols r l : ~ In l cols -> get cols r l = CNull.
Proof.
  intros H. unfold get, positions. now rewrite positions_from_notin.
Qed.

(** [df[label] = values] with a value computed from each row. *)
Lemma set_column_rowwise label (f : list cell -> cell) df :
  let g := fun r => if mem label (columns df)
                    then set_cells (columns df) label (f r) r
                    else r ++ [f r] in
  row_by_row df (set_column label (map f (rows df)) df) g
  /\ forall r, length r = length (columns df) ->
       get (columns (set_column label (map f (rows df)) df)) (g r) label = f r
       /\ forall l, l <> label ->
            get (columns (set_column label (map f (rows df)) df)) (g r) l
            = get (columns df) r l.
Proof.
  cbv zeta. unfold row_by_row, set_column.
  destruct (mem label (columns df)) eqn:E; cbn [rows columns].
  - apply mem_In in E. split; [split|].
    + now rewrite combine_map_map_id.
    + intros r Hlen. now rewrite set_cells_length.
    + intros r Hlen. split; [now apply get_set_cells_same|].
      intros l Hl. now apply get_set_cells_other.
  - apply mem_not_In in E. split; [split|].
    + now rewrite combine_map_map_id.
    + intros r Hlen. rewrite !length_app. simpl. lia.
    + intros r Hlen. split.
      * rewrite get_app_right by assumption.
        now rewrite get_single, str_eqb_refl.
      * intros l Hl. destruct (in_dec (list_eq_dec ascii_dec) l (columns df))
          as [Hin|Hout].
        -- now apply get_app_left.
        -- rewrite get_app_right by assumption.
           rewrite get_single, (get_notin _ _ _ Hout).
           destruct (str_eqb label l) eqn:E'; [|reflexivity].
           apply str_eqb_eq in E'. congruence.
Qed.

Lemma get_rename_other old new df r l :
  l <> old -> l <> new ->
  get (columns (rename [(old, new)] df)) r l = get (columns df) r l.
Proof.
  intros Ho Hn. unfold rename. cbn [columns]. revert r.
  induction (columns df) as [|c t IH]; intros r; [reflexivity|].
  destruct r as [|x r]; [now rewrite !get_nil_row|].
  cbn [map]. rewrite !get_cons, IH. cbn [dict_get].
  destruct (str_eqb old c) eqn:E.
  - apply str_eqb_eq in E. subst c.
    destruct (str_eqb new l) eqn:E1; [apply str_eqb_eq in E1; congruence|].
    destruct (str_eqb old l) eqn:E2; [apply str_eqb_eq in E2; congruence|].
    reflexivity.
  - reflexivity.
Qed.

Lemma rename_length old new df :
  length (columns (rename [(old, new)] df)) = length (columns df).
Proof. unfold rename. cbn [columns]. apply length_map. Qed.

Lemma row_by_row_trans a b c g g' :
  row_by_row a b g -> row_by_row b c g' ->
  row_by_row a c (fun r => g' (g r)).
Proof.
  intros [R L] [R' L']. split.
  - now rewrite R', R, map_map.
  - intros r Hr. apply L', L, Hr.
Qed.

Lemma keeps_trans l a b c g g' :
  keeps l a b g -> keeps l b c g' -> keeps l a c (fun r => g' (g r)).
Proof.
  intros [RR K] [RR' K']. split; [now apply (row_by_row_trans a b c)|].
  intros r Hr. rewrite K' by (apply RR, Hr). now apply K.
Qed.

Lemma keeps_refl l df : keeps l df df (fun r => r).
Proof.
  split; [split|]; [now rewrite map_id|tauto|reflexivity].
Qed.

Lemma keeps_rename l old new df :
  l <> old -> l <> new -> keeps l df (rename [(old, new)] df) (fun r => r).
Proof.
  intros Ho Hn. split; [split|].
  - unfold rename. cbn [rows]. now rewrite map_id.
  - intros r Hr. now rewrite rename_length.
  - intros r _. now apply get_rename_other.
Qed.

Lemma keeps_set_column l label f df :
  l <> label ->
  exists g, keeps l df (set_column label (map f (rows df)) df) g.
Proof.
  intros Hne. destruct (set_column_rowwise label f df) as [RR V].
  eexists. split; [exact RR|]. intros r Hr. now apply V.
Qed.

(** [df[label]] as a Series, row by row. *)
Lemma series_rowwise df label v :
  series df label = Ok v ->
  v = map (fun r => get (columns df) r label) (rows df).
Proof.
  unfold series, bind.
  destruct (position (columns df) label) as [i|] eqn:E; [|discriminate].
  intros [= <-]. apply map_ext. intros r.
  symmetry. now apply position_get.
Qed.

Lemma headcount_step_keeps l headcount_col df :
  l <> py "HeadCount" ->
  (forall h, headcount_col = Some h -> l <> h) ->
  exists g, keeps l df (headcount_step headcount_col df) g.
Proof.
  intros Hl Hh. destruct headcount_col as [h|]; unfold headcount_step.
  - eexists. apply keeps_rename; [now apply Hh|assumption].
  - now apply keeps_set_column.
Qed.

Lemma occ_title_step_keeps l occ_title_col job_col df df3 :
  l <> py "Occupational Title" ->
  (forall o, occ_title_col = Some o -> l <> o) ->
  occ_title_step occ_title_col job_col df = Ok df3 ->
  exists g, keeps l df df3 g.
Proof.
  intros Hl Ho. unfold occ_title_step. destruct occ_title_col as [o|].
  - intros [= <-]. eexists. apply keeps_rename; [now apply Ho|assumption].
  - destruct job_col as [j|].
    + unfold bind. destruct (series df j) as [titles|] eqn:Et; [|discriminate].
      intros [= <-]. rewrite (series_rowwise _ _ _ Et).
      now apply keeps_set_column.
    + intros [= <-]. now apply keeps_set_column.
Qed.

Lemma job_title_step_keeps l job_col df :
  l <> py "Job Title" ->
  (forall j, job_col = Some j -> l <> j) ->
  exists g, keeps l df (job_title_step job_col df) g.
Proof.
  intros Hl Hj. unfold job_title_step. destruct job_col as [j|].
  - destruct (str_eqb j (py "Job Title")).
    + eexists. apply keeps_refl.
    + eexists. apply keeps_rename; [now apply Hj|assumption].
  - eexists. apply keeps_refl.
Qed.

(** [standardize] as its four steps. *)
Lemma standardize_steps in_df soc_col_in out :
  standardize in_df soc_col_in = Ok out ->
  exists df3,
    let df1 := set_column (py "SOC Code")
                 (map (fun r => CStr (norm_soc (get (columns in_df) r
                                                    soc_col_in)))
                      (rows in_df)) in_df in
    occ_title_step (find_col_or_none (columns in_df) occ_title_opts)
                   (find_col_or_none (columns in_df) job_opts)
                   (headcount_step
                      (find_col_or_none (columns in_df) headcount_opts) df1)
    = Ok df3
    /\ out = job_title_step (find_col_or_none (columns in_df) job_opts) df3.
Proof.
  unfold standardize. cbv zeta. unfold bind at 1.
  destruct (series in_df soc_col_in) as [soc|] eqn:Es; [|discriminate].
  rewrite (series_rowwise _ _ _ Es), map_map.
  fold (headcount_step (find_col_or_none (columns in_df) headcount_opts)).
  match goal with
  | |- bind ?X _ = _ -> _ =>
      change X with
        (occ_title_step (find_col_or_none (columns in_df) occ_title_opts)
           (find_col_or_none (columns in_df) job_opts)
           (headcount_step
              (find_col_or_none (columns in_df) headcount_opts)
              (set_column (py "SOC Code")
                 (map (fun r => CStr (norm_soc (get (columns in_df) r
                                                    soc_col_in)))
                      (rows in_df)) in_df)))
  end.
  unfold bind. destruct (occ_title_step _ _ _) as [df3|]; [|discriminate].
  intros [= <-]. exists df3. split; reflexivity.
Qed.

Lemma computes_keeps l F a b c g g' :
  computes l F a b g -> keeps l b c g' ->
  computes l F a c (fun r => g' (g r)).
Proof.
  intros [RR V] [RR' K]. split; [now apply (row_by_row_trans a b c)|].
  intros r Hr. rewrite K by (apply RR, Hr). now apply V.
Qed.

Lemma keeps_computes l l' F a b c g g' :
  keeps l' a b g -> computes l F b c g' ->
  (forall r, F r = get (columns b) r l') ->
  computes l (fun r => get (columns a) r l') a c (fun r => g' (g r)).
Proof.
  intros [RR K] [RR' V] HF. split; [now apply (row_by_row_trans a b c)|].
  intros r Hr. rewrite V by (apply RR, Hr). rewrite HF. now apply K.
Qed.

Lemma row_computes l v a b c g g' :
  row_by_row a b g -> computes l (fun _ => v) b c g' ->
  computes l (fun _ => v) a c (fun r => g' (g r)).
Proof.
  intros RR [RR' V]. split; [now apply (row_by_row_trans a b c)|].
  intros r Hr. apply V, RR, Hr.
Qed.

Lemma computes_set_column label f df :
  exists g, computes label f df (set_column label (map f (rows df)) df) g.
Proof.
  destruct (set_column_rowwise label f df) as [RR V].
  eexists. split; [exact RR|]. intros r Hr. now apply V.
Qed.

Lemma found_other c l options :
  In (_canon c) (map _canon options) ->
  mem (_canon l) (map _canon options) = false -> c <> l.
Proof. intros Hc Hl E. now apply (found_differs c l options Hc Hl). Qed.

Ltac literal_apart := let E := fresh in intro E; vm_compute in E; discriminate.

Ltac column_apart :=
  let c := fresh in let H := fresh in
  intros c H; apply find_col_or_none_found in H; destruct H as [_ H];
  first [ apply (found_differs _ _ _ H); reflexivity
        | apply (found_other _ _ _ H); reflexivity ].

(** X21: the SOC Code column of the standardised input sheet holds, row by
    row, the normalised form of the cell in the SOC column that was found:
    the join key of the input side. *)
Theorem standardize_soc_codes in_df soc_col_in out :
  standardize in_df soc_col_in = Ok out ->
  exists g,
    computes (py "SOC Code")
             (fun r => CStr (norm_soc (get (columns in_df) r soc_col_in)))
             in_df out g.
Proof.
  intros H. destruct (standardize_steps _ _ _ H) as [df3 [E3 ->]].
  cbv zeta in E3.
  destruct (computes_set_column (py "SOC Code")
              (fun r => CStr (norm_soc (get (columns in_df) r soc_col_in)))
              in_df) as [g1 C1].
  destruct (headcount_step_keeps (py "SOC Code")
              (find_col_or_none (columns in_df) headcount_opts)
              (set_column (py "SOC Code")
                 (map (fun r => CStr (norm_soc (get (columns in_df) r
                                                    soc_col_in)))
                      (rows in_df)) in_df)) as [g2 K2];
    [literal_apart|column_apart|].
  edestruct (occ_title_step_keeps (py "SOC Code")) as [g3 K3];
    [literal_apart| |exact E3|]; [column_apart|].
  destruct (job_title_step_keeps (py "SOC Code")
              (find_col_or_none (columns in_df) job_opts) df3)
    as [g4 K4]; [literal_apart|column_apart|].
  eexists.
  exact (computes_keeps _ _ _ _ _ _ _
           (computes_keeps _ _ _ _ _ _ _
              (computes_keeps _ _ _ _ _ _ _ C1 K2) K3) K4).
Qed.

(** X22: when the input sheet has no head-count column, every row of the
    standardised sheet has 1 under HeadCount. *)
Theorem headcount_defaults_to_one in_df soc_col_in out :
  standardize in_df soc_col_in = Ok out ->
  find_col_or_none (columns in_df) headcount_opts = None ->
  exists g,
    computes (py "HeadCount") (fun _ => CObj (py "1")) in_df out g.
Proof.
  intros H Hn. destruct (standardize_steps _ _ _ H) as [df3 [E3 ->]].
  cbv zeta in E3. rewrite Hn in E3.
  destruct (set_column_rowwise (py "SOC Code")
              (fun r => CStr (norm_soc (get (columns in_df) r soc_col_in)))
              in_df) as [R1 _].
  cbv zeta in R1.
  set (df1 := set_column (py "SOC Code")
                (map (fun r => CStr (norm_soc (get (columns in_df) r
                                                   soc_col_in)))
                     (rows in_df)) in_df) in *.
  destruct (computes_set_column (py "HeadCount") (fun _ => CObj (py "1")) df1)
    as [g2 C2].
  fold (set_column_scalar (py "HeadCount") (CObj (py "1")) df1) in C2.
  fold (headcount_step None df1) in C2.
  edestruct (occ_title_step_keeps (py "HeadCount")) as [g3 K3];
    [literal_apart| |exact E3|]; [column_apart|].
  destruct (job_title_step_keeps (py "HeadCount")
              (find_col_or_none (columns in_df) job_opts) df3)
    as [g4 K4]; [literal_apart|column_apart|].
  eexists.
  exact (computes_keeps _ _ _ _ _ _ _
           (computes_keeps _ _ _ _ _ _ _
              (row_computes _ _ _ _ _ _ _ R1 C2) K3) K4).
Qed.

(** X23: when the input sheet has no occupational-title column, every row
    of the standardised sheet has under Occupational Title its job title,
    or the empty string when there is no job-title column either. *)
Theorem occupational_title_default in_df soc_col_in out :
  standardize in_df soc_col_in = Ok out ->
  find_col_or_none (columns in_df) occ_title_opts = None ->
  exists g,
    computes (py "Occupational Title")
             (fun r => match find_col_or_none (columns in_df) job_opts with
                       | Some j => get (columns in_df) r j
                       | None => CStr []
                       end)
             in_df out g.
Proof.
  intros H Hn. destruct (standardize_steps _ _ _ H) as [df3 [E3 ->]].
  cbv zeta in E3. rewrite Hn in E3.
  set (f := fun r => CStr (norm_soc (get (columns in_df) r soc_col_in))) in *.
  set (df1 := set_column (py "SOC Code") (map f (rows in_df)) in_df) in *.
  set (df2 := headcount_step
                (find_col_or_none (columns in_df) headcount_opts) df1) in *.
  destruct (find_col_or_none (columns in_df) job_opts) as [j|] eqn:Ej.
  - apply find_col_or_none_found in Ej. destruct Ej as [_ Ej].
    destruct (keeps_set_column j (py "SOC Code") f in_df) as [g1 K1];
      [apply (found_other _ _ _ Ej); reflexivity|].
    fold df1 in K1.
    destruct (headcount_step_keeps j
                (find_col_or_none (columns in_df) headcount_opts) df1)
      as [g2 K2].
    { apply (found_other _ _ _ Ej). reflexivity. }
    { intros h Hh. apply find_col_or_none_found in Hh. destruct Hh as [_ Hh].
      apply (found_apart h j headcount_opts job_opts Hh Ej). reflexivity. }
    fold df2 in K2.
    unfold occ_title_step, bind in E3.
    destruct (series df2 j) as [titles|] eqn:Et; [|discriminate].
    injection E3 as <-. rewrite (series_rowwise _ _ _ Et).
    destruct (computes_set_column (py "Occupational Title")
                (fun r => get (columns df2) r j) df2) as [g3 C3].
    destruct (job_title_step_keeps (py "Occupational Title") (Some j)
                (set_column (py "Occupational Title")
                   (map (fun r => get (columns df2) r j) (rows df2)) df2))
      as [g4 K4].
    { literal_apart. }
    { intros j' [= <-]. apply (found_differs _ _ _ Ej). reflexivity. }
    eexists. eapply computes_keeps; [|exact K4].
    refine (keeps_computes _ j _ _ _ _ _ _ (keeps_trans _ _ _ _ _ _ K1 K2)
                           C3 _).
    reflexivity.
  - unfold occ_title_step in E3. injection E3 as <-.
    destruct (set_column_rowwise (py "SOC Code") f in_df) as [R1 _].
    cbv zeta in R1. fold df1 in R1.
    destruct (headcount_step_keeps (py "SOC Code")
                (find_col_or_none (columns in_df) headcount_opts) df1)
      as [g2 [R2 _]]; [literal_apart|column_apart|].
    fold df2 in R2.
    destruct (computes_set_column (py "Occupational Title")
                (fun _ => CStr []) df2) as [g3 C3].
    fold (set_column_scalar (py "Occupational Title") (CStr []) df2) in C3.
    eexists. unfold job_title_step.
    exact (row_computes _ _ _ _ _ _ _ (row_by_row_trans _ _ _ _ _ R1 R2) C3).
Qed.

End StandardCells.

Lemma standardize_soc_codes_witness :
  exists out g,
    standardize Sample.raw_codes (py "Code") = Ok out
    /\ computes (py "SOC Code")
         (fun r => CStr (norm_soc (get (columns Sample.raw_codes) r
                                       (py "Code"))))
         Sample.raw_codes out g.
Proof.
  destruct (standardize Sample.raw_codes (py "Code")) as [out|] eqn:E;
    [|vm_compute in E; discriminate].
  destruct (standardize_soc_codes _ _ _ E) as [g C].
  exists out, g. split; [reflexivity|exact C].
Defined.

Lemma headcount_defaults_to_one_witness :
  exists out g,
    standardize Sample.raw_codes (py "Code") = Ok out
    /\ computes (py "HeadCount") (fun _ => CObj (py "1"))
                Sample.raw_codes out g.
Proof.
  destruct (standardize Sample.raw_codes (py "Code")) as [out|] eqn:E;
    [|vm_compute in E; discriminate].
  destruct (headcount_defaults_to_one _ _ _ E eq_refl) as [g C].
  exists out, g. split; [reflexivity|exact C].
Defined.

Lemma occupational_title_default_witness :
  exists out g,
    standardize Sample.raw_codes (py "Code") = Ok out
    /\ computes (py "Occupational Title") (fun _ => CStr [])
                Sample.raw_codes out g.
Proof.
  destruct (standardize Sample.raw_codes (py "Code")) as [out|] eqn:E;
    [|vm_compute in E; discriminate].
  destruct (occupational_title_default _ _ _ E eq_refl) as [g C].
  exists out, g. split; [reflexivity|exact C].
Defined.

(** ** The input's cells in the written table *)

Section InputCells.

(** The cell under [l] in a table made of the columns [idx] of another. *)
Lemma get_indexed (cols : list str) r idx l :
  get (map (fun i => nth i cols []) idx) (map (fun i => cell_at i r) idx) l
  = match find (fun i => str_eqb (nth i cols []) l) idx with
    | Some i => cell_at i r
    | None => CNull
    end.
Proof.
  induction idx as [|i t IH]; [reflexivity|].
  cbn [map find]. rewrite get_cons, IH.
  now destruct (str_eqb (nth i cols []) l).
Qed.

Lemma find_app_first {A} (P : A -> bool) a b :
  find P (a ++ b) = match find P a with Some x => Some x | None => find P b end.
Proof.
  induction a as [|x t IH]; [reflexivity|]. simpl.
  now destruct (P x).
Qed.

Lemma find_positions_other l' l (cols : list str) :
  l' <> l ->
  find (fun i => str_eqb (nth i cols []) l) (positions l' cols) = None.
Proof.
  intros Hne. destruct (find _ _) as [i|] eqn:E; [|reflexivity].
  apply find_some in E. destruct E as [Hin E].
  apply positions_nth in Hin. apply str_eqb_eq in E.
  exfalso. apply Hne. now rewrite <- Hin, <- E.
Qed.

Lemma find_positions_same l (cols : list str) :
  find (fun i => str_eqb (nth i cols []) l) (positions l cols)
  = hd_error (positions l cols).
Proof.
  destruct (positions l cols) as [|i t] eqn:E; [reflexivity|].
  assert (Hin : In i (positions l cols)) by (rewrite E; now left).
  apply positions_nth in Hin. cbn [find hd_error].
  now rewrite Hin, str_eqb_refl.
Qed.

Lemma find_flat_positions labels l (cols : list str) :
  find (fun i => str_eqb (nth i cols []) l)
       (flat_map (fun l' => positions l' cols) labels)
  = if mem l labels then hd_error (positions l cols) else None.
Proof.
  induction labels as [|l' t IH]; [reflexivity|].
  cbn [flat_map]. rewrite find_app_first, IH.
  unfold mem. cbn [existsb]. fold (mem l t).
  destruct (str_eqb l l') eqn:E; cbn [orb].
  - apply str_eqb_eq in E. subst l'. rewrite find_positions_same.
    destruct (hd_error (positions l cols)); [reflexivity|].
    now destruct (mem l t).
  - rewrite find_positions_other; [reflexivity|].
    intros ->. now rewrite str_eqb_refl in E.
Qed.

(** [df[labels]] row by row: a label that was asked for keeps its cell. *)
Lemma select_cells labels df out :
  select labels df = Ok out ->
  let g := fun r => map (fun i => cell_at i r)
                        (flat_map (fun l => positions l (columns df)) labels) in
  rows out = map g (rows df)
  /\ forall r l, In l labels ->
                 get (columns out) (g r) l = get (columns df) r l.
Proof.
  unfold select. destruct (forallb _ labels); [|discriminate].
  intros [= <-]. cbv zeta. cbn [rows columns]. split; [reflexivity|].
  intros r l Hl. rewrite get_indexed, find_flat_positions.
  apply mem_In in Hl. rewrite Hl. unfold get.
  now destruct (positions l (columns df)).
Qed.

(** X24: merging and reordering leave the input's cells alone: in the
    table that is written, every row of the standardised input sheet has,
    under each of the sheet's labels, the cell it had. *)
Theorem merge_and_order_keeps_input
        (promote : nat -> cell -> cell) (in_df onet_df out : DataFrame) :
  merge_and_order promote in_df onet_df = Saved out ->
  exists g,
    rows out = map g (rows in_df)
    /\ forall r l, length r = length (columns in_df) ->
                   In l (columns in_df) ->
                   get (columns out) (g r) l = get (columns in_df) r l.
Proof.
  unfold merge_and_order.
  destruct (merge_step promote in_df onet_df) as [merged|] eqn:Em;
    [|discriminate].
  destruct (reorder merged) as [res|] eqn:Er; [|discriminate].
  intros [= <-]. unfold reorder in Er. cbv zeta in Er.
  destruct (merge_step_shape _ _ _ _ Em) as [_ Hkeep].
  destruct (select_cells _ _ _ Er) as [Rr Gr]. cbv zeta in Rr, Gr.
  destruct (select_shape _ _ _ Er) as [_ Ks].
  assert (Hall : forall l, In l (columns merged) ->
            In l (filter (fun c => mem c (columns merged)) FRONT
                  ++ filter (fun c => mem c (columns merged)) VALUE_COLS_CANON
                  ++ filter (fun c =>
                               negb (mem c (filter (fun c => mem c (columns merged))
                                                   FRONT
                                            ++ filter (fun c => mem c (columns merged))
                                                      VALUE_COLS_CANON)))
                            (columns merged))).
  { intros l Hin.
    destruct (mem l (filter (fun c => mem c (columns merged)) FRONT
                       ++ filter (fun c => mem c (columns merged))
                                 VALUE_COLS_CANON))
      eqn:E.
    - apply mem_In in E. rewrite app_assoc. apply in_or_app. now left.
    - rewrite app_assoc. apply in_or_app. right. apply filter_In.
      split; [assumption|]. now rewrite E. }
  unfold merge_step, merge_left_m1, bind in Em.
  destruct (position (columns in_df) _) as [il|]; [|discriminate].
  destruct (position (columns onet_df) _) as [ir|]; [|discriminate].
  destruct (is_unique _); [|discriminate]. cbv zeta in Em.
  destruct (suffix_clash _ _ _); [discriminate|].
  destruct (rows in_df) as [|l0 t] eqn:Erows.
  - exists (fun r => map (get (columns in_df) r) (columns res)).
    injection Em as Em. rewrite <- Em in Rr. cbn [rows] in Rr.
    split; [exact Rr|].
    intros r l _ Hl. apply get_map_labels.
    apply Ks; [apply Hall|]; now apply Hkeep.
  - rewrite <- Erows in *. injection Em as Em.
    rewrite <- Em in Rr, Gr. cbn [rows columns] in Rr, Gr.
    eexists. split; [rewrite Rr, map_map; reflexivity|].
    intros r l Hr Hl. cbv beta. rewrite Gr.
    + unfold merged_row. now apply get_app_left.
    + replace (columns in_df ++ _) with (columns merged)
        by (now rewrite <- Em).
      now apply Hall, Hkeep.
Qed.

End InputCells.

Lemma merge_and_order_keeps_input_witness :
  exists out g,
    merge_and_order Sample.promote Sample.jobs Sample.reference = Saved out
    /\ rows out = map g (rows Sample.jobs)
    /\ get (columns out) (g [Sample.s "Other"; Sample.s "B"; Sample.s "99-9999";
                             Sample.n "1"; Sample.s "Unknown"]) (py "Dept")
       = Sample.s "B".
Proof.
  destruct (merge_and_order Sample.promote Sample.jobs Sample.reference)
    as [out| |] eqn:E;
    try (vm_compute in E; discriminate).
  destruct (merge_and_order_keeps_input _ _ _ _ E) as [g [R G]].
  exists out, g. split; [reflexivity|]. split; [exact R|].
  rewrite G; [reflexivity|reflexivity|].
  apply mem_In. reflexivity.
Defined.

(** ** One record per SOC code, in either shape *)

Section EitherShape.

Variable to_datetime : list cell -> list (option Z).
Variable upcast : cell -> cell.




End EitherShape.


